(** * Time Logs for Obsidian: the marker grammar, the line mutator, the
      corpus extractor, the command, the modify listener and the export of
      [main.ts], embedded and verified.

    Strings are JavaScript strings: finite sequences of UTF-16 code units.
    A code unit is a number ([N]); a string is a [list] of them.  The
    regular expressions of the source are kept as syntax trees and run by a
    backtracking matcher that follows the ECMAScript matching order
    (leftmost start, greedy and lazy quantifiers in priority order), so each
    pattern below can be read against its literal in the source.  The
    fields of the plugin object are an explicit state; what the plugin asks
    of the vault and of the file system are calls of a program, each of
    which may throw. *)

From Stdlib Require Import String Ascii DecimalString DecimalN.
From Stdlib Require Import List NArith ZArith Bool Lia Arith.
From Stdlib Require Import Sorted Permutation.
Import ListNotations.

Set Implicit Arguments.

(** ** Code units and strings *)

Abbreviation char := N (only parsing).
Abbreviation str := (list N) (only parsing).

(** The code units of an ASCII literal of the source. *)
Definition lit (s : string) : str :=
  map N_of_ascii (list_ascii_of_string s).

Definition LF : char := 10%N.
Definition CR : char := 13%N.
Definition DQUOTE : char := 34%N.

Definition str_eqb (a b : str) : bool :=
  if list_eq_dec N.eq_dec a b then true else false.

Definition is_empty (s : str) : bool :=
  match s with [] => true | _ :: _ => false end.

(** ** Character classes of ECMAScript *)

Definition chr_is (a : ascii) : char -> bool := N.eqb (N_of_ascii a).

Definition in_range (lo hi c : N) : bool := (N.leb lo c && N.leb c hi)%bool.

(** [\d] (no unicode flag): the ten ASCII digits. *)
Definition isDigit (c : char) : bool := in_range 48 57 c.

(** [\w]: ASCII letters, digits and the underscore. *)
Definition isWordChar (c : char) : bool :=
  (in_range 97 122 c || in_range 65 90 c || isDigit c || N.eqb c 95)%bool.

(** LineTerminator: LF, CR, LS, PS. *)
Definition isLineTerminator (c : char) : bool :=
  (N.eqb c 10 || N.eqb c 13 || N.eqb c 8232 || N.eqb c 8233)%bool.

(** [\s], which is also what [String.prototype.trim] strips: WhiteSpace
    (TAB, VT, FF, SP, NBSP, ZWNBSP and the space separators) and
    LineTerminator. *)
Definition isSpace (c : char) : bool :=
  (in_range 9 13 c || N.eqb c 32 || N.eqb c 160 || N.eqb c 5760
   || in_range 8192 8202 c || N.eqb c 8232 || N.eqb c 8233
   || N.eqb c 8239 || N.eqb c 8287 || N.eqb c 12288 || N.eqb c 65279)%bool.

(** [.] without the dotAll flag. *)
Definition isDot (c : char) : bool := negb (isLineTerminator c).

(** ** Regular expressions *)

Inductive regex : Type :=
| Eps : regex                       (* the empty pattern *)
| Cls : (char -> bool) -> regex     (* one code unit of a class *)
| Seq : regex -> regex -> regex     (* r1 r2 *)
| Opt : regex -> regex              (* r? , greedy *)
| Star : regex -> regex             (* r* , greedy *)
| StarLazy : regex -> regex         (* r*? *)
| Group : regex -> regex            (* ( r ), capturing *)
| Bol : regex                       (* ^ , no multiline flag *)
| Eol : regex                       (* $ , no multiline flag *)
| WordB : regex.                    (* \b *)

(** A literal run of characters. *)
Fixpoint Lit (s : str) : regex :=
  match s with
  | [] => Eps
  | c :: s' => Seq (Cls (N.eqb c)) (Lit s')
  end.

(** [r{n}] *)
Fixpoint Rep (n : nat) (r : regex) : regex :=
  match n with
  | O => Eps
  | S n' => Seq r (Rep n' r)
  end.

(** A matcher state: the text to the left of the current position (nearest
    character first), the text to the right, and the captures closed so
    far, in the order of their closing parenthesis. *)
Record mstate : Type := MState {
  seen : str;
  rest : str;
  caps : list str
}.

Definition wordAt (s : str) : bool :=
  match s with c :: _ => isWordChar c | [] => false end.

(** One quantifier loop.  [n] bounds the number of iterations by the number
    of characters left: an iteration that consumes nothing is rejected, as
    in ECMAScript's RepeatMatcher. *)
Fixpoint star_loop (greedy : bool) (step : mstate -> list mstate)
  (n : nat) (st : mstate) : list mstate :=
  match n with
  | O => [st]
  | S n' =>
      let more :=
        flat_map (fun st' =>
          if Nat.ltb (length (rest st')) (length (rest st))
          then star_loop greedy step n' st' else [])
          (step st) in
      if greedy then more ++ [st] else st :: more
  end.

(** All the ways [r] matches at [st], best first. *)
Fixpoint run (r : regex) (st : mstate) : list mstate :=
  match r with
  | Eps => [st]
  | Cls p =>
      match rest st with
      | c :: s' => if p c then [MState (c :: seen st) s' (caps st)] else []
      | [] => []
      end
  | Seq r1 r2 => flat_map (run r2) (run r1 st)
  | Opt r1 => run r1 st ++ [st]
  | Star r1 => star_loop true (run r1) (length (rest st)) st
  | StarLazy r1 => star_loop false (run r1) (length (rest st)) st
  | Group r1 =>
      map (fun st' =>
        MState (seen st') (rest st')
          (caps st' ++
           [firstn (length (rest st) - length (rest st')) (rest st)]))
        (run r1 st)
  | Bol => if is_empty (seen st) then [st] else []
  | Eol => if is_empty (rest st) then [st] else []
  | WordB => if xorb (wordAt (seen st)) (wordAt (rest st)) then [st] else []
  end.

(** The result of RegExp exec: the text before the match, the match, the
    text after it, and the captures. *)
Record rmatch : Type := RMatch {
  m_pre : str;
  m_text : str;
  m_post : str;
  m_caps : list str
}.

Definition m_index (m : rmatch) : nat := length (m_pre m).

(** The best match that starts exactly at the current position. *)
Definition match_here (r : regex) (sn rs : str) : option rmatch :=
  match run r (MState sn rs []) with
  | st' :: _ =>
      Some (RMatch (rev sn)
                   (firstn (length rs - length (rest st')) rs)
                   (rest st') (caps st'))
  | [] => None
  end.

(** Leftmost match: every start position from left to right, the end of the
    string included. *)
Fixpoint exec_from (r : regex) (sn rs : str) : option rmatch :=
  match match_here r sn rs with
  | Some m => Some m
  | None =>
      match rs with
      | [] => None
      | c :: rs' => exec_from r (c :: sn) rs'
      end
  end.

Definition exec (r : regex) (s : str) : option rmatch := exec_from r [] s.

(** RegExp.prototype.test *)
Definition test (r : regex) (s : str) : bool :=
  match exec r s with Some _ => true | None => false end.

(** String.prototype.search: the index of the leftmost match, or -1. *)
Definition search (r : regex) (s : str) : Z :=
  match exec r s with
  | Some m => Z.of_nat (m_index m)
  | None => (-1)%Z
  end.

(** String.prototype.replace with a non-global pattern and a replacer
    function: only the leftmost match is replaced. *)
Definition replace (r : regex) (f : rmatch -> str) (s : str) : str :=
  match exec r s with
  | Some m => m_pre m ++ f m ++ m_post m
  | None => s
  end.

(** String.prototype.replace with a global pattern and a replacement text
    without dollar patterns.  After an empty match the scan moves one
    character on. *)
Fixpoint replace_g (n : nat) (r : regex) (repl : str) (sn rs : str) : str :=
  match n with
  | O => rs
  | S n' =>
      match exec_from r sn rs with
      | None => rs
      | Some m =>
          let skipped := firstn (length (m_pre m) - length sn) rs in
          match m_text m, m_post m with
          | [], [] => skipped ++ repl
          | [], c :: post =>
              skipped ++ repl ++ c ::
              replace_g n' r repl (c :: rev (m_pre m)) post
          | _ :: _, post =>
              skipped ++ repl ++
              replace_g n' r repl (rev (m_text m) ++ rev (m_pre m)) post
          end
      end
  end.

Definition replaceAll (r : regex) (repl : str) (s : str) : str :=
  replace_g (S (length s)) r repl [] s.

(** String.prototype.split with a pattern that has no capture group.  [cur]
    is the piece being read, reversed; [skip] counts the characters of a
    separator still to pass over.  A match that ends where the current piece
    starts does not split. *)
Fixpoint split_go (r : regex) (sn cur : str) (skip : nat) (rs : str)
  : list str :=
  match rs with
  | [] => [rev cur]
  | c :: rs' =>
      match skip with
      | S k => split_go r (c :: sn) cur k rs'
      | O =>
          match match_here r sn rs with
          | None => split_go r (c :: sn) (c :: cur) 0 rs'
          | Some m =>
              match length (m_text m) with
              | O =>
                  if is_empty cur
                  then split_go r (c :: sn) [c] 0 rs'
                  else rev cur :: split_go r (c :: sn) [c] 0 rs'
              | S k => rev cur :: split_go r (c :: sn) [] k rs'
              end
          end
      end
  end.

Definition split (r : regex) (s : str) : list str :=
  match s with
  | [] => match match_here r [] [] with Some _ => [] | None => [[]] end
  | _ :: _ => split_go r [] [] 0 s
  end.

(** ** Other string functions of the host *)

Fixpoint trimStart (s : str) : str :=
  match s with
  | c :: s' => if isSpace c then trimStart s' else s
  | [] => []
  end.

Definition trimEnd (s : str) : str := rev (trimStart (rev s)).

(** String.prototype.trim *)
Definition trim (s : str) : str := trimEnd (trimStart s).

(** String.prototype.startsWith *)
Fixpoint startsWith (p s : str) : bool :=
  match p, s with
  | [], _ => true
  | a :: p', b :: s' => (N.eqb a b && startsWith p' s')%bool
  | _ :: _, [] => false
  end.

(** Array.prototype.join *)
Fixpoint join (sep : str) (l : list str) : str :=
  match l with
  | [] => []
  | [x] => x
  | x :: l' => x ++ sep ++ join sep l'
  end.

(** String.prototype.split with a one-character separator text. *)
Fixpoint split_chr (sep : char) (cur : str) (s : str) : list str :=
  match s with
  | [] => [rev cur]
  | c :: s' =>
      if N.eqb c sep then rev cur :: split_chr sep [] s'
      else split_chr sep (c :: cur) s'
  end.

(** Number::toString for an integer, in decimal. *)
Definition digitsOfUint (u : Decimal.uint) : str :=
  lit (DecimalString.NilZero.string_of_uint u).

Definition stringOfN (n : N) : str := digitsOfUint (N.to_uint n).

Definition stringOfZ (z : Z) : str :=
  match z with
  | Zneg p => N_of_ascii "-" :: stringOfN (Npos p)
  | _ => stringOfN (Z.to_N z)
  end.

(** [s.padStart(2, '0')] *)
Definition padStart2 (s : str) : str :=
  match s with
  | [] => lit "00"
  | [c] => N_of_ascii "0" :: [c]
  | _ => s
  end.

Declare Scope regex_scope.
Delimit Scope regex_scope with re.
Notation "a >> b" := (Seq a b) (at level 61, right associativity) : regex_scope.
Local Open Scope regex_scope.

Definition Chr (a : ascii) : regex := Cls (chr_is a).

(** * The program *)

(** ** Patterns of the source *)

(** [/\r?\n/] *)
Definition lineBreakRegex : regex := Opt (Cls (N.eqb CR)) >> Cls (N.eqb LF).

(** [/\[time-logs::(.*?)\]/] *)
Definition timeLogsRegex : regex :=
  Lit (lit "[time-logs::") >> Group (StarLazy (Cls isDot)) >> Chr "]".

(** [/^\s*-\s\[\s\]\s/] *)
Definition uncheckedRegex : regex :=
  Bol >> Star (Cls isSpace) >> Chr "-" >> Cls isSpace >> Chr "[" >>
  Cls isSpace >> Chr "]" >> Cls isSpace.

(** [/^\s*-\s\[\s*[xX]\s*\]\s/] *)
Definition isXx (c : char) : bool := (chr_is "x" c || chr_is "X" c)%bool.

Definition checkedRegex : regex :=
  Bol >> Star (Cls isSpace) >> Chr "-" >> Cls isSpace >> Chr "[" >>
  Star (Cls isSpace) >> Cls isXx >> Star (Cls isSpace) >> Chr "]" >>
  Cls isSpace.

(** [/\s$/] and [/^\s/] *)
Definition endsWithSpaceRegex : regex := Cls isSpace >> Eol.
Definition startsWithSpaceRegex : regex := Bol >> Cls isSpace.

(** [[^\[\]\n]] *)
Definition notBracketNorLF (c : char) : bool :=
  negb (chr_is "[" c || chr_is "]" c || N.eqb c LF).

(** [/\[[^\[\]\n]*\s*::\s*[^\[\]\n]*\]/] *)
Definition inlineDataviewRegex : regex :=
  Chr "[" >> Star (Cls notBracketNorLF) >> Star (Cls isSpace) >>
  Lit (lit "::") >> Star (Cls isSpace) >> Star (Cls notBracketNorLF) >>
  Chr "]".

(** [\d{4}-\d{2}-\d{2}] *)
Definition datePattern : regex :=
  Rep 4 (Cls isDigit) >> Chr "-" >> Rep 2 (Cls isDigit) >> Chr "-" >>
  Rep 2 (Cls isDigit).

(** [/\b\d{4}-\d{2}-\d{2}\b/] *)
Definition dateRegex : regex := WordB >> datePattern >> WordB.

(** [/^(\d{4}-\d{2}-\d{2})/] *)
Definition leadingDateRegex : regex := Bol >> Group datePattern.

(** [\d{2}:\d{2}(?::\d{2})?] *)
Definition timePattern : regex :=
  Rep 2 (Cls isDigit) >> Chr ":" >> Rep 2 (Cls isDigit) >>
  Opt (Chr ":" >> Rep 2 (Cls isDigit)).

(** [/^-(\d{2}:\d{2}(?::\d{2})?)$/] *)
Definition toOnlyRegex : regex := Bol >> Chr "-" >> Group timePattern >> Eol.

(** [/^(\d{2}:\d{2}(?::\d{2})?)-$/] *)
Definition fromOnlyRegex : regex := Bol >> Group timePattern >> Chr "-" >> Eol.

(** [/^(\d{2}:\d{2}(?::\d{2})?)-(\d{2}:\d{2}(?::\d{2})?)$/] *)
Definition rangeRegex : regex :=
  Bol >> Group timePattern >> Chr "-" >> Group timePattern >> Eol.

(** [/^(\d{2}:\d{2}(?::\d{2})?)$/] *)
Definition singleRegex : regex := Bol >> Group timePattern >> Eol.

(** The class of [csvEscape]: a double quote, a comma or a line feed. *)
Definition csvSpecial (c : char) : bool :=
  (N.eqb c DQUOTE || chr_is "," c || N.eqb c LF)%bool.
Definition mustQuoteRegex : regex := Cls csvSpecial.

(** The global pattern of [csvEscape]: one double quote. *)
Definition quoteRegex : regex := Cls (N.eqb DQUOTE).

(** [match[k]] for a group that took part in the match. *)
Definition group (k : nat) (m : rmatch) : str := nth (k - 1) (m_caps m) [].

(** ** Line classification *)

Definition isUncheckedTaskLine (line : str) : bool := test uncheckedRegex line.

Definition isCheckedTaskLine (line : str) : bool := test checkedRegex line.

Definition containsTimeLogs (line : str) : bool := test timeLogsRegex line.

(** ** The line mutator *)

Definition findFirstInlineDataviewIndex (line : str) : Z :=
  search inlineDataviewRegex line.

(** [line.length > 0 && !/\s$/.test(line) ? ' ' : ''] *)
Definition separatorAfter (line : str) : str :=
  if (negb (is_empty line) && negb (test endsWithSpaceRegex line))%bool
  then lit " " else [].

(** [after.length > 0 && !/^\s/.test(after) ? ' ' : ''] *)
Definition separatorBefore (after : str) : str :=
  if (negb (is_empty after) && negb (test startsWithSpaceRegex after))%bool
  then lit " " else [].

Definition insertBeforeInlineDataview (line insertion : str) : str :=
  let idx := findFirstInlineDataviewIndex line in
  if Z.eqb idx (-1) then line ++ separatorAfter line ++ insertion
  else
    let before := firstn (Z.to_nat idx) line in
    let after := skipn (Z.to_nat idx) line in
    before ++ separatorAfter before ++ insertion ++ separatorBefore after
    ++ after.

(** The replacer of [appendTimeLogToLine], applied to the captured inner
    text. *)
Definition appendEntry (inner currentTime : str) : str :=
  let existingLogs := trim inner in
  let newLogs :=
    if is_empty existingLogs then lit " " ++ currentTime ++ lit ";"
    else existingLogs ++ lit " " ++ currentTime ++ lit ";" in
  lit "[time-logs::" ++ newLogs ++ lit " ]".

Definition appendTimeLogToLine (line currentTime : str) : str :=
  if test timeLogsRegex line then
    replace timeLogsRegex (fun m => appendEntry (group 1 m) currentTime) line
  else
    let dvIndex := findFirstInlineDataviewIndex line in
    let timeLogEntry := lit "[time-logs:: " ++ currentTime ++ lit "; ]" in
    if negb (Z.eqb dvIndex (-1)) then
      insertBeforeInlineDataview line timeLogEntry
    else line ++ separatorAfter line ++ timeLogEntry.

(** ** The clock *)

(** What [getCurrentFormattedTime] reads of a [Date]. *)
Record Date : Type := MkDate {
  getFullYear : Z;
  getMonth : N;
  getDate : N;
  getHours : N;
  getMinutes : N
}.

Definition getCurrentFormattedTime (now : Date) : str :=
  let year := stringOfZ (getFullYear now) in
  let month := padStart2 (stringOfN (getMonth now + 1)) in
  let day := padStart2 (stringOfN (getDate now)) in
  let hours := padStart2 (stringOfN (getHours now)) in
  let minutes := padStart2 (stringOfN (getMinutes now)) in
  year ++ lit "-" ++ month ++ lit "-" ++ day ++ lit " -" ++ hours ++
  lit ":" ++ minutes.

(** ** Auto-detection of completed tasks *)

(** The loop of [addTimeLogForDoneTasks] from index [i] on: the lines of the
    new content after the loop, and the [changed] flag.  [clock i] is the
    reading of the clock when line [i] is logged. *)
Fixpoint doneTasksLoop (clock : nat -> Date) (i : nat)
  (prevLines currLines : list str) : list str * bool :=
  match prevLines, currLines with
  | before :: ps, after :: cs =>
      let (cs', changed) := doneTasksLoop clock (S i) ps cs in
      if str_eqb before after then (after :: cs', changed)
      else if (isUncheckedTaskLine before && isCheckedTaskLine after
               && negb (containsTimeLogs after))%bool
      then (appendTimeLogToLine after (getCurrentFormattedTime (clock i))
              :: cs', true)
      else (after :: cs', changed)
  | _, _ => (currLines, false)
  end.

Definition addTimeLogForDoneTasks (clock : nat -> Date)
  (previousContent newContent : str) : str :=
  let prevLines := split lineBreakRegex previousContent in
  let currLines := split lineBreakRegex newContent in
  let (currLines', changed) := doneTasksLoop clock 0 prevLines currLines in
  if changed then join [LF] currLines' else newContent.

(** ** The range parser *)

Definition ensureSeconds (time : str) : str :=
  if Nat.eqb (length time) 5 then time ++ lit ":00" else time.

Record FromTo : Type := MkFromTo { ft_from : str; ft_to : str }.

Definition parseFromTo (timeLog : str) : FromTo :=
  let trimmed := trim timeLog in
  match exec leadingDateRegex trimmed with
  | None => MkFromTo [] []
  | Some dateMatch =>
      let date := group 1 dateMatch in
      let rest := trim (skipn (length date) trimmed) in
      match exec toOnlyRegex rest with
      | Some toOnly =>
          MkFromTo [] (date ++ lit " " ++ ensureSeconds (group 1 toOnly))
      | None =>
      match exec fromOnlyRegex rest with
      | Some fromOnly =>
          MkFromTo (date ++ lit " " ++ ensureSeconds (group 1 fromOnly)) []
      | None =>
      match exec rangeRegex rest with
      | Some range =>
          MkFromTo (date ++ lit " " ++ ensureSeconds (group 1 range))
                   (date ++ lit " " ++ ensureSeconds (group 2 range))
      | None =>
      match exec singleRegex rest with
      | Some single =>
          MkFromTo [] (date ++ lit " " ++ ensureSeconds (group 1 single))
      | None => MkFromTo [] []
      end end end end
  end.

(** ** The extractor *)

Definition normalizeTaskText (text : str) : str :=
  let normalized := text in
  let normalized :=
    if startsWith (lit "- [ ]") normalized
    then trim (skipn 5 normalized) else normalized in
  let normalized :=
    if (startsWith (lit "- [x]") normalized
        || startsWith (lit "- [X]") normalized)%bool
    then trim (skipn 5 normalized) else normalized in
  normalized.

Record Row : Type := MkRow {
  task : str;
  from : str;
  to : str;
  file : str;
  line : nat
}.

(** A markdown file of the vault, with the content [vault.read] returns. *)
Record TFile : Type := MkFile {
  path : str;
  content : str
}.

(** The entries of a marker's inner text:
    [raw.split(';').map(s => s.trim()).filter(s => s.length > 0)]. *)
Definition entriesOf (timeLogsRaw : str) : list str :=
  filter (fun s => Nat.ltb 0 (length s))
    (map trim (split_chr (N_of_ascii ";") [] timeLogsRaw)).

(** The body of the inner [for] loops: the rows pushed for line [i] (counted
    from 0) of file [f]. *)
Definition rowsOfLine (f : str) (i : nat) (ln : str) : list Row :=
  match exec timeLogsRegex ln with
  | None => []
  | Some m =>
      let timeLogsRaw := trim (group 1 m) in
      if is_empty timeLogsRaw then []
      else
        let taskTextRaw := trim (replace timeLogsRegex (fun _ => []) ln) in
        let taskText := normalizeTaskText taskTextRaw in
        flat_map (fun timeLog =>
          if negb (test dateRegex timeLog) then []
          else
            let ft := parseFromTo timeLog in
            [MkRow taskText (ft_from ft) (ft_to ft) f (i + 1)])
          (entriesOf timeLogsRaw)
  end.

Fixpoint rowsOfLines (f : str) (i : nat) (lines : list str) : list Row :=
  match lines with
  | [] => []
  | ln :: lines' => rowsOfLine f i ln ++ rowsOfLines f (S i) lines'
  end.

Definition rowsOfFile (f : TFile) : list Row :=
  rowsOfLines (path f) 0 (split lineBreakRegex (content f)).

(** The rows in the order they are pushed, before the sort. *)
Definition discoveredRows (markdownFiles : list TFile) : list Row :=
  flat_map rowsOfFile markdownFiles.

(** [a.from || a.to || ''] *)
Definition sortKey (r : Row) : str :=
  if negb (is_empty (from r)) then from r
  else if negb (is_empty (to r)) then to r
  else [].

(** Array.prototype.sort with a comparator: a stable sort.  Insertion puts
    an element before the first one it does not compare greater than, so
    that elements that compare equal keep their order. *)
Section Sort.
Variable A : Type.
Variable cmp : A -> A -> Z.

Fixpoint insertSorted (x : A) (l : list A) : list A :=
  match l with
  | [] => [x]
  | y :: l' =>
      if Z.ltb 0 (cmp x y) then y :: insertSorted x l' else x :: l
  end.

Fixpoint sortBy (l : list A) : list A :=
  match l with
  | [] => []
  | x :: l' => insertSorted x (sortBy l')
  end.
End Sort.

Section Extractor.
(** String.prototype.localeCompare of the host: negative, zero or
    positive.  Its order is implementation-defined. *)
Variable localeCompare : str -> str -> Z.

Definition compareRows (a b : Row) : Z :=
  let aKey := sortKey a in
  let bKey := sortKey b in
  localeCompare aKey bKey.

Definition collectTimeLogRows (markdownFiles : list TFile) : list Row :=
  sortBy compareRows (discoveredRows markdownFiles).
End Extractor.

(** ** The CSV encoding *)

Definition csvEscape (value : str) : str :=
  let mustQuote := test mustQuoteRegex value in
  let escaped := replaceAll quoteRegex [DQUOTE; DQUOTE] value in
  if mustQuote then [DQUOTE] ++ escaped ++ [DQUOTE] else escaped.

Definition csvHeader : list str :=
  [lit "Task"; lit "From"; lit "To"; lit "File"; lit "Line"].

Definition csvColumns (r : Row) : list str :=
  [task r; from r; to r; file r; stringOfN (N.of_nat (line r))].

Definition createCsvContent (rows : list Row) : str :=
  let csvRows := csvHeader :: map csvColumns rows in
  join [LF] (map (fun cols => join (lit ",") (map csvEscape cols)) csvRows).

(** ** The command: a time log on the line of the cursor *)

(** The value of a decimal digit. *)
Definition digitValue (c : char) : nat := N.to_nat (c - 48).

(** The capture a reference names, if it names one. *)
Definition capture (m : rmatch) (index : nat) : option str :=
  if (Nat.leb 1 index && Nat.leb index (length (m_caps m)))%bool
  then Some (nth (index - 1) (m_caps m) []) else None.

(** GetSubstitution of ECMAScript, for a pattern without named groups all
    of whose groups took part in the match.  A dollar sign followed by a
    dollar sign is a dollar sign; followed by an ampersand it is the
    matched text, by a backquote the text before the match, by an
    apostrophe the text after it, by one or two digits a capture.  Two
    digits that name no group are read as one digit and a literal digit; a
    reference that names no group stands for itself, and so does any other
    dollar sign. *)
Fixpoint getSubstitution (m : rmatch) (template : str) : str :=
  match template with
  | [] => []
  | c :: t1 =>
      if negb (chr_is "$" c) then c :: getSubstitution m t1
      else
        match t1 with
        | [] => [c]
        | d :: t2 =>
            if chr_is "$" d then d :: getSubstitution m t2
            else if chr_is "&" d then m_text m ++ getSubstitution m t2
            else if chr_is "`" d then m_pre m ++ getSubstitution m t2
            else if chr_is "'" d then m_post m ++ getSubstitution m t2
            else if isDigit d then
              let one :=
                match capture m (digitValue d) with
                | Some x => x ++ getSubstitution m t2
                | None => c :: d :: getSubstitution m t2
                end in
              match t2 with
              | e :: t3 =>
                  if isDigit e then
                    let index := 10 * digitValue d + digitValue e in
                    if Nat.ltb (length (m_caps m)) index then one
                    else
                      match capture m index with
                      | Some x => x ++ getSubstitution m t3
                      | None => c :: d :: e :: getSubstitution m t3
                      end
                  else one
              | [] => one
              end
            else c :: getSubstitution m t1
        end
  end.

(** String.prototype.replace with a non-global pattern and a replacement
    text: only the leftmost match is replaced, by the expansion of the
    text. *)
Definition replaceWith (r : regex) (replacement : str) (s : str) : str :=
  match exec r s with
  | Some m => m_pre m ++ getSubstitution m replacement ++ m_post m
  | None => s
  end.

(** What [addTimeLog] uses of the editor: the lines of the document and the
    line of the cursor. *)
Record Editor : Type := MkEditor {
  doc : list str;
  cursorLine : nat
}.

Definition getLine (editor : Editor) (n : nat) : option str :=
  nth_error (doc editor) n.

(** [editor.setLine(n, text)] for a line of the document. *)
Definition setLine (editor : Editor) (n : nat) (text : str) : Editor :=
  MkEditor (firstn n (doc editor) ++ text :: skipn (S n) (doc editor))
           (cursorLine editor).

(** The line [addTimeLog] writes back for the line of the cursor. *)
Definition addTimeLogLine (currentTime currentLine : str) : str :=
  match exec timeLogsRegex currentLine with
  | Some m =>
      let existingLogs := trim (group 1 m) in
      let newLogs :=
        if is_empty existingLogs then lit " " ++ currentTime ++ lit ";"
        else existingLogs ++ lit " " ++ currentTime ++ lit ";" in
      replaceWith timeLogsRegex (lit "[time-logs::" ++ newLogs ++ lit " ]")
        currentLine
  | None =>
      let timeLogEntry := lit "[time-logs:: " ++ currentTime ++ lit "; ]" in
      let dvIndex := findFirstInlineDataviewIndex currentLine in
      if negb (Z.eqb dvIndex (-1)) then
        insertBeforeInlineDataview currentLine timeLogEntry
      else currentLine ++ separatorAfter currentLine ++ timeLogEntry
  end.

(** [addTimeLog]; there is no result when the editor has no line at the
    cursor. *)
Definition addTimeLog (now : Date) (editor : Editor) : option Editor :=
  let currentTime := getCurrentFormattedTime now in
  let cursor := cursorLine editor in
  match getLine editor cursor with
  | Some currentLine =>
      Some (setLine editor cursor (addTimeLogLine currentTime currentLine))
  | None => None
  end.

(** ** The plugin: settings, the content cache and the modify listener *)

Record TimeLogsSettings : Type := MkSettings {
  csvExportPath : str;
  autoLogOnTaskDone : bool
}.

Definition DEFAULT_SETTINGS : TimeLogsSettings := MkSettings [] true.

(** What [loadData] returns: nothing, or an object that holds some of the
    settings. *)
Record StoredSettings : Type := MkStored {
  stored_csvExportPath : option str;
  stored_autoLogOnTaskDone : option bool
}.

(** [Object.assign({}, DEFAULT_SETTINGS, data)] *)
Definition loadSettings (data : option StoredSettings) : TimeLogsSettings :=
  match data with
  | None => DEFAULT_SETTINGS
  | Some d =>
      MkSettings
        (match stored_csvExportPath d with
         | Some p => p
         | None => csvExportPath DEFAULT_SETTINGS
         end)
        (match stored_autoLogOnTaskDone d with
         | Some b => b
         | None => autoLogOnTaskDone DEFAULT_SETTINGS
         end)
  end.

(** A [Map] with string keys, in insertion order. *)
Fixpoint Map_get (k : str) (m : list (str * str)) : option str :=
  match m with
  | [] => None
  | (k', v) :: m' => if str_eqb k' k then Some v else Map_get k m'
  end.

Fixpoint Map_set (k v : str) (m : list (str * str)) : list (str * str) :=
  match m with
  | [] => [(k, v)]
  | (k', v') :: m' =>
      if str_eqb k' k then (k', v) :: m' else (k', v') :: Map_set k v m'
  end.

(** A [Set] of strings, in insertion order. *)
Fixpoint Set_has (k : str) (s : list str) : bool :=
  match s with
  | [] => false
  | k' :: s' => (str_eqb k' k || Set_has k s')%bool
  end.

Definition Set_add (k : str) (s : list str) : list str :=
  if Set_has k s then s else s ++ [k].

Fixpoint Set_delete (k : str) (s : list str) : list str :=
  match s with
  | [] => []
  | k' :: s' => if str_eqb k' k then s' else k' :: Set_delete k s'
  end.

(** The fields of the plugin object. *)
Record Plugin : Type := MkPlugin {
  settings : TimeLogsSettings;
  previousContentByPath : list (str * str);
  programmaticUpdatePaths : list str
}.

(** What the listener is called with: a file, with its path and extension,
    or a folder. *)
Inductive TAbstractFile : Type :=
| AFile (file_path extension : str)
| AFolder (folder_path : str).

(** [initializeFileContentCache]: every markdown file that can be read is
    put into the cache; a file whose read fails is passed over.  A file is
    given with what [vault.read] returns for it, if it returns. *)
Fixpoint initializeFileContentCache (files : list (str * option str))
  (cache : list (str * str)) : list (str * str) :=
  match files with
  | [] => cache
  | (p, Some c) :: files' =>
      initializeFileContentCache files' (Map_set p c cache)
  | (_, None) :: files' => initializeFileContentCache files' cache
  end.

(** The state [onload] leaves: the settings loaded, and the cache filled
    only when auto-logging is on. *)
Definition onload (data : option StoredSettings)
  (files : list (str * option str)) : Plugin :=
  let s := loadSettings data in
  MkPlugin s
    (if autoLogOnTaskDone s then initializeFileContentCache files [] else [])
    [].

(** The toggle of the settings tab. *)
Definition setAutoLogOnTaskDone (value : bool) (p : Plugin) : Plugin :=
  MkPlugin (MkSettings (csvExportPath (settings p)) value)
           (previousContentByPath p) (programmaticUpdatePaths p).

(** The listener runs in three stretches, with an [await] between them.
    The first one decides whether the file is read at all: it returns the
    path to read. *)
Definition onModify_begin (p : Plugin) (f : TAbstractFile) : option str :=
  match f with
  | AFolder _ => None
  | AFile file_path extension =>
      if negb (str_eqb extension (lit "md")) then None
      else if negb (autoLogOnTaskDone (settings p)) then None
      else if Set_has file_path (programmaticUpdatePaths p) then None
      else Some file_path
  end.

(** The second stretch, once [vault.read] has returned [newContent]: the
    state it leaves, and the content it asks [vault.modify] to write, if
    any. *)
Definition onModify_read (clock : nat -> Date) (p : Plugin)
  (file_path newContent : str) : Plugin * option str :=
  match Map_get file_path (previousContentByPath p) with
  | None =>
      (MkPlugin (settings p)
         (Map_set file_path newContent (previousContentByPath p))
         (programmaticUpdatePaths p), None)
  | Some prevContent =>
      let maybeUpdated :=
        addTimeLogForDoneTasks clock prevContent newContent in
      if negb (str_eqb maybeUpdated newContent) then
        (MkPlugin (settings p) (previousContentByPath p)
           (Set_add file_path (programmaticUpdatePaths p)),
         Some maybeUpdated)
      else
        (MkPlugin (settings p)
           (Map_set file_path newContent (previousContentByPath p))
           (programmaticUpdatePaths p), None)
  end.

(** The third stretch, once [vault.modify] has settled: the cache is
    updated when the write went through, and the path is taken out of the
    set in either case. *)
Definition onModify_written (p : Plugin) (file_path maybeUpdated : str)
  (written : bool) : Plugin :=
  MkPlugin (settings p)
    (if written
     then Map_set file_path maybeUpdated (previousContentByPath p)
     else previousContentByPath p)
    (Set_delete file_path (programmaticUpdatePaths p)).

(** The listener from its call to its end, when no other stretch runs in
    between: the state it leaves and what it wrote. *)
Definition onModify (clock : nat -> Date) (p : Plugin) (f : TAbstractFile)
  (newContent : str) (written : bool) : Plugin * option str :=
  match onModify_begin p f with
  | None => (p, None)
  | Some file_path =>
      match onModify_read clock p file_path newContent with
      | (p1, Some maybeUpdated) =>
          (onModify_written p1 file_path maybeUpdated written,
           if written then Some maybeUpdated else None)
      | (p1, None) => (p1, None)
      end
  end.

(** ** The export: calls of the host, and the programs that make them *)

(** What [getAbstractFileByPath] finds at a path. *)
Inductive FileKind : Type := IsTFile | IsTFolder.

(** The calls the export makes to the vault, to the file system and to the
    path module, each with the type of what it returns. *)
Inductive call : Type -> Type :=
| GetMarkdownFiles : call (list str)          (* the paths of the files *)
| VaultRead (p : str) : call str
| IsAbsolute (p : str) : call bool
| Dirname (p : str) : call str
| Mkdir (dir : str) : call unit               (* recursive *)
| WriteFile (p data : str) : call unit
| GetAbstractFileByPath (p : str) : call (option FileKind)
| CreateFolder (p : str) : call unit
| VaultModify (p data : str) : call unit
| VaultCreate (p data : str) : call unit.

(** What the export shows: a notice, or the error on the console. *)
Inductive output : Type :=
| NewNotice (text : str)
| ConsoleError.

(** A program: it returns, throws, calls the host and goes on with what the
    call returns ([None] when the call throws), or shows something and goes
    on. *)
Inductive prog (A : Type) : Type :=
| Ret (a : A)
| Throw
| Vis (X : Type) (c : call X) (k : option X -> prog A)
| Tell (o : output) (k : prog A).

Arguments Ret {A} a.
Arguments Throw {A}.
Arguments Vis {A X} c k.
Arguments Tell {A} o k.

Fixpoint bind (A B : Type) (p : prog A) (f : A -> prog B) : prog B :=
  match p with
  | Ret a => f a
  | Throw => Throw
  | Vis c k => Vis c (fun r => bind (k r) f)
  | Tell o k => Tell o (bind k f)
  end.

(** [await c]: the call, rethrowing what it throws. *)
Definition await (X : Type) (c : call X) : prog X :=
  Vis c (fun r => match r with Some x => Ret x | None => Throw end).

(** [try { p } catch { h }] *)
Fixpoint tryCatch (A : Type) (p : prog A) (h : prog A) : prog A :=
  match p with
  | Ret a => Ret a
  | Throw => h
  | Vis c k => Vis c (fun r => tryCatch (k r) h)
  | Tell o k => Tell o (tryCatch k h)
  end.

(** What a run of a program leaves behind: the calls with what they
    returned, and what was shown. *)
Inductive event : Type :=
| Called (X : Type) (c : call X) (r : option X)
| Shown (o : output).

(** [runs p tr out]: the program can run with the trace [tr] and then
    returns [out], or throws if [out] is [None]. *)
Inductive runs (A : Type) : prog A -> list event -> option A -> Prop :=
| runs_Ret (a : A) : runs (Ret a) [] (Some a)
| runs_Throw : runs Throw [] None
| runs_Vis (X : Type) (c : call X) (k : option X -> prog A) (r : option X)
    (tr : list event) (out : option A) :
    runs (k r) tr out -> runs (Vis c k) (Called c r :: tr) out
| runs_Tell (o : output) (k : prog A) (tr : list event) (out : option A) :
    runs k tr out -> runs (Tell o k) (Shown o :: tr) out.

(** [allRuns p P]: [P] holds of the trace and the outcome of every run of
    [p]. *)
Fixpoint allRuns (A : Type) (p : prog A)
  (P : list event -> option A -> Prop) : Prop :=
  match p with
  | Ret a => P [] (Some a)
  | Throw => P [] None
  | Vis c k => forall r, allRuns (k r) (fun tr out => P (Called c r :: tr) out)
  | Tell o k => allRuns k (fun tr out => P (Shown o :: tr) out)
  end.

(** A host: what a call returns, or [None] when it throws, given what
    happened before. *)
Definition Host : Type := list event -> forall X : Type, call X -> option X.

(** The run of a program on a host: its trace and its outcome. *)
Fixpoint interp (A : Type) (host : Host) (before : list event) (p : prog A)
  : list event * option A :=
  match p with
  | Ret a => ([], Some a)
  | Throw => ([], None)
  | Vis c k =>
      let r := host before _ c in
      let (tr, out) := interp host (before ++ [Called c r]) (k r) in
      (Called c r :: tr, out)
  | Tell o k =>
      let (tr, out) := interp host (before ++ [Shown o]) k in
      (Shown o :: tr, out)
  end.

(** String.prototype.lastIndexOf for one character; [None] is -1. *)
Fixpoint lastIndexOf (c : char) (s : str) : option nat :=
  match s with
  | [] => None
  | d :: s' =>
      match lastIndexOf c s' with
      | Some i => Some (S i)
      | None => if N.eqb d c then Some 0 else None
      end
  end.

Definition isAbsoluteOsPath (p : str) : prog bool :=
  tryCatch (await (IsAbsolute p)) (Ret false).

Definition ensureParentFolderExists (filePath : str) : prog unit :=
  match lastIndexOf (N_of_ascii "/") filePath with
  | None => Ret tt
  | Some lastSlash =>
      let folder := firstn lastSlash filePath in
      if is_empty folder then Ret tt
      else
        bind (await (GetAbstractFileByPath folder)) (fun existing =>
          match existing with
          | None =>
              tryCatch (bind (await (CreateFolder folder)) (fun _ => Ret tt))
                       (Ret tt)
          | Some _ => Ret tt
          end)
  end.

(** [(this.settings?.csvExportPath || '').trim()], and the default. *)
Definition csvFilePath (s : option TimeLogsSettings) : str :=
  let desiredPath :=
    trim (match s with Some s' => csvExportPath s' | None => [] end) in
  if Nat.ltb 0 (length desiredPath) then desiredPath
  else lit "time-logs.csv".

Definition writeCsvToVault (s : option TimeLogsSettings) (csvContent : str)
  : prog str :=
  let filePath := csvFilePath s in
  bind (isAbsoluteOsPath filePath) (fun absolute =>
    if absolute then
      bind (await (Dirname filePath)) (fun dir =>
      bind (await (Mkdir dir)) (fun _ =>
      bind (await (WriteFile filePath csvContent)) (fun _ =>
      Ret filePath)))
    else
      bind (ensureParentFolderExists filePath) (fun _ =>
      bind (await (GetAbstractFileByPath filePath)) (fun existing =>
        match existing with
        | Some IsTFile =>
            bind (await (VaultModify filePath csvContent)) (fun _ =>
            Ret filePath)
        | _ =>
            bind (await (VaultCreate filePath csvContent)) (fun _ =>
            Ret filePath)
        end))).

(** The reads of [collectTimeLogRows]: the markdown files of the vault,
    each with its content. *)
Fixpoint readFiles (paths : list str) : prog (list TFile) :=
  match paths with
  | [] => Ret []
  | p :: paths' =>
      bind (await (VaultRead p)) (fun c =>
      bind (readFiles paths') (fun files => Ret (MkFile p c :: files)))
  end.

Section ExportCommand.
Variable localeCompare : str -> str -> Z.

Definition collectTimeLogRowsOfVault : prog (list Row) :=
  bind (await GetMarkdownFiles) (fun paths =>
  bind (readFiles paths) (fun files =>
  Ret (collectTimeLogRows localeCompare files))).

(** The text of the notice of a finished export; the arrow is U+2192. *)
Definition exportedNotice (rows : list Row) (filePath : str) : str :=
  lit "Time logs exported (" ++ stringOfN (N.of_nat (length rows)) ++
  lit " rows) " ++ [8594%N] ++ lit " " ++ filePath.

(** The callback of the command [Export time logs to CSV]. *)
Definition exportTimeLogsCsv (s : option TimeLogsSettings) : prog unit :=
  tryCatch
    (bind collectTimeLogRowsOfVault (fun rows =>
     let csv := createCsvContent rows in
     bind (writeCsvToVault s csv) (fun filePath =>
     Tell (NewNotice (exportedNotice rows filePath)) (Ret tt))))
    (Tell (NewNotice (lit "Failed to export time logs"))
       (Tell ConsoleError (Ret tt))).
End ExportCommand.

(** * Shapes of the range parser, as the specification words them *)

(** [hasShape ps s]: [s] has exactly one character per class of [ps], each
    in its class. *)
Fixpoint hasShape (ps : list (char -> bool)) (s : str) : bool :=
  match ps, s with
  | [], [] => true
  | p :: ps', c :: s' => if p c then hasShape ps' s' else false
  | _, _ => false
  end.

(** [YYYY-MM-DD] *)
Definition dateShape : list (char -> bool) :=
  [isDigit; isDigit; isDigit; isDigit; chr_is "-"; isDigit; isDigit;
   chr_is "-"; isDigit; isDigit].

(** [HH:MM] and [HH:MM:SS] *)
Definition shortTimeShape : list (char -> bool) :=
  [isDigit; isDigit; chr_is ":"; isDigit; isDigit].

Definition longTimeShape : list (char -> bool) :=
  shortTimeShape ++ [chr_is ":"; isDigit; isDigit].

Definition isDateText (d : str) : bool := hasShape dateShape d.

Definition isTimeText (t : str) : bool :=
  (hasShape longTimeShape t || hasShape shortTimeShape t)%bool.

(** The leading [HH:MM[:SS]] of a text, the longer reading first, and what
    follows it. *)
Definition timePrefix (s : str) : option (str * str) :=
  if hasShape longTimeShape (firstn 8 s) then Some (firstn 8 s, skipn 8 s)
  else if hasShape shortTimeShape (firstn 5 s)
       then Some (firstn 5 s, skipn 5 s)
       else None.

(** The four shapes of the text after the date. *)
Definition toOnlyShape (rest : str) : option str :=
  match rest with
  | c :: t => if (chr_is "-" c && isTimeText t)%bool then Some t else None
  | [] => None
  end.

Definition fromOnlyShape (rest : str) : option str :=
  match timePrefix rest with
  | Some (t, [c]) => if chr_is "-" c then Some t else None
  | _ => None
  end.

Definition rangeShape (rest : str) : option (str * str) :=
  match timePrefix rest with
  | Some (t1, c :: t2) =>
      if (chr_is "-" c && isTimeText t2)%bool then Some (t1, t2) else None
  | _ => None
  end.

Definition bareShape (rest : str) : option str :=
  if isTimeText rest then Some rest else None.

(** The ways a time matches at a position, with its capture: with seconds
    first, then without. *)
Definition timeStates (sn rs : str) (cs : list str) : list mstate :=
  (if hasShape longTimeShape (firstn 8 rs)
   then [MState (rev (firstn 8 rs) ++ sn) (skipn 8 rs) (cs ++ [firstn 8 rs])]
   else []) ++
  (if hasShape shortTimeShape (firstn 5 rs)
   then [MState (rev (firstn 5 rs) ++ sn) (skipn 5 rs) (cs ++ [firstn 5 rs])]
   else []).

(** Seconds default to 00 when the time has none. *)
Definition withSeconds (t : str) : str :=
  if hasShape shortTimeShape t then t ++ lit ":00" else t.

(** The date, a space, and the time with its seconds. *)
Definition timestampOf (date t : str) : str :=
  date ++ lit " " ++ withSeconds t.

(** The range parser as the specification words it: a leading date, then
    the trimmed remainder against the four shapes in priority order. *)
Definition parseSpec (entryText : str) : FromTo :=
  let trimmed := trim entryText in
  let date := firstn 10 trimmed in
  if negb (isDateText date) then MkFromTo [] []
  else
    let remainder := trim (skipn 10 trimmed) in
    match toOnlyShape remainder with
    | Some t => MkFromTo [] (timestampOf date t)
    | None =>
    match fromOnlyShape remainder with
    | Some t => MkFromTo (timestampOf date t) []
    | None =>
    match rangeShape remainder with
    | Some (t1, t2) => MkFromTo (timestampOf date t1) (timestampOf date t2)
    | None =>
    match bareShape remainder with
    | Some t => MkFromTo [] (timestampOf date t)
    | None => MkFromTo [] []
    end end end end.

(** [YYYY-MM-DD HH:MM:SS], nineteen characters. *)
Definition timestampShape : list (char -> bool) :=
  dateShape ++ [chr_is " "] ++ longTimeShape.

Definition isTimestamp (s : str) : bool := hasShape timestampShape s.

(** * Sort keys and their order *)

(** Plain lexicographic comparison of two strings, code unit by code
    unit. *)
Fixpoint strCompare (a b : str) : comparison :=
  match a, b with
  | [], [] => Eq
  | [], _ :: _ => Lt
  | _ :: _, [] => Gt
  | x :: a', y :: b' =>
      match N.compare x y with
      | Eq => strCompare a' b'
      | c => c
      end
  end.

(** [a] does not come after [b] in that order. *)
Definition strLe (a b : str) : Prop := strCompare a b <> Gt.

(** The values a sort key takes: the empty string or a timestamp. *)
Definition isKey (k : str) : bool := (is_empty k || isTimestamp k)%bool.

Definition sameKey (k : str) (r : Row) : bool := str_eqb (sortKey r) k.

(** The row pushed for an entry of a line. *)
Definition rowOf (f : str) (i : nat) (ln entry : str) : Row :=
  MkRow (normalizeTaskText (trim (replace timeLogsRegex (fun _ => []) ln)))
        (ft_from (parseFromTo entry)) (ft_to (parseFromTo entry)) f (i + 1).

(** A comparator that orders strings by their code units, as a host whose
    collation is not locale-sensitive would. *)
Definition codeUnitCompare (a b : str) : Z :=
  match strCompare a b with
  | Lt => (-1)%Z
  | Eq => 0%Z
  | Gt => 1%Z
  end.

(** * The entries the extractor reads, as the specification words them *)

(** The entries of the marker of a line that pass the date pre-filter, in
    the order they stand in the marker; an entry that stands there twice
    is there twice. *)
Definition prefilteredEntries (ln : str) : list str :=
  match exec timeLogsRegex ln with
  | Some m => filter (test dateRegex) (entriesOf (trim (group 1 m)))
  | None => []
  end.

(** Lines with their index, counted from [i]. *)
Fixpoint numbered (i : nat) (lines : list str) : list (nat * str) :=
  match lines with
  | [] => []
  | ln :: lines' => (i, ln) :: numbered (S i) lines'
  end.

(** Every pre-filtered entry of a corpus, with its file, the index of its
    line and the line: in document order, then line order, then entry
    order. *)
Definition corpusEntries (files : list TFile)
  : list (TFile * nat * str * str) :=
  flat_map (fun f =>
    flat_map (fun il =>
      map (fun entry => (f, fst il, snd il, entry))
          (prefilteredEntries (snd il)))
      (numbered 0 (split lineBreakRegex (content f))))
    files.

(** The row of such an entry: the task label of its line, the fields the
    range parser returns for the entry, the path of its file and the
    number of its line, counted from 1. *)
Definition entryRow (x : TFile * nat * str * str) : Row :=
  let '(f, i, ln, entry) := x in
  MkRow (normalizeTaskText (trim (replace timeLogsRegex (fun _ => []) ln)))
        (ft_from (parseFromTo entry)) (ft_to (parseFromTo entry))
        (path f) (i + 1).

(** * The CSV field encoding, as the specification words it *)

(** The first character of a class, with the text before and after it. *)
Fixpoint breakAt (p : char -> bool) (s : str) : option (str * char * str) :=
  match s with
  | [] => None
  | c :: s' =>
      if p c then Some ([], c, s')
      else match breakAt p s' with
           | Some (a, x, b) => Some (c :: a, x, b)
           | None => None
           end
  end.

(** The CSV field encoding as the specification words it. *)
Definition needsQuotes (v : str) : bool := existsb csvSpecial v.

Definition doubleQuotes (v : str) : str :=
  flat_map (fun c => if N.eqb c DQUOTE then [DQUOTE; DQUOTE] else [c]) v.

Definition encodeField (v : str) : str :=
  if needsQuotes v then [DQUOTE] ++ doubleQuotes v ++ [DQUOTE] else v.

Definition encodeRow (r : Row) : str :=
  encodeField (task r) ++ lit "," ++ encodeField (from r) ++ lit "," ++
  encodeField (to r) ++ lit "," ++ encodeField (file r) ++ lit "," ++
  stringOfN (N.of_nat (line r)).

(** * Padding around a new marker, and the checkbox prefix *)

(** Whether a text begins, or ends, with a white space character. *)
Definition firstIsSpace (s : str) : bool :=
  match s with c :: _ => isSpace c | [] => false end.

Fixpoint lastIsSpace (s : str) : bool :=
  match s with
  | [] => false
  | [c] => isSpace c
  | _ :: s' => lastIsSpace s'
  end.

(** One space, unless the text is empty or already ends with white space. *)
Definition padAfter (s : str) : str :=
  if (is_empty s || lastIsSpace s)%bool then [] else lit " ".

(** One space, unless the text is empty or already begins with white
    space. *)
Definition padBefore (s : str) : str :=
  if (is_empty s || firstIsSpace s)%bool then [] else lit " ".

(** Stripping one checkbox prefix, of either kind, as the specification
    words it. *)
Definition stripOneCheckbox (text : str) : str :=
  if (startsWith (lit "- [ ]") text || startsWith (lit "- [x]") text
      || startsWith (lit "- [X]") text)%bool
  then trim (skipn 5 text) else text.

(** * The marker, found without the matcher *)

(** The open token of a marker. *)
Definition openToken : str := lit "[time-logs::".

(** The inner text up to the first closing bracket, and what follows the
    bracket; nothing when a line terminator comes first or no bracket
    comes. *)
Fixpoint closeOf (s : str) : option (str * str) :=
  match s with
  | [] => None
  | c :: s' =>
      if chr_is "]" c then Some ([], s')
      else if isDot c then
        match closeOf s' with
        | Some (a, b) => Some (c :: a, b)
        | None => None
        end
      else None
  end.

(** A marker that starts at the head of the text: its inner text and what
    follows it. *)
Definition markerAt (s : str) : option (str * str) :=
  if startsWith openToken s then closeOf (skipn 12 s) else None.

(** The leftmost marker of a line: the text before it, its inner text, the
    text after it. *)
Fixpoint findMarker (sn rs : str) : option (str * str * str) :=
  match markerAt rs with
  | Some (x, b) => Some (rev sn, x, b)
  | None =>
      match rs with
      | [] => None
      | c :: rs' => findMarker (c :: sn) rs'
      end
  end.

Definition markerMatch (f : str * str * str) : rmatch :=
  let '(pre, x, post) := f in
  RMatch pre (openToken ++ x ++ lit "]") post [x].

(** A character an inner text may hold: no closing bracket and no line
    terminator. *)
Definition innerChar (c : char) : bool := (negb (chr_is "]" c) && isDot c)%bool.

(** String.prototype.includes *)
Fixpoint includes (p s : str) : bool :=
  (startsWith p s ||
   match s with
   | [] => false
   | _ :: s' => includes p s'
   end)%bool.

(** * Entries and logged lines *)

(** An entry as the mutator is given it: not empty, no white space around
    it, and no closing bracket, line terminator or semicolon inside. *)
Definition entryChar (c : char) : bool :=
  (innerChar c && negb (chr_is ";" c))%bool.

Definition entryOk (t : str) : bool :=
  (negb (is_empty t) && str_eqb (trim t) t && forallb entryChar t)%bool.

(** The inner text after appending an entry, as the specification words
    it: (existing non-empty ? existing + " " : " ") + newEntry + ";" + " ",
    where existing is the trimmed inner text. *)
Definition newInner (inner newEntry : str) : str :=
  (if is_empty (trim inner) then lit " " else trim inner ++ lit " ")
  ++ newEntry ++ lit ";" ++ lit " ".

(** A line the mutator has logged the entries [es] on: one well-formed
    marker, no open token around it, an inner text that ends with a
    semicolon and holds exactly [es]. *)
Definition logged (l : str) (es : list str) : Prop :=
  exists pre inner post,
    l = pre ++ openToken ++ inner ++ N_of_ascii "]" :: post /\
    includes openToken pre = false /\
    includes openToken post = false /\
    forallb innerChar inner = true /\
    (exists e, trim inner = e ++ lit ";") /\
    entriesOf (trim inner) = es.

(** The characters of a formatted time. *)
Definition timeChar (c : char) : bool :=
  (isDigit c || chr_is "-" c || chr_is ":" c || chr_is " " c)%bool.

(** * Lines, split without the matcher *)

(** [s.split(/\r?\n/)]: a line feed ends a line, together with a carriage
    return right before it. *)
Fixpoint splitLines (cur : str) (s : str) : list str :=
  match s with
  | [] => [rev cur]
  | c :: s' =>
      if N.eqb c LF then rev cur :: splitLines [] s'
      else if N.eqb c CR then
        match s' with
        | c' :: s'' =>
            if N.eqb c' LF then rev cur :: splitLines [] s''
            else splitLines (c :: cur) s'
        | [] => splitLines (c :: cur) s'
        end
      else splitLines (c :: cur) s'
  end.

(** A line without its last character when that is a carriage return. *)
Fixpoint stripCR (l : str) : str :=
  match l with
  | [] => []
  | [c] => if N.eqb c CR then [] else [c]
  | c :: l' => c :: stripCR l'
  end.

Definition noLF (l : str) : bool := forallb (fun c => negb (N.eqb c LF)) l.

(** * Task lines, classified without the matcher *)

(** The leading white space of a text. *)
Fixpoint leadingSpaces (s : str) : str :=
  match s with
  | c :: s' => if isSpace c then c :: leadingSpaces s' else []
  | [] => []
  end.

(** [hasPrefix ps s]: [s] begins with one character per class of [ps]. *)
Fixpoint hasPrefix (ps : list (char -> bool)) (s : str) : bool :=
  match ps with
  | [] => true
  | p :: ps' =>
      match s with
      | c :: s' => if p c then hasPrefix ps' s' else false
      | [] => false
      end
  end.

(** Leading white space, a dash, a white space character, an empty pair of
    brackets with one white space character inside, a white space
    character. *)
Definition uncheckedLine (s : str) : bool :=
  hasPrefix [chr_is "-"; isSpace; chr_is "["; isSpace; chr_is "]"; isSpace]
            (trimStart s).

(** The same with an x or X inside the brackets, with any white space
    around it. *)
Definition checkedLine (s : str) : bool :=
  match trimStart s with
  | a :: b :: c :: inside =>
      (chr_is "-" a && isSpace b && chr_is "[" c &&
       match trimStart inside with
       | x :: after =>
           (isXx x && hasPrefix [chr_is "]"; isSpace] (trimStart after))%bool
       | [] => false
       end)%bool
  | _ => false
  end.

Definition nonEmpty (l : list mstate) : bool :=
  match l with [] => false | _ :: _ => true end.

(** * The auto-detection transform, as the specification words it *)

(** The completion transition of a line: it was an unchecked task line, it
    is a checked task line, and it has no marker yet. *)
Definition completes (before after : str) : bool :=
  (isUncheckedTaskLine before && isCheckedTaskLine after
   && negb (containsTimeLogs after))%bool.

(** The lines of the new content, each line that completes logged with the
    reading of the clock for its index; lines beyond the shorter of the two
    contents are not looked at. *)
Fixpoint mutateLines (clock : nat -> Date) (i : nat)
  (prevLines currLines : list str) : list str :=
  match prevLines, currLines with
  | before :: ps, after :: cs =>
      (if completes before after
       then appendTimeLogToLine after (getCurrentFormattedTime (clock i))
       else after) :: mutateLines clock (S i) ps cs
  | _, _ => currLines
  end.

Fixpoint anyCompletes (prevLines currLines : list str) : bool :=
  match prevLines, currLines with
  | before :: ps, after :: cs =>
      (completes before after || anyCompletes ps cs)%bool
  | _, _ => false
  end.

(** * Lines and their separators *)

(** The line separators of a text, in order: a line feed, alone or with
    the carriage return before it. *)
Fixpoint lineSeparators (s : str) : list str :=
  match s with
  | [] => []
  | c :: s' =>
      if N.eqb c LF then [LF] :: lineSeparators s'
      else if N.eqb c CR then
        match s' with
        | c' :: s'' =>
            if N.eqb c' LF then [CR; LF] :: lineSeparators s''
            else lineSeparators s'
        | [] => lineSeparators s'
        end
      else lineSeparators s'
  end.

(** Lines put together again, each followed by its separator. *)
Fixpoint weave (ls seps : list str) : str :=
  match ls with
  | [] => []
  | l :: ls' =>
      match seps with
      | [] => l
      | sp :: seps' => l ++ sp ++ weave ls' seps'
      end
  end.

(** * What the matcher reads *)

(** [st'] is [st] after reading [consumed]. *)
Definition reads (st st' : mstate) : Prop :=
  exists consumed,
    rest st = consumed ++ rest st' /\ seen st' = rev consumed ++ seen st.

(** * The clock, as a calendar gives it *)

(** A reading of the clock whose year has four digits; the other fields are
    in the ranges every [Date] keeps them in. *)
Definition fourDigitYear (now : Date) : bool :=
  ((1000 <=? getFullYear now)%Z && (getFullYear now <=? 9999)%Z
   && (getMonth now <=? 11)%N
   && (1 <=? getDate now)%N && (getDate now <=? 31)%N
   && (getHours now <=? 23)%N && (getMinutes now <=? 59)%N)%bool.

(** The date and the time of day of a reading, as the clock writes them. *)
Definition dateOf (now : Date) : str :=
  stringOfZ (getFullYear now) ++ lit "-" ++
  padStart2 (stringOfN (getMonth now + 1)) ++ lit "-" ++
  padStart2 (stringOfN (getDate now)).

Definition minuteOf (now : Date) : str :=
  padStart2 (stringOfN (getHours now)) ++ lit ":" ++
  padStart2 (stringOfN (getMinutes now)).

(** The [To] timestamp the extractor reads back from a logged reading. *)
Definition stampOf (now : Date) : str :=
  dateOf now ++ lit " " ++ minuteOf now ++ lit ":00".

(** * Reading a CSV text back *)

(** A reader for the CSV text the plugin writes: records end at a line
    feed, fields at a comma; a field that opens with a double quote runs to
    the closing one, a doubled double quote inside standing for one.  [cur]
    is the field being read, reversed; [fields] the fields of the record
    read so far, last first. *)
Inductive csvMode : Type :=
| Plain    (* outside quotes *)
| Quoted   (* inside quotes *)
| Closed.  (* inside quotes, right after a double quote *)

Fixpoint readCsv (mode : csvMode) (cur : str) (fields : list str) (s : str)
  : list (list str) :=
  match s with
  | [] => [rev (rev cur :: fields)]
  | c :: s' =>
      match mode with
      | Quoted =>
          if N.eqb c DQUOTE then readCsv Closed cur fields s'
          else readCsv Quoted (c :: cur) fields s'
      | _ =>
          if N.eqb c DQUOTE then
            match mode, cur with
            | Plain, _ :: _ => readCsv Plain (c :: cur) fields s'
            | Plain, [] => readCsv Quoted [] fields s'
            | _, _ => readCsv Quoted (c :: cur) fields s'
            end
          else if chr_is "," c then readCsv Plain [] (rev cur :: fields) s'
          else if N.eqb c LF
               then rev (rev cur :: fields) :: readCsv Plain [] [] s'
               else readCsv Plain (c :: cur) fields s'
      end
  end.

Definition parseCsv (s : str) : list (list str) := readCsv Plain [] [] s.

(** What ends a field: the end of the text, a comma or a line feed. *)
Definition fieldEnd (rest : str) : bool :=
  match rest with
  | [] => true
  | c :: _ => (chr_is "," c || N.eqb c LF)%bool
  end.

(** The reader after a field [v] has been read. *)
Definition afterField (v : str) (fields : list str) (rest : str)
  : list (list str) :=
  match rest with
  | [] => [rev (v :: fields)]
  | c :: r =>
      if chr_is "," c then readCsv Plain [] (v :: fields) r
      else rev (v :: fields) :: readCsv Plain [] [] r
  end.

(** What ends a record: the end of the text or a line feed. *)
Definition recordEnd (rest : str) : bool :=
  match rest with
  | [] => true
  | c :: _ => N.eqb c LF
  end.

(** The reader after the record [cols] has been read. *)
Definition afterRecord (cols : list str) (rest : str) : list (list str) :=
  match rest with
  | [] => [cols]
  | _ :: r => cols :: readCsv Plain [] [] r
  end.

(** * Dollar signs *)

(** A text without a dollar sign. *)
Definition noDollar (s : str) : bool :=
  forallb (fun c => negb (chr_is "$" c)) s.

(** * Traces of the export *)

(** A write of the CSV text, asked of the host. *)
Definition isWrite (e : event) : bool :=
  match e with
  | Called c _ =>
      match c with
      | WriteFile _ _ | VaultModify _ _ | VaultCreate _ _ => true
      | _ => false
      end
  | Shown _ => false
  end.

(** A write of [data] to [p] that went through. *)
Definition wrote (p data : str) (e : event) : bool :=
  match e with
  | Called c (Some _) =>
      match c with
      | WriteFile q d | VaultModify q d | VaultCreate q d =>
          (str_eqb q p && str_eqb d data)%bool
      | _ => false
      end
  | _ => false
  end.

(** The notices of a trace, in order. *)
Fixpoint notices (tr : list event) : list str :=
  match tr with
  | [] => []
  | Shown (NewNotice text) :: tr' => text :: notices tr'
  | _ :: tr' => notices tr'
  end.

(** The reads of the files [files], each returning its content. *)
Definition readEvents (files : list TFile) : list event :=
  map (fun f => Called (VaultRead (path f)) (Some (content f))) files.

(** What holds of every run of [writeCsvToVault]. *)
Definition writeCsvPost (filePath csv : str) (tr : list event)
  (out : option str) : Prop :=
  length (filter isWrite tr) <= 1 /\
  match out with
  | Some p =>
      p = filePath /\
      exists tr0 e, tr = tr0 ++ [e] /\ wrote filePath csv e = true
  | None => forall p d, existsb (wrote p d) tr = false
  end.


(** What holds of every run of the export command: it returns, and it
    shows one notice.  Either the files of the vault were read, the CSV text
    of their rows was written to the path and the notice tells the number
    of rows and the path; or nothing was written and the notice tells of
    the failure. *)
Definition exportPost (localeCompare : str -> str -> Z) (filePath : str)
  (tr : list event) (out : option unit) : Prop :=
  out = Some tt /\
  ((exists files tr',
      let rows := collectTimeLogRows localeCompare files in
      tr = (Called GetMarkdownFiles (Some (map path files))
            :: readEvents files) ++ tr' /\
      notices tr = [exportedNotice rows filePath] /\
      existsb (wrote filePath (createCsvContent rows)) tr' = true)
   \/
   (notices tr = [lit "Failed to export time logs"] /\
    forall p d, existsb (wrote p d) tr = false)).

(** A run of the export on a vault without markdown files, whose CSV file
    is there already. *)
Definition emptyVaultRun : list event :=
  [Called GetMarkdownFiles (Some []);
   Called (IsAbsolute (lit "time-logs.csv")) (Some false);
   Called (GetAbstractFileByPath (lit "time-logs.csv")) (Some (Some IsTFile));
   Called (VaultModify (lit "time-logs.csv") (lit "Task,From,To,File,Line"))
          (Some tt);
   Shown (NewNotice (lit "Time logs exported (0 rows) " ++ [8594%N]
                     ++ lit " time-logs.csv"))].

(** * The checkbox of a task line *)

(** What stands between the brackets of a checkbox: white space, x or X. *)
Definition boxChar (c : char) : bool := (isSpace c || isXx c)%bool.

(** The start of a task line up to the white space after the checkbox:
    leading white space, a dash, a white space character, the brackets
    with [inside] between them, a white space character. *)
Definition boxPrefix (lead : str) (b : char) (inside : str) (f : char) : str :=
  lead ++ N_of_ascii "-" :: b :: N_of_ascii "[" :: inside
  ++ [N_of_ascii "]"; f].

(** The tail of the inline field pattern, after its opening bracket. *)
Definition inlineFieldTail : regex :=
  Star (Cls notBracketNorLF) >> Star (Cls isSpace) >>
  Lit (lit "::") >> Star (Cls isSpace) >> Star (Cls notBracketNorLF) >>
  Chr "]".

(** * Inline fields *)

(** An inline field at the head of a text: an opening bracket, a key
    without brackets or line feeds, white space, two colons, white space,
    a value without brackets or line feeds, a closing bracket. *)
Definition inlineFieldAt (s : str) : Prop :=
  exists k s1 s2 v post,
    s = lit "[" ++ k ++ s1 ++ lit "::" ++ s2 ++ v ++ lit "]" ++ post /\
    forallb notBracketNorLF k = true /\ forallb isSpace s1 = true /\
    forallb isSpace s2 = true /\ forallb notBracketNorLF v = true.

(** * Properties of the matcher *)

Section MatcherFacts.

(** A pattern that starts with [^] matches at the start of the text or
    nowhere. *)
Lemma exec_from_Bol (r : regex) (rs sn : str) :
  sn <> [] -> exec_from (Bol >> r) sn rs = None.
Proof.
  revert sn; induction rs as [|c rs IH]; intros sn Hsn;
    destruct sn as [|a sn]; try contradiction; simpl.
  - reflexivity.
  - unfold match_here; simpl. apply IH. discriminate.
Qed.

Lemma exec_Bol (r : regex) (s : str) :
  exec (Bol >> r) s = match_here (Bol >> r) [] s.
Proof.
  unfold exec. destruct s as [|c s]; simpl.
  - destruct (match_here (Bol >> r) [] []); reflexivity.
  - destruct (match_here (Bol >> r) [] (c :: s)); [reflexivity|].
    apply exec_from_Bol. discriminate.
Qed.

(** The quantifier loops over a single class unfold one character at a
    time: the bound is exactly the number of characters left. *)
Lemma ltb_succ (n : nat) : Nat.ltb n (S n) = true.
Proof. apply Nat.ltb_lt. lia. Qed.

(** The quantifier loops over a single class unfold one character at a
    time: the bound is exactly the number of characters left. *)
Lemma run_Star_Cls_cons (p : char -> bool) (sn : str) (c : char)
  (rs : str) (cs : list str) :
  run (Star (Cls p)) (MState sn (c :: rs) cs) =
  (if p c then run (Star (Cls p)) (MState (c :: sn) rs cs) else [])
  ++ [MState sn (c :: rs) cs].
Proof.
  simpl. destruct (p c); simpl; [|reflexivity].
  rewrite ltb_succ, app_nil_r. reflexivity.
Qed.

Lemma run_StarLazy_Cls_cons (p : char -> bool) (sn : str) (c : char)
  (rs : str) (cs : list str) :
  run (StarLazy (Cls p)) (MState sn (c :: rs) cs) =
  MState sn (c :: rs) cs ::
  (if p c then run (StarLazy (Cls p)) (MState (c :: sn) rs cs) else []).
Proof.
  simpl. destruct (p c); simpl; [|reflexivity].
  rewrite ltb_succ, app_nil_r. reflexivity.
Qed.

End MatcherFacts.

(** * The patterns of the range parser, in closed form *)

Arguments isDigit : simpl never.
Arguments chr_is : simpl never.
Arguments N.eqb : simpl never.
Arguments Nat.sub : simpl never.

Ltac split_if_with tac :=
  match goal with
  | |- context [if ?b then _ else _] =>
      match b with
      | context [if _ then _ else _] => fail 1
      | _ => idtac
      end;
      let E := fresh "E" in destruct b eqn:E; tac
  end.

Ltac tower_base a :=
  match a with
  | S ?a' => tower_base a'
  | _ => a
  end.

Ltac count_S a base :=
  match a with
  | base => constr:(O)
  | S ?a' => let n := count_S a' base in constr:(S n)
  end.

(** [S (S (length t)) - length t] and the like, as numerals. *)
Ltac norm_sub :=
  repeat match goal with
  | |- context [?a - ?b] =>
      let base := tower_base b in
      let na := count_S a base in
      let nb := count_S b base in
      let n := eval compute in (na - nb) in
      replace (a - b) with n by lia
  end; simpl firstn.

Lemma colon_not_dash (c : char) :
  chr_is ":" c = true -> chr_is "-" c = true -> False.
Proof.
  unfold chr_is. intros H1 H2. apply N.eqb_eq in H1, H2. subst c. discriminate.
Qed.

Ltac prune :=
  match goal with
  | H1 : chr_is ":" ?c = true, H2 : chr_is "-" ?c = true |- _ =>
      exfalso; exact (colon_not_dash c H1 H2)
  end.

(** A text of known length: evaluate, then decide the class tests. *)
Ltac shape_known :=
  cbv -[isDigit chr_is];
  repeat split_if_with ltac:(cbv beta iota);
  try reflexivity; try prune.

(** A text with an unknown tail. *)
Ltac shape_long :=
  simpl; unfold andb, orb; repeat split_if_with ltac:(simpl);
  try reflexivity; try prune; norm_sub; try reflexivity.

Lemma run_Seq (r1 r2 : regex) (st : mstate) :
  run (r1 >> r2) st = flat_map (run r2) (run r1 st).
Proof. reflexivity. Qed.

Lemma flat_map_one (A B : Type) (f : A -> list B) (x : A) :
  flat_map f [x] = f x.
Proof. simpl. apply app_nil_r. Qed.

Lemma run_Bol_start (r : regex) (rs : str) (cs : list str) :
  run (Bol >> r) (MState [] rs cs) = run r (MState [] rs cs).
Proof. simpl. apply app_nil_r. Qed.

Lemma match_leadingDate (t : str) :
  exec leadingDateRegex t =
  if isDateText (firstn 10 t)
  then Some (RMatch [] (firstn 10 t) (skipn 10 t) [firstn 10 t])
  else None.
Proof.
  unfold leadingDateRegex. rewrite exec_Bol.
  unfold match_here, datePattern, Chr, isDateText, dateShape.
  do 10 (destruct t as [|? t]; [shape_known|]).
  shape_long.
Qed.

Lemma run_timeGroup (sn rs : str) (cs : list str) :
  run (Group timePattern) (MState sn rs cs) = timeStates sn rs cs.
Proof.
  unfold timePattern, Chr, timeStates, longTimeShape, shortTimeShape.
  do 8 (destruct rs as [|? rs]; [shape_known|]).
  shape_long.
Qed.

Lemma run_toOnly_tail (sn rs : str) (cs : list str) :
  run (Chr "-" >> Group timePattern >> Eol) (MState sn rs cs) =
  match toOnlyShape rs with
  | Some t => [MState (rev rs ++ sn) [] (cs ++ [t])]
  | None => []
  end.
Proof.
  unfold timePattern, Chr, toOnlyShape, isTimeText, longTimeShape,
    shortTimeShape.
  do 10 (destruct rs as [|? rs]; [shape_known|]).
  shape_long.
Qed.

Lemma exec_toOnly (rest : str) :
  exec toOnlyRegex rest =
  option_map (fun t => RMatch [] rest [] [t]) (toOnlyShape rest).
Proof.
  unfold toOnlyRegex. rewrite exec_Bol. unfold match_here.
  rewrite run_Bol_start, run_toOnly_tail. destruct (toOnlyShape rest); simpl; [|reflexivity].
  rewrite Nat.sub_0_r, firstn_all. reflexivity.
Qed.

Lemma exec_fromOnly (rest : str) :
  exec fromOnlyRegex rest =
  option_map (fun t => RMatch [] rest [] [t]) (fromOnlyShape rest).
Proof.
  unfold fromOnlyRegex. rewrite exec_Bol.
  unfold match_here, timePattern, Chr, fromOnlyShape, timePrefix,
    longTimeShape, shortTimeShape.
  do 10 (destruct rest as [|? rest]; [shape_known|]).
  shape_long.
Qed.

Lemma exec_single (rest : str) :
  exec singleRegex rest =
  option_map (fun t => RMatch [] rest [] [t]) (bareShape rest).
Proof.
  unfold singleRegex. rewrite exec_Bol.
  unfold match_here, timePattern, Chr, bareShape, isTimeText,
    longTimeShape, shortTimeShape.
  do 9 (destruct rest as [|? rest]; [shape_known|]).
  shape_long.
Qed.

Lemma long_time_then_colon (rs : str) :
  hasShape longTimeShape (firstn 8 rs) = true ->
  toOnlyShape (skipn 5 rs) = None.
Proof.
  unfold longTimeShape, shortTimeShape, toOnlyShape.
  do 8 (destruct rs as [|? rs]; [shape_known; discriminate|]).
  simpl. unfold andb. repeat split_if_with ltac:(simpl); try reflexivity;
    try discriminate; try prune.
Qed.

Lemma rangeShape_eq (rs : str) :
  rangeShape rs =
  match timePrefix rs with
  | Some (t1, r) => option_map (pair t1) (toOnlyShape r)
  | None => None
  end.
Proof.
  unfold rangeShape. destruct (timePrefix rs) as [[t1 [|c t2]]|]; simpl;
    try reflexivity.
  destruct (chr_is "-" c && isTimeText t2)%bool; reflexivity.
Qed.

Lemma exec_range (rs : str) :
  exec rangeRegex rs =
  option_map (fun t => RMatch [] rs [] [fst t; snd t]) (rangeShape rs).
Proof.
  unfold rangeRegex. rewrite exec_Bol. unfold match_here.
  rewrite run_Bol_start, run_Seq, run_timeGroup, rangeShape_eq.
  unfold timeStates, timePrefix.
  destruct (hasShape longTimeShape (firstn 8 rs)) eqn:E8.
  - rewrite flat_map_app, flat_map_one, run_toOnly_tail.
    destruct (toOnlyShape (skipn 8 rs)) as [t|]; cbn [app option_map].
    + cbn [rest caps length fst snd]. rewrite Nat.sub_0_r, firstn_all.
      reflexivity.
    + destruct (hasShape shortTimeShape (firstn 5 rs));
        [|reflexivity].
      rewrite flat_map_one, run_toOnly_tail,
        (long_time_then_colon rs E8). reflexivity.
  - cbn [app]. destruct (hasShape shortTimeShape (firstn 5 rs));
      [|reflexivity].
    rewrite flat_map_one, run_toOnly_tail.
    destruct (toOnlyShape (skipn 5 rs)) as [t|]; [|reflexivity].
    cbn [option_map rest caps length fst snd app].
    rewrite Nat.sub_0_r, firstn_all. reflexivity.
Qed.

(** * The range parser *)

Lemma hasShape_length (ps : list (char -> bool)) (s : str) :
  hasShape ps s = true -> length s = length ps.
Proof.
  revert s; induction ps as [|p ps IH]; intros [|c s]; simpl;
    try discriminate; try reflexivity.
  destruct (p c); [|discriminate]. intros H. f_equal. apply IH, H.
Qed.

(** What each shape recogniser recognises. *)
Lemma timePrefix_Some (s t r : str) :
  timePrefix s = Some (t, r) -> s = t ++ r /\ isTimeText t = true.
Proof.
  unfold timePrefix, isTimeText.
  destruct (hasShape longTimeShape (firstn 8 s)) eqn:E8.
  - intros H.
    assert (t = firstn 8 s /\ r = skipn 8 s) as [-> ->]
      by (split; congruence).
    rewrite firstn_skipn, E8. auto.
  - destruct (hasShape shortTimeShape (firstn 5 s)) eqn:E5; [|discriminate].
    intros H.
    assert (t = firstn 5 s /\ r = skipn 5 s) as [-> ->]
      by (split; congruence).
    rewrite firstn_skipn, E5.
    split; [reflexivity|apply orb_true_r].
Qed.

Lemma hasShape_app (ps qs : list (char -> bool)) (a b : str) :
  length a = length ps ->
  hasShape (ps ++ qs) (a ++ b) = (hasShape ps a && hasShape qs b)%bool.
Proof.
  revert a; induction ps as [|p ps IH]; intros [|c a] L; simpl in *;
    try discriminate; try reflexivity.
  destruct (p c); [|reflexivity]. apply IH. lia.
Qed.

Lemma firstn_app_exact (A : Type) (a b : list A) (n : nat) :
  length a = n -> firstn n (a ++ b) = a.
Proof.
  intros <-. rewrite firstn_app, firstn_all, Nat.sub_diag. simpl.
  apply app_nil_r.
Qed.

Lemma skipn_app_exact (A : Type) (a b : list A) (n : nat) :
  length a = n -> skipn n (a ++ b) = b.
Proof.
  intros <-. rewrite skipn_app, skipn_all, Nat.sub_diag. reflexivity.
Qed.

Lemma timePrefix_app (t r : str) :
  isTimeText t = true ->
  (forall c r', r = c :: r' -> chr_is ":" c = false) ->
  timePrefix (t ++ r) = Some (t, r).
Proof.
  unfold timePrefix, isTimeText. intros Ht Hr.
  apply orb_true_iff in Ht. destruct Ht as [Ht|Ht].
  - pose proof (hasShape_length _ _ Ht : length t = 8) as L.
    rewrite (firstn_app_exact t r L), (skipn_app_exact t r L), Ht.
    reflexivity.
  - pose proof (hasShape_length _ _ Ht : length t = 5) as L.
    assert (hasShape longTimeShape (firstn 8 (t ++ r)) = false) as ->.
    { rewrite firstn_app, L. simpl (8 - _).
      rewrite (firstn_all2 (n := 8)) by (rewrite L; simpl; lia).
      unfold longTimeShape. rewrite hasShape_app by exact L.
      rewrite Ht. simpl. destruct r as [|c r]; [reflexivity|].
      simpl. rewrite (Hr c r eq_refl). reflexivity. }
    rewrite (firstn_app_exact t r L), (skipn_app_exact t r L), Ht.
    reflexivity.
Qed.

Lemma toOnlyShape_iff (rs t : str) :
  toOnlyShape rs = Some t <-> rs = lit "-" ++ t /\ isTimeText t = true.
Proof.
  unfold toOnlyShape. split.
  - destruct rs as [|c rs]; [discriminate|].
    destruct (chr_is "-" c) eqn:Ec; simpl; [|discriminate].
    destruct (isTimeText rs) eqn:Et; [|discriminate].
    intros [= <-]. apply N.eqb_eq in Ec. subst c. auto.
  - intros [-> Ht]. simpl. rewrite Ht. reflexivity.
Qed.

Lemma fromOnlyShape_iff (rs t : str) :
  fromOnlyShape rs = Some t <-> rs = t ++ lit "-" /\ isTimeText t = true.
Proof.
  unfold fromOnlyShape. split.
  - destruct (timePrefix rs) as [[t' [|c [|? ?]]]|] eqn:E; try discriminate.
    destruct (chr_is "-" c) eqn:Ec; [|discriminate].
    intros [= <-]. apply timePrefix_Some in E. destruct E as [-> Ht].
    apply N.eqb_eq in Ec. subst c. auto.
  - intros [-> Ht]. rewrite timePrefix_app; [reflexivity|exact Ht|].
    intros c r' [= <- <-]. reflexivity.
Qed.

Lemma rangeShape_iff (rs t1 t2 : str) :
  rangeShape rs = Some (t1, t2) <->
  rs = t1 ++ lit "-" ++ t2 /\ isTimeText t1 = true /\ isTimeText t2 = true.
Proof.
  unfold rangeShape. split.
  - destruct (timePrefix rs) as [[t' [|c r]]|] eqn:E; try discriminate.
    destruct (chr_is "-" c) eqn:Ec; simpl; [|discriminate].
    destruct (isTimeText r) eqn:Er; [|discriminate].
    intros [= <- <-]. apply timePrefix_Some in E. destruct E as [-> Ht].
    apply N.eqb_eq in Ec. subst c. auto.
  - intros (-> & H1 & H2). rewrite timePrefix_app.
    + simpl. rewrite H2. reflexivity.
    + exact H1.
    + intros c r' [= <- <-]. reflexivity.
Qed.

Lemma bareShape_iff (rs t : str) :
  bareShape rs = Some t <-> rs = t /\ isTimeText t = true.
Proof.
  unfold bareShape. split.
  - destruct (isTimeText rs) eqn:E; [|discriminate]. intros [= <-]. auto.
  - intros [-> Ht]. rewrite Ht. reflexivity.
Qed.

Lemma ensureSeconds_withSeconds (t : str) :
  isTimeText t = true -> ensureSeconds t = withSeconds t.
Proof.
  unfold isTimeText, ensureSeconds, withSeconds. intros Ht.
  destruct (hasShape shortTimeShape t) eqn:Es.
  - rewrite (hasShape_length _ _ Es : length t = 5). reflexivity.
  - rewrite orb_false_r in Ht.
    rewrite (hasShape_length _ _ Ht : length t = 8). reflexivity.
Qed.

Lemma isTimestamp_timestampOf (d t : str) :
  isDateText d = true -> isTimeText t = true ->
  isTimestamp (timestampOf d t) = true.
Proof.
  unfold isDateText, isTimeText, isTimestamp, timestampOf, timestampShape.
  intros Hd Ht.
  rewrite hasShape_app by (apply hasShape_length, Hd). rewrite Hd.
  rewrite (hasShape_app [chr_is " "] longTimeShape (lit " ")) by reflexivity.
  change (hasShape [chr_is " "] (lit " ")) with true. cbn [andb].
  unfold withSeconds. destruct (hasShape shortTimeShape t) eqn:Es.
  - unfold longTimeShape. rewrite hasShape_app by (apply hasShape_length, Es).
    rewrite Es. reflexivity.
  - rewrite orb_false_r in Ht. exact Ht.
Qed.
Lemma group_1 (a b c x : str) (l : list str) :
  group 1 (RMatch a b c (x :: l)) = x.
Proof. reflexivity. Qed.

Lemma group_2 (a b c x y : str) (l : list str) :
  group 2 (RMatch a b c (x :: y :: l)) = y.
Proof. reflexivity. Qed.

(** The parser of the source and the parser of the specification agree on
    every text. *)
Lemma parseFromTo_parseSpec (s : str) : parseFromTo s = parseSpec s.
Proof.
  unfold parseFromTo, parseSpec. rewrite match_leadingDate.
  destruct (isDateText (firstn 10 (trim s))) eqn:Ed; [|reflexivity].
  cbn [negb]. rewrite group_1.
  rewrite (hasShape_length _ _ Ed : length (firstn 10 (trim s)) = 10).
  set (date := firstn 10 (trim s)). set (rs := trim (skipn 10 (trim s))).
  rewrite exec_toOnly.
  destruct (toOnlyShape rs) as [t|] eqn:E1; cbn [option_map].
  { apply toOnlyShape_iff in E1. destruct E1 as [_ Ht].
    rewrite group_1. rewrite (ensureSeconds_withSeconds _ Ht). reflexivity. }
  rewrite exec_fromOnly.
  destruct (fromOnlyShape rs) as [t|] eqn:E2; cbn [option_map].
  { apply fromOnlyShape_iff in E2. destruct E2 as [_ Ht].
    rewrite group_1. rewrite (ensureSeconds_withSeconds _ Ht). reflexivity. }
  rewrite exec_range.
  destruct (rangeShape rs) as [[t1 t2]|] eqn:E3; cbn [option_map].
  { apply rangeShape_iff in E3. destruct E3 as (_ & H1 & H2).
    cbn [fst snd]. rewrite group_1, group_2.
    rewrite (ensureSeconds_withSeconds _ H1), (ensureSeconds_withSeconds _ H2).
    reflexivity. }
  rewrite exec_single.
  destruct (bareShape rs) as [t|] eqn:E4; cbn [option_map]; [|reflexivity].
  apply bareShape_iff in E4. destruct E4 as [_ Ht].
  rewrite group_1. rewrite (ensureSeconds_withSeconds _ Ht). reflexivity.
Qed.

(** Every field the specification's parser produces is empty or a
    timestamp. *)
Lemma parseSpec_fields (s : str) :
  (ft_from (parseSpec s) = [] \/ isTimestamp (ft_from (parseSpec s)) = true)
  /\ (ft_to (parseSpec s) = [] \/ isTimestamp (ft_to (parseSpec s)) = true).
Proof.
  unfold parseSpec.
  destruct (isDateText (firstn 10 (trim s))) eqn:Ed; cbn [negb];
    [|split; left; reflexivity].
  set (date := firstn 10 (trim s)) in *.
  set (rs := trim (skipn 10 (trim s))).
  destruct (toOnlyShape rs) as [t|] eqn:E1.
  { apply toOnlyShape_iff in E1. destruct E1 as [_ Ht]. split;
      [left; reflexivity|right; apply isTimestamp_timestampOf; assumption]. }
  destruct (fromOnlyShape rs) as [t|] eqn:E2.
  { apply fromOnlyShape_iff in E2. destruct E2 as [_ Ht]. split;
      [right; apply isTimestamp_timestampOf; assumption|left; reflexivity]. }
  destruct (rangeShape rs) as [[t1 t2]|] eqn:E3.
  { apply rangeShape_iff in E3. destruct E3 as (_ & H1 & H2). split;
      right; apply isTimestamp_timestampOf; assumption. }
  destruct (bareShape rs) as [t|] eqn:E4; [|split; left; reflexivity].
  apply bareShape_iff in E4. destruct E4 as [_ Ht]. split;
    [left; reflexivity|right; apply isTimestamp_timestampOf; assumption].
Qed.

Lemma parseFromTo_fields (s : str) :
  (ft_from (parseFromTo s) = [] \/
   isTimestamp (ft_from (parseFromTo s)) = true)
  /\ (ft_to (parseFromTo s) = [] \/
      isTimestamp (ft_to (parseFromTo s)) = true).
Proof. rewrite parseFromTo_parseSpec. apply parseSpec_fields. Qed.
Lemma digit_not_dash (c : char) : isDigit c = true -> chr_is "-" c = false.
Proof.
  unfold isDigit, in_range, chr_is. intros H.
  apply andb_true_iff in H. destruct H as [H1 H2].
  apply N.leb_le in H1. apply N.eqb_neq. intros <-. simpl in H1. lia.
Qed.

Lemma isTimeText_head (t : str) :
  isTimeText t = true ->
  exists c t', t = c :: t' /\ isDigit c = true /\ t' <> [].
Proof.
  unfold isTimeText, longTimeShape, shortTimeShape. intros H.
  destruct t as [|c [|c' t']]; try discriminate H.
  - simpl in H. destruct (isDigit c); discriminate H.
  - exists c, (c' :: t'). split; [reflexivity|]. split; [|discriminate].
    simpl in H. destruct (isDigit c); [reflexivity|discriminate H].
Qed.

Lemma toOnlyShape_time (t r : str) :
  isTimeText t = true -> toOnlyShape (t ++ r) = None.
Proof.
  intros Ht. destruct (isTimeText_head _ Ht) as (c & t' & -> & Hc & _).
  simpl. rewrite (digit_not_dash _ Hc). reflexivity.
Qed.

(** C2: the range parser is the parser of the specification.  No leading
    date (after trimming) gives both fields empty; otherwise the trimmed
    remainder decides: a dash and a time is to-only, a time and a dash is
    from-only, two times around a dash is a range, a bare time is to-only,
    anything else gives both fields empty; each timestamp is the date, a
    space and the time, with seconds 00 when the time has none. *)
Theorem parseFromTo_shapes (s : str) :
  let date := firstn 10 (trim s) in
  let remainder := trim (skipn 10 (trim s)) in
  parseFromTo s = parseSpec s /\
  (isDateText date = false -> parseFromTo s = MkFromTo [] []) /\
  (isDateText date = true ->
   (forall t, isTimeText t = true -> remainder = lit "-" ++ t ->
      parseFromTo s = MkFromTo [] (date ++ lit " " ++ withSeconds t)) /\
   (forall t, isTimeText t = true -> remainder = t ++ lit "-" ->
      parseFromTo s = MkFromTo (date ++ lit " " ++ withSeconds t) []) /\
   (forall t1 t2, isTimeText t1 = true -> isTimeText t2 = true ->
      remainder = t1 ++ lit "-" ++ t2 ->
      parseFromTo s = MkFromTo (date ++ lit " " ++ withSeconds t1)
                               (date ++ lit " " ++ withSeconds t2)) /\
   (forall t, isTimeText t = true -> remainder = t ->
      parseFromTo s = MkFromTo [] (date ++ lit " " ++ withSeconds t)) /\
   ((forall t, isTimeText t = true ->
       remainder <> lit "-" ++ t /\ remainder <> t ++ lit "-" /\
       remainder <> t /\
       forall t2, isTimeText t2 = true -> remainder <> t ++ lit "-" ++ t2) ->
    parseFromTo s = MkFromTo [] [])).
Proof.
  intros date remainder. split; [apply parseFromTo_parseSpec|].
  rewrite parseFromTo_parseSpec. unfold parseSpec.
  fold date. fold remainder.
  split; [intros ->; reflexivity|]. intros ->. cbn [negb].
  split; [|split; [|split; [|split]]].
  - intros t Ht ->.
    rewrite (proj2 (toOnlyShape_iff (lit "-" ++ t) t) (conj eq_refl Ht)).
    reflexivity.
  - intros t Ht ->. rewrite (toOnlyShape_time _ _ Ht).
    rewrite (proj2 (fromOnlyShape_iff (t ++ lit "-") t) (conj eq_refl Ht)).
    reflexivity.
  - intros t1 t2 H1 H2 ->. rewrite (toOnlyShape_time _ _ H1).
    destruct (fromOnlyShape (t1 ++ lit "-" ++ t2)) as [t|] eqn:E.
    { exfalso. apply fromOnlyShape_iff in E. destruct E as [E Ht].
      unfold fromOnlyShape in *.
      destruct (isTimeText_head _ H2) as (c & t' & -> & _ & Hne).
      assert (timePrefix (t1 ++ lit "-" ++ c :: t')
              = Some (t1, lit "-" ++ c :: t')) as Hp.
      { apply timePrefix_app; [exact H1|]. intros ? ? [= <- <-]. reflexivity. }
      assert (timePrefix (t ++ lit "-") = Some (t, lit "-")) as Hq.
      { apply timePrefix_app; [exact Ht|]. intros ? ? [= <- <-]. reflexivity. }
      rewrite E in Hp. rewrite Hp in Hq. inversion Hq. }
    rewrite (proj2 (rangeShape_iff (t1 ++ lit "-" ++ t2) t1 t2)
               (conj eq_refl (conj H1 H2))).
    reflexivity.
  - intros t Ht ->.
    assert (toOnlyShape t = None) as ->
      by (rewrite <- (app_nil_r t); apply toOnlyShape_time, Ht).
    assert (timePrefix t = Some (t, [])) as Hp.
    { rewrite <- (app_nil_r t) at 1. apply timePrefix_app;
        [exact Ht|discriminate]. }
    unfold fromOnlyShape, rangeShape. rewrite Hp.
    rewrite (proj2 (bareShape_iff t t) (conj eq_refl Ht)). reflexivity.
  - intros Hno.
    destruct (toOnlyShape remainder) as [t|] eqn:E1.
    { apply toOnlyShape_iff in E1. destruct E1 as [E Ht].
      exfalso. exact (proj1 (Hno t Ht) E). }
    destruct (fromOnlyShape remainder) as [t|] eqn:E2.
    { apply fromOnlyShape_iff in E2. destruct E2 as [E Ht].
      exfalso. exact (proj1 (proj2 (Hno t Ht)) E). }
    destruct (rangeShape remainder) as [[t1 t2]|] eqn:E3.
    { apply rangeShape_iff in E3. destruct E3 as (E & H1 & H2).
      exfalso. exact (proj2 (proj2 (proj2 (Hno t1 H1))) t2 H2 E). }
    destruct (bareShape remainder) as [t|] eqn:E4; [|reflexivity].
    apply bareShape_iff in E4. destruct E4 as [E Ht].
    exfalso. exact (proj1 (proj2 (proj2 (Hno t Ht))) E).
Qed.

Lemma parseFromTo_shapes_witness :
  parseFromTo (lit " 2025-08-28 09:00-10:30 ") =
  MkFromTo (lit "2025-08-28 09:00:00") (lit "2025-08-28 10:30:00").
Proof.
  destruct (parseFromTo_shapes (lit " 2025-08-28 09:00-10:30 "))
    as (_ & _ & H).
  destruct (H eq_refl) as (_ & _ & Hr & _).
  exact (Hr (lit "09:00") (lit "10:30") eq_refl eq_refl eq_refl).
Defined.

(** C8: the range parser is total, and each field of its result is either
    empty or a [YYYY-MM-DD HH:MM:SS] timestamp of nineteen characters.  The
    patterns of the parser have no unbounded quantifier, so the matcher runs
    no loop here. *)
Theorem parseFromTo_total (s : str) :
  exists r : FromTo,
    parseFromTo s = r /\
    (ft_from r = [] \/
     (isTimestamp (ft_from r) = true /\ length (ft_from r) = 19)) /\
    (ft_to r = [] \/
     (isTimestamp (ft_to r) = true /\ length (ft_to r) = 19)).
Proof.
  exists (parseFromTo s). split; [reflexivity|].
  destruct (parseFromTo_fields s) as [[Hf|Hf] [Ht|Ht]]; split; auto;
    right; split; auto;
    apply (hasShape_length timestampShape); assumption.
Qed.

(** * The order of strings *)

Lemma strCompare_refl (a : str) : strCompare a a = Eq.
Proof.
  induction a as [|x a IH]; simpl; [reflexivity|].
  rewrite N.compare_refl. exact IH.
Qed.

Lemma strCompare_eq (a b : str) : strCompare a b = Eq -> a = b.
Proof.
  revert b; induction a as [|x a IH]; intros [|y b]; simpl;
    try discriminate; try reflexivity.
  destruct (N.compare x y) eqn:E; try discriminate.
  apply N.compare_eq in E. intros H. f_equal; [exact E|apply IH, H].
Qed.

Lemma strCompare_antisym (a b : str) :
  strCompare b a = CompOpp (strCompare a b).
Proof.
  revert b; induction a as [|x a IH]; intros [|y b]; simpl;
    try reflexivity.
  rewrite (N.compare_antisym x y).
  destruct (N.compare x y); simpl; auto.
Qed.

Lemma strLe_trans (a b c : str) : strLe a b -> strLe b c -> strLe a c.
Proof.
  unfold strLe. revert b c; induction a as [|x a IH]; intros [|y b] [|z c];
    simpl; try congruence.
  destruct (N.compare x y) eqn:Exy; try congruence.
  - apply N.compare_eq in Exy. subst y.
    destruct (N.compare x z); try congruence. apply IH.
  - intros _. destruct (N.compare y z) eqn:Eyz; try congruence.
    + apply N.compare_eq in Eyz. subst z. rewrite Exy. congruence.
    + intros _. rewrite N.compare_lt_iff in Exy, Eyz.
      assert (x < z)%N as H by lia. apply N.compare_lt_iff in H.
      rewrite H. congruence.
Qed.

Lemma str_eqb_eq (a b : str) : str_eqb a b = true <-> a = b.
Proof.
  unfold str_eqb. destruct (list_eq_dec N.eq_dec a b); split; auto;
    discriminate.
Qed.

(** * The stable sort *)

Section SortFacts.
Variable A : Type.
Variable cmp : A -> A -> Z.

Lemma insertSorted_perm (x : A) (l : list A) :
  Permutation (insertSorted cmp x l) (x :: l).
Proof.
  induction l as [|y l IH]; simpl; [reflexivity|].
  destruct (Z.ltb 0 (cmp x y)); [|reflexivity].
  rewrite IH. apply perm_swap.
Qed.

Lemma sortBy_perm (l : list A) : Permutation (sortBy cmp l) l.
Proof.
  induction l as [|x l IH]; simpl; [reflexivity|].
  rewrite insertSorted_perm. constructor. exact IH.
Qed.

Lemma sortBy_In (l : list A) (x : A) : In x (sortBy cmp l) <-> In x l.
Proof.
  split; apply Permutation_in;
    [apply sortBy_perm|symmetry; apply sortBy_perm].
Qed.

(** The comparator agrees, on the elements of interest, with an order
    [le] that is total and transitive; elements that compare greater are
    told apart by [same]. *)
Variable dom : A -> Prop.
Variable le : A -> A -> Prop.
Hypothesis le_trans : forall a b c, le a b -> le b c -> le a c.
Hypothesis cmp_gt :
  forall a b, dom a -> dom b -> Z.ltb 0 (cmp a b) = true -> le b a.
Hypothesis cmp_le :
  forall a b, dom a -> dom b -> Z.ltb 0 (cmp a b) = false -> le a b.

Lemma insertSorted_sorted (x : A) (l : list A) :
  dom x -> Forall dom l ->
  StronglySorted le l -> StronglySorted le (insertSorted cmp x l).
Proof.
  intros Hx Hd Hs. induction Hs as [|y l Hs IH Hy]; simpl.
  - constructor; constructor.
  - inversion Hd as [|? ? Hdy Hdl]; subst.
    destruct (Z.ltb 0 (cmp x y)) eqn:E.
    + constructor; [apply IH, Hdl|].
      eapply Permutation_Forall; [symmetry; apply insertSorted_perm|].
      constructor; [apply (cmp_gt Hx Hdy E)|exact Hy].
    + pose proof (cmp_le Hx Hdy E) as Hxy.
      constructor; [constructor; assumption|].
      constructor; [exact Hxy|].
      eapply Forall_impl; [|exact Hy].
      intros z Hz. exact (le_trans Hxy Hz).
Qed.

Lemma sortBy_sorted (l : list A) :
  Forall dom l -> StronglySorted le (sortBy cmp l).
Proof.
  induction l as [|x l IH]; intros Hd; simpl; [constructor|].
  inversion Hd; subst.
  apply insertSorted_sorted; auto.
  eapply Permutation_Forall; [symmetry; apply sortBy_perm|]. assumption.
Qed.

(** Stability: an element passes only elements it compares greater than,
    and those are never of its own class. *)
Variable same : A -> bool.
Hypothesis cmp_same :
  forall a b, dom a -> dom b -> Z.ltb 0 (cmp a b) = true ->
              same a = true -> same b = false.

Lemma insertSorted_filter (x : A) (l : list A) :
  dom x -> Forall dom l ->
  filter same (insertSorted cmp x l) = filter same (x :: l).
Proof.
  intros Hx Hd. induction Hd as [|y l Hy Hd IH]; [reflexivity|].
  simpl insertSorted. destruct (Z.ltb 0 (cmp x y)) eqn:E; [|reflexivity].
  simpl. simpl in IH. rewrite IH.
  destruct (same x) eqn:Sx.
  - rewrite (cmp_same Hx Hy E Sx). reflexivity.
  - reflexivity.
Qed.

Lemma sortBy_filter (l : list A) :
  Forall dom l -> filter same (sortBy cmp l) = filter same l.
Proof.
  induction l as [|x l IH]; intros Hd; [reflexivity|].
  inversion Hd; subst. simpl sortBy.
  rewrite insertSorted_filter; auto.
  - simpl. rewrite IH by assumption. reflexivity.
  - eapply Permutation_Forall; [symmetry; apply sortBy_perm|].
    assumption.
Qed.
End SortFacts.

(** * The extractor *)

Lemma rowsOfLine_In (f : str) (i : nat) (ln : str) (r : Row) :
  In r (rowsOfLine f i ln) <->
  exists m entry,
    exec timeLogsRegex ln = Some m /\
    In entry (entriesOf (trim (group 1 m))) /\
    test dateRegex entry = true /\
    r = rowOf f i ln entry.
Proof.
  unfold rowsOfLine. destruct (exec timeLogsRegex ln) as [m|] eqn:Em.
  - destruct (is_empty (trim (group 1 m))) eqn:Ee.
    + destruct (trim (group 1 m)) eqn:Et; [|discriminate Ee].
      split; [intros []|].
      intros (m' & entry & [= <-] & Hin & _). rewrite Et in Hin.
      exact Hin.
    + rewrite in_flat_map. split.
      * intros (entry & Hin & Hr).
        destruct (test dateRegex entry) eqn:Ed; simpl in Hr; [|contradiction].
        destruct Hr as [<-|[]]. exists m, entry. auto.
      * intros (m' & entry & [= <-] & Hin & Hd & ->).
        exists entry. split; [exact Hin|]. rewrite Hd. simpl. left.
        reflexivity.
  - split; [intros []|]. intros (m & entry & H & _). discriminate H.
Qed.

Lemma rowsOfLines_In (f : str) (lines : list str) (i : nat) (r : Row) :
  In r (rowsOfLines f i lines) <->
  exists j ln, nth_error lines j = Some ln /\ In r (rowsOfLine f (i + j) ln).
Proof.
  revert i; induction lines as [|ln lines IH]; intros i; simpl.
  - split; [intros []|]. intros ([|j] & ln & H & _); discriminate H.
  - rewrite in_app_iff, IH. split.
    + intros [H|(j & ln' & Hn & H)].
      * exists 0, ln. rewrite Nat.add_0_r. auto.
      * exists (S j), ln'. rewrite Nat.add_succ_r. auto.
    + intros ([|j] & ln' & Hn & H); simpl in Hn.
      * injection Hn as <-. rewrite Nat.add_0_r in H. auto.
      * right. exists j, ln'. rewrite Nat.add_succ_r in H. auto.
Qed.

(** Every discovered row, and nothing else: one row per entry that passes
    the date pre-filter. *)
Lemma discoveredRows_In (files : list TFile) (r : Row) :
  In r (discoveredRows files) <->
  exists f i ln m entry,
    In f files /\
    nth_error (split lineBreakRegex (content f)) i = Some ln /\
    exec timeLogsRegex ln = Some m /\
    In entry (entriesOf (trim (group 1 m))) /\
    test dateRegex entry = true /\
    r = rowOf (path f) i ln entry.
Proof.
  unfold discoveredRows, rowsOfFile. rewrite in_flat_map. split.
  - intros (f & Hf & H). apply rowsOfLines_In in H.
    destruct H as (j & ln & Hn & H). apply rowsOfLine_In in H.
    destruct H as (m & entry & H). exists f, j, ln, m, entry. tauto.
  - intros (f & i & ln & m & entry & Hf & Hn & H).
    exists f. split; [exact Hf|]. apply rowsOfLines_In.
    exists i, ln. split; [exact Hn|]. apply rowsOfLine_In.
    exists m, entry. exact H.
Qed.

Lemma sortKey_rowOf (f : str) (i : nat) (ln entry : str) :
  isKey (sortKey (rowOf f i ln entry)) = true.
Proof.
  unfold sortKey, rowOf, isKey; cbn [from to].
  destruct (parseFromTo_fields entry) as [Hf Ht].
  destruct (ft_from (parseFromTo entry)) as [|c k] eqn:Ef; cbn [is_empty negb].
  - destruct (ft_to (parseFromTo entry)) as [|c k] eqn:Et;
      cbn [is_empty negb]; [reflexivity|].
    destruct Ht as [Ht|Ht]; [discriminate Ht|]. rewrite Ht. reflexivity.
  - destruct Hf as [Hf|Hf]; [discriminate Hf|]. rewrite Hf. reflexivity.
Qed.

Lemma discoveredRows_keys (files : list TFile) :
  Forall (fun r => isKey (sortKey r) = true) (discoveredRows files).
Proof.
  apply Forall_forall. intros r Hr. apply discoveredRows_In in Hr.
  destruct Hr as (f & i & ln & m & entry & _ & _ & _ & _ & _ & ->).
  apply sortKey_rowOf.
Qed.
Lemma flat_map_filter_one (A B : Type) (p : A -> bool) (g : A -> B)
  (l : list A) :
  flat_map (fun x => if negb (p x) then [] else [g x]) l = map g (filter p l).
Proof.
  induction l as [|x l IH]; [reflexivity|]. cbn [flat_map filter].
  destruct (p x); cbn [negb app map]; rewrite IH; reflexivity.
Qed.

Lemma map_flat_map_list (A B C : Type) (g : B -> C) (h : A -> list B)
  (l : list A) :
  map g (flat_map h l) = flat_map (fun x => map g (h x)) l.
Proof.
  induction l as [|x l IH]; [reflexivity|]. cbn [flat_map].
  rewrite map_app, IH. reflexivity.
Qed.

(** The rows of a line are the rows of its pre-filtered entries, one for
    one. *)
Lemma rowsOfLine_entries (f : TFile) (i : nat) (ln : str) :
  rowsOfLine (path f) i ln
  = map (fun entry => entryRow (f, i, ln, entry)) (prefilteredEntries ln).
Proof.
  unfold rowsOfLine, prefilteredEntries, entryRow.
  destruct (exec timeLogsRegex ln) as [m|]; [|reflexivity].
  destruct (trim (group 1 m)) as [|c t] eqn:E.
  - reflexivity.
  - cbn [is_empty]. apply flat_map_filter_one.
Qed.

Lemma rowsOfLines_entries (f : TFile) (lines : list str) :
  forall i,
  rowsOfLines (path f) i lines
  = flat_map (fun il =>
      map (fun entry => entryRow (f, fst il, snd il, entry))
          (prefilteredEntries (snd il)))
      (numbered i lines).
Proof.
  induction lines as [|ln lines IH]; intros i; [reflexivity|].
  cbn [rowsOfLines numbered flat_map fst snd].
  rewrite rowsOfLine_entries, IH. reflexivity.
Qed.

Lemma discoveredRows_entries (files : list TFile) :
  discoveredRows files = map entryRow (corpusEntries files).
Proof.
  unfold discoveredRows, corpusEntries. rewrite map_flat_map_list.
  apply flat_map_ext. intros f. unfold rowsOfFile.
  rewrite rowsOfLines_entries, map_flat_map_list.
  apply flat_map_ext. intros il. rewrite map_map. reflexivity.
Qed.

Lemma numbered_In (lines : list str) :
  forall i k ln,
  In (k, ln) (numbered i lines) <->
  exists j, k = i + j /\ nth_error lines j = Some ln.
Proof.
  induction lines as [|l lines IH]; intros i k ln; cbn [numbered].
  - split; [intros []|]. intros ([|j] & _ & H); discriminate H.
  - cbn [In]. rewrite IH. split.
    + intros [[= <- <-]|(j & -> & H)].
      * exists 0. rewrite Nat.add_0_r. auto.
      * exists (S j). rewrite Nat.add_succ_r. auto.
    + intros ([|j] & -> & H); cbn [nth_error] in H.
      * injection H as <-. left. rewrite Nat.add_0_r. reflexivity.
      * right. exists j. rewrite Nat.add_succ_r. auto.
Qed.

Lemma corpusEntries_In (files : list TFile) (f : TFile) (i : nat)
  (ln entry : str) :
  In (f, i, ln, entry) (corpusEntries files) <->
  In f files /\
  nth_error (split lineBreakRegex (content f)) i = Some ln /\
  exists m, exec timeLogsRegex ln = Some m /\
            In entry (entriesOf (trim (group 1 m))) /\
            test dateRegex entry = true.
Proof.
  unfold corpusEntries. rewrite in_flat_map. split.
  - intros (f' & Hf & H). apply in_flat_map in H.
    destruct H as ([k l] & Hn & H). apply in_map_iff in H.
    destruct H as (e & [= <- <- <- <-] & He). cbn [fst snd] in *.
    apply numbered_In in Hn. destruct Hn as (j & -> & Hn).
    split; [exact Hf|]. split; [exact Hn|].
    unfold prefilteredEntries in He.
    destruct (exec timeLogsRegex l) as [m|]; [|destruct He].
    apply filter_In in He. exists m. tauto.
  - intros (Hf & Hn & m & Hm & He & Ht). exists f. split; [exact Hf|].
    apply in_flat_map. exists (i, ln). split.
    + apply numbered_In. exists i. auto.
    + apply in_map_iff. exists entry. split; [reflexivity|].
      cbn [snd]. unfold prefilteredEntries. rewrite Hm.
      apply filter_In. auto.
Qed.

(** C1, as the code has it: the rows of the extractor are, up to the order
    the sort puts them in, the rows of the entries that pass the date
    pre-filter: one row for every such entry, as many times as the entry
    stands in its marker, each with the fields the range parser returns
    for it.  Before the sort they are these rows in document, line and
    entry order.  Nothing is dropped after the pre-filter, so an entry the
    parser does not understand still gives a row, with both fields
    empty. *)
Theorem collect_rows_are_prefiltered_entries
  (localeCompare : str -> str -> Z) (files : list TFile) :
  Permutation (collectTimeLogRows localeCompare files)
              (map entryRow (corpusEntries files)) /\
  length (collectTimeLogRows localeCompare files)
    = length (corpusEntries files) /\
  discoveredRows files = map entryRow (corpusEntries files) /\
  (forall f i ln entry,
     In (f, i, ln, entry) (corpusEntries files) <->
     In f files /\
     nth_error (split lineBreakRegex (content f)) i = Some ln /\
     exists m, exec timeLogsRegex ln = Some m /\
               In entry (entriesOf (trim (group 1 m))) /\
               test dateRegex entry = true) /\
  (forall r,
     In r (collectTimeLogRows localeCompare files) <->
     exists f i ln m entry,
       In f files /\
       nth_error (split lineBreakRegex (content f)) i = Some ln /\
       exec timeLogsRegex ln = Some m /\
       In entry (entriesOf (trim (group 1 m))) /\
       test dateRegex entry = true /\
       r = MkRow
             (normalizeTaskText
                (trim (replace timeLogsRegex (fun _ => []) ln)))
             (ft_from (parseFromTo entry)) (ft_to (parseFromTo entry))
             (path f) (i + 1)).
Proof.
  assert (HP : Permutation (collectTimeLogRows localeCompare files)
                 (map entryRow (corpusEntries files))).
  { unfold collectTimeLogRows. rewrite <- discoveredRows_entries.
    apply sortBy_perm. }
  split; [exact HP|]. split.
  - rewrite (Permutation_length HP). apply length_map.
  - split; [apply discoveredRows_entries|]. split.
    + intros f i ln entry. apply corpusEntries_In.
    + intros r. unfold collectTimeLogRows. rewrite sortBy_In.
      apply discoveredRows_In.
Qed.

Lemma collect_rows_are_prefiltered_entries_witness :
  Permutation
    (collectTimeLogRows codeUnitCompare
       [MkFile (lit "a.md")
          (lit "- [ ] Pay bills [time-logs:: 2025-01-02 -09:00; 2025-01-01; 2025-01-02 -09:00; ]")])
    [MkRow (lit "Pay bills") [] (lit "2025-01-02 09:00:00") (lit "a.md") 1;
     MkRow (lit "Pay bills") [] [] (lit "a.md") 1;
     MkRow (lit "Pay bills") [] (lit "2025-01-02 09:00:00") (lit "a.md") 1].
Proof.
  exact (proj1 (collect_rows_are_prefiltered_entries codeUnitCompare
    [MkFile (lit "a.md")
       (lit "- [ ] Pay bills [time-logs:: 2025-01-02 -09:00; 2025-01-01; 2025-01-02 -09:00; ]")])).
Defined.

(** C1 as stated fails: an entry that is only a date passes the pre-filter,
    the parser returns both fields empty for it, and the row is emitted. *)
Lemma collect_emits_row_without_times :
  test dateRegex (lit "2025-01-01") = true /\
  parseFromTo (lit "2025-01-01") = MkFromTo [] [] /\
  collectTimeLogRows codeUnitCompare
    [MkFile (lit "a.md") (lit "- [ ] Pay bills [time-logs:: 2025-01-01; ]")]
  = [MkRow (lit "Pay bills") [] [] (lit "a.md") 1].
Proof. repeat split; vm_compute; reflexivity. Qed.

Section Ordering.
Variable localeCompare : str -> str -> Z.

(** On sort keys, which are empty or timestamps of one fixed width, the
    collation of the host orders as the code units do. *)
Hypothesis localeCompare_keys :
  forall a b, isKey a = true -> isKey b = true ->
              Z.compare (localeCompare a b) 0 = strCompare a b.

Let keyed (r : Row) : Prop := isKey (sortKey r) = true.
Let keyLe (a b : Row) : Prop := strLe (sortKey a) (sortKey b).

Lemma compareRows_gt (a b : Row) :
  keyed a -> keyed b ->
  Z.ltb 0 (compareRows localeCompare a b) = true -> keyLe b a.
Proof.
  unfold keyed, keyLe, strLe, compareRows. cbv zeta. intros Ha Hb H.
  apply Z.ltb_lt in H.
  assert (Z.compare (localeCompare (sortKey a) (sortKey b)) 0 = Gt) as Hgt
    by (apply Z.compare_gt_iff; exact H).
  rewrite (localeCompare_keys _ _ Ha Hb) in Hgt.
  rewrite strCompare_antisym, Hgt. discriminate.
Qed.

Lemma compareRows_le (a b : Row) :
  keyed a -> keyed b ->
  Z.ltb 0 (compareRows localeCompare a b) = false -> keyLe a b.
Proof.
  unfold keyed, keyLe, strLe, compareRows. cbv zeta. intros Ha Hb H.
  rewrite <- (localeCompare_keys _ _ Ha Hb). intros Hgt.
  apply Z.compare_gt_iff in Hgt. apply Z.ltb_ge in H. lia.
Qed.

Lemma compareRows_same (k : str) (a b : Row) :
  keyed a -> keyed b ->
  Z.ltb 0 (compareRows localeCompare a b) = true ->
  sameKey k a = true -> sameKey k b = false.
Proof.
  unfold keyed, compareRows, sameKey. cbv zeta. intros Ha Hb H Sa.
  apply str_eqb_eq in Sa.
  destruct (str_eqb (sortKey b) k) eqn:Sb; [|reflexivity].
  apply str_eqb_eq in Sb. exfalso.
  apply Z.ltb_lt in H.
  assert (Z.compare (localeCompare (sortKey a) (sortKey b)) 0 = Gt) as Hgt
    by (apply Z.compare_gt_iff; exact H).
  rewrite (localeCompare_keys _ _ Ha Hb), Sa, Sb, strCompare_refl in Hgt.
  discriminate Hgt.
Qed.

(** C5: the rows come out sorted ascending by their key under plain
    lexicographic comparison, they are the discovered rows, and rows with
    one key keep their discovery order (file, then line, then entry).  A
    row of a later file with key 2025-01-01 09:00:00 precedes a row of an
    earlier file with key 2025-01-02 10:00:00. *)
Theorem collect_sorted_stable (files : list TFile) :
  let rows := collectTimeLogRows localeCompare files in
  StronglySorted (fun a b => strLe (sortKey a) (sortKey b)) rows /\
  Permutation rows (discoveredRows files) /\
  (forall k, filter (sameKey k) rows
             = filter (sameKey k) (discoveredRows files)) /\
  collectTimeLogRows localeCompare
    [MkFile (lit "A.md") (lit "- [x] a [time-logs:: 2025-01-02 -10:00; ]");
     MkFile (lit "B.md") (lit "b [time-logs:: 2025-01-01 09:00-; ]")]
  = [MkRow (lit "b") (lit "2025-01-01 09:00:00") [] (lit "B.md") 1;
     MkRow (lit "a") [] (lit "2025-01-02 10:00:00") (lit "A.md") 1].
Proof.
  unfold collectTimeLogRows. cbv zeta.
  pose proof (discoveredRows_keys files) as Hk.
  split; [|split; [|split]].
  - apply sortBy_sorted with (dom := keyed) (le := keyLe); auto.
    + intros a b c. apply strLe_trans.
    + apply compareRows_gt.
    + apply compareRows_le.
  - apply sortBy_perm.
  - intros k. apply sortBy_filter with (dom := keyed); auto.
    apply compareRows_same.
  - match goal with
    | |- sortBy _ ?d = _ =>
        replace d with
          [MkRow (lit "a") [] (lit "2025-01-02 10:00:00") (lit "A.md") 1;
           MkRow (lit "b") (lit "2025-01-01 09:00:00") [] (lit "B.md") 1]
          by (vm_compute; reflexivity)
    end.
    cbn [sortBy insertSorted]. unfold compareRows at 1.
    cbn [sortKey from to is_empty negb lit map list_ascii_of_string].
    match goal with
    | |- context [localeCompare ?a ?b] =>
        assert (Z.compare (localeCompare a b) 0 = Gt) as Hgt
          by (rewrite localeCompare_keys; vm_compute; reflexivity)
    end.
    apply Z.compare_gt_iff in Hgt. apply Z.ltb_lt in Hgt.
    rewrite Hgt. reflexivity.
Qed.
End Ordering.

Lemma codeUnitCompare_keys (a b : str) :
  Z.compare (codeUnitCompare a b) 0 = strCompare a b.
Proof. unfold codeUnitCompare. destruct (strCompare a b); reflexivity. Qed.

Lemma collect_sorted_stable_witness :
  StronglySorted (fun a b => strLe (sortKey a) (sortKey b))
    (collectTimeLogRows codeUnitCompare
       [MkFile (lit "A.md")
          (lit "- [x] a [time-logs:: 2025-01-02 -10:00; 2025-01-01 08:00; ]");
        MkFile (lit "B.md") (lit "b [time-logs:: 2025-01-01 09:00-; ]")]).
Proof.
  apply (collect_sorted_stable codeUnitCompare
           (fun a b _ _ => codeUnitCompare_keys a b)).
Defined.

(** * The CSV encoding *)

Lemma exec_from_Cls (p : char -> bool) (rs sn : str) :
  exec_from (Cls p) sn rs =
  match breakAt p rs with
  | Some (a, c, b) => Some (RMatch (rev sn ++ a) [c] b [])
  | None => None
  end.
Proof.
  revert sn; induction rs as [|c rs IH]; intros sn; [reflexivity|].
  cbn [exec_from breakAt]. unfold match_here. cbn [run rest seen caps].
  destruct (p c) eqn:Ep.
  - cbn [rest caps length]. rewrite app_nil_r.
    replace (S (length rs) - length rs) with 1 by lia. reflexivity.
  - rewrite IH. destruct (breakAt p rs) as [[[a x] b]|]; [|reflexivity].
    cbn [rev]. rewrite <- app_assoc. reflexivity.
Qed.

Lemma breakAt_existsb (p : char -> bool) (s : str) :
  existsb p s = match breakAt p s with Some _ => true | None => false end.
Proof.
  induction s as [|c s IH]; [reflexivity|]. simpl.
  destruct (p c); [reflexivity|]. rewrite IH.
  destruct (breakAt p s) as [[[a x] b]|]; reflexivity.
Qed.

Lemma breakAt_Some (p : char -> bool) (s a b : str) (x : char) :
  breakAt p s = Some (a, x, b) ->
  s = a ++ x :: b /\ p x = true /\ existsb p a = false.
Proof.
  revert a; induction s as [|c s IH]; intros a; [discriminate|]. simpl.
  destruct (p c) eqn:Ep.
  - intros [= <- <- <-]. auto.
  - destruct (breakAt p s) as [[[a' x'] b']|]; [|discriminate].
    intros [= <- <- <-]. destruct (IH a' eq_refl) as (-> & Hx & Ha).
    simpl. rewrite Ep. auto.
Qed.

Lemma test_Cls (p : char -> bool) (s : str) : test (Cls p) s = existsb p s.
Proof.
  unfold test, exec. rewrite exec_from_Cls, breakAt_existsb.
  destruct (breakAt p s) as [[[a x] b]|]; reflexivity.
Qed.

Lemma flat_map_keep (p : char -> bool) (repl a : str) :
  existsb p a = false ->
  flat_map (fun c => if p c then repl else [c]) a = a.
Proof.
  induction a as [|c a IH]; [reflexivity|]. simpl. intros H.
  apply orb_false_iff in H. destruct H as [Hc Ha].
  rewrite Hc. simpl. f_equal. apply IH, Ha.
Qed.

(** The global replacement of one class of characters: each such character
    is replaced, every other one is kept. *)
Lemma replace_g_Cls (p : char -> bool) (repl : str) (n : nat) (rs sn : str) :
  length rs < n ->
  replace_g n (Cls p) repl sn rs =
  flat_map (fun c => if p c then repl else [c]) rs.
Proof.
  revert rs sn; induction n as [|n IH]; intros rs sn Hn; [lia|].
  cbn [replace_g]. rewrite exec_from_Cls.
  destruct (breakAt p rs) as [[[a x] b]|] eqn:E.
  - apply breakAt_Some in E. destruct E as (-> & Hx & Ha).
    cbn [m_text m_post m_pre].
    rewrite length_app, length_rev, Nat.add_comm, Nat.add_sub.
    rewrite firstn_app_exact by reflexivity.
    rewrite flat_map_app. cbn [flat_map]. rewrite Hx.
    rewrite IH by (rewrite length_app in Hn; simpl in Hn; lia).
    rewrite (flat_map_keep p repl a Ha). reflexivity.
  - pose proof (breakAt_existsb p rs) as Hex. rewrite E in Hex.
    symmetry. apply flat_map_keep, Hex.
Qed.

Lemma replaceAll_Cls (p : char -> bool) (repl s : str) :
  replaceAll (Cls p) repl s =
  flat_map (fun c => if p c then repl else [c]) s.
Proof. unfold replaceAll. apply replace_g_Cls. lia. Qed.

Lemma doubleQuotes_plain (v : str) :
  existsb csvSpecial v = false -> doubleQuotes v = v.
Proof.
  unfold doubleQuotes. intros H. apply flat_map_keep.
  induction v as [|c v IH]; [reflexivity|].
  simpl in *. apply orb_false_iff in H. destruct H as [Hc Hv].
  unfold csvSpecial in Hc. apply orb_false_iff in Hc. destruct Hc as [Hc _].
  apply orb_false_iff in Hc. destruct Hc as [Hc _].
  rewrite Hc. apply IH, Hv.
Qed.

Lemma csvEscape_encodeField (v : str) : csvEscape v = encodeField v.
Proof.
  unfold csvEscape, encodeField, needsQuotes, mustQuoteRegex, quoteRegex.
  rewrite test_Cls, replaceAll_Cls.
  replace (flat_map _ v) with (doubleQuotes v)
    by (apply flat_map_ext; intros c; rewrite N.eqb_sym; reflexivity).
  destruct (existsb csvSpecial v) eqn:E; [reflexivity|].
  apply doubleQuotes_plain, E.
Qed.
Lemma join_cons (sep x : str) (l : list str) :
  join sep (x :: l) = x ++ flat_map (fun y => sep ++ y) l.
Proof.
  revert x; induction l as [|y l IH]; intros x.
  - simpl. symmetry. apply app_nil_r.
  - change (join sep (x :: y :: l)) with (x ++ sep ++ join sep (y :: l)).
    rewrite IH. simpl. rewrite <- app_assoc. reflexivity.
Qed.

Lemma uint_digits (u : Decimal.uint) :
  Forall (fun c => isDigit c = true) (lit (NilEmpty.string_of_uint u)).
Proof.
  induction u; simpl; constructor; try reflexivity; assumption.
Qed.

Lemma stringOfN_digits (n : N) :
  Forall (fun c => isDigit c = true) (stringOfN n).
Proof.
  unfold stringOfN, digitsOfUint, NilZero.string_of_uint.
  destruct (N.to_uint n) eqn:E; try apply uint_digits.
  repeat constructor.
Qed.

Lemma digit_not_special (c : char) : isDigit c = true -> csvSpecial c = false.
Proof.
  unfold isDigit, in_range, csvSpecial, chr_is, DQUOTE, LF. intros H.
  apply andb_true_iff in H. destruct H as [H1 H2].
  apply N.leb_le in H1. apply N.leb_le in H2.
  repeat (apply orb_false_iff; split); apply N.eqb_neq; simpl; lia.
Qed.

Lemma encodeField_number (n : N) : encodeField (stringOfN n) = stringOfN n.
Proof.
  unfold encodeField, needsQuotes.
  assert (existsb csvSpecial (stringOfN n) = false) as ->; [|reflexivity].
  pose proof (stringOfN_digits n) as H.
  induction H as [|c l Hc _ IH]; [reflexivity|].
  simpl. rewrite (digit_not_special _ Hc). exact IH.
Qed.

(** C9: the CSV text is the header line [Task,From,To,File,Line], also when
    there is no row, followed by one line per row, lines separated by a line
    feed and columns by a comma.  A field is wrapped in double quotes
    exactly when it holds a double quote, a comma or a line feed; inside the
    quotes every double quote is doubled; any other field is written as it
    is. *)
Theorem createCsvContent_encoding (rows : list Row) :
  createCsvContent rows =
    lit "Task,From,To,File,Line" ++ flat_map (fun r => LF :: encodeRow r) rows
  /\ createCsvContent [] = lit "Task,From,To,File,Line"
  /\ (forall v, csvEscape v =
        if needsQuotes v then [DQUOTE] ++ doubleQuotes v ++ [DQUOTE] else v)
  /\ (forall v, needsQuotes v = true <->
        exists c, In c v /\ (c = DQUOTE \/ c = N_of_ascii "," \/ c = LF)).
Proof.
  split; [|split; [|split]].
  - unfold createCsvContent. cbn [map]. rewrite join_cons.
    f_equal.
    rewrite flat_map_concat_map, !map_map, <- flat_map_concat_map.
    apply flat_map_ext. intros r. unfold csvColumns, encodeRow.
    cbn [map join]. rewrite !csvEscape_encodeField, encodeField_number.
    reflexivity.
  - reflexivity.
  - apply csvEscape_encodeField.
  - intros v. unfold needsQuotes. rewrite existsb_exists.
    split; intros (c & Hin & Hc); exists c; (split; [exact Hin|]).
    + unfold csvSpecial, chr_is in Hc.
      apply orb_true_iff in Hc. destruct Hc as [Hc|Hc];
        [apply orb_true_iff in Hc; destruct Hc as [Hc|Hc]|];
        apply N.eqb_eq in Hc; auto.
    + unfold csvSpecial, chr_is.
      destruct Hc as [-> | [-> | ->]]; reflexivity.
Qed.

(** * The line mutator *)

Lemma exec_from_endsWithSpace (rs sn : str) :
  exec_from endsWithSpaceRegex sn rs =
  if lastIsSpace rs
  then Some (RMatch (rev sn ++ removelast rs) [last rs 0%N] [] [])
  else None.
Proof.
  revert sn; induction rs as [|c rs IH]; intros sn; [reflexivity|].
  cbn [exec_from]. unfold match_here, endsWithSpaceRegex.
  cbn [run rest seen caps flat_map].
  destruct rs as [|c' rs].
  - cbn [lastIsSpace]. destruct (isSpace c); cbn; [|reflexivity].
    rewrite app_nil_r. reflexivity.
  - unfold endsWithSpaceRegex in IH.
    destruct (isSpace c); cbn [flat_map rest is_empty app];
      rewrite IH; change (lastIsSpace (c :: c' :: rs))
        with (lastIsSpace (c' :: rs));
      destruct (lastIsSpace (c' :: rs)); try reflexivity;
      cbn [rev removelast last]; rewrite <- app_assoc; reflexivity.
Qed.

Lemma test_endsWithSpace (s : str) :
  test endsWithSpaceRegex s = lastIsSpace s.
Proof.
  unfold test, exec. rewrite exec_from_endsWithSpace.
  destruct (lastIsSpace s); reflexivity.
Qed.

Lemma test_startsWithSpace (s : str) :
  test startsWithSpaceRegex s = firstIsSpace s.
Proof.
  unfold test, startsWithSpaceRegex. rewrite exec_Bol. unfold match_here.
  rewrite run_Bol_start. destruct s as [|c s]; [reflexivity|].
  cbn [run rest firstIsSpace]. destruct (isSpace c); reflexivity.
Qed.

Lemma separatorAfter_pad (s : str) : separatorAfter s = padAfter s.
Proof.
  unfold separatorAfter, padAfter. rewrite test_endsWithSpace.
  destruct (is_empty s), (lastIsSpace s); reflexivity.
Qed.

Lemma separatorBefore_pad (s : str) : separatorBefore s = padBefore s.
Proof.
  unfold separatorBefore, padBefore. rewrite test_startsWithSpace.
  destruct (is_empty s), (firstIsSpace s); reflexivity.
Qed.

(** Where the leftmost match is: nothing matches at an earlier start. *)
Lemma exec_from_Some (r : regex) (rs sn : str) (m : rmatch) :
  exec_from r sn rs = Some m ->
  exists a b, rs = a ++ b /\ m_pre m = rev sn ++ a /\
              match_here r (rev a ++ sn) b = Some m.
Proof.
  revert sn; induction rs as [|c rs IH]; intros sn; cbn [exec_from].
  - destruct (match_here r sn []) as [m'|] eqn:E; [|discriminate].
    intros [= <-]. exists [], []. repeat split; [|exact E].
    unfold match_here in E. destruct (run r (MState sn [] [])); [discriminate|].
    injection E as <-. symmetry. apply app_nil_r.
  - destruct (match_here r sn (c :: rs)) as [m'|] eqn:E.
    + intros [= <-]. exists [], (c :: rs). repeat split; [|exact E].
      unfold match_here in E.
      destruct (run r (MState sn (c :: rs) [])); [discriminate|].
      injection E as <-. symmetry. apply app_nil_r.
    + intros H. destruct (IH _ H) as (a & b & -> & Hp & Hm).
      exists (c :: a), b. repeat split.
      * rewrite Hp. cbn [rev]. rewrite <- app_assoc. reflexivity.
      * cbn [rev]. rewrite <- app_assoc. exact Hm.
Qed.

Lemma inlineDataview_starts_with_bracket (line : str) (idx : nat) :
  findFirstInlineDataviewIndex line = Z.of_nat idx ->
  exists tail, skipn idx line = N_of_ascii "[" :: tail /\
               firstn idx line ++ N_of_ascii "[" :: tail = line.
Proof.
  unfold findFirstInlineDataviewIndex, search, exec.
  destruct (exec_from inlineDataviewRegex [] line) as [m|] eqn:E; [|lia].
  intros Hidx. apply Nat2Z.inj in Hidx. unfold m_index in Hidx.
  destruct (exec_from_Some _ _ _ E) as (a & b & -> & Hp & Hm).
  cbn [rev app] in Hp. rewrite Hp in Hidx. subst idx.
  rewrite skipn_app_exact, firstn_app_exact by reflexivity.
  unfold match_here, inlineDataviewRegex, Chr in Hm.
  destruct b as [|c b]; [discriminate Hm|].
  cbn [run rest] in Hm. destruct (chr_is "[" c) eqn:Ec;
    [|discriminate Hm].
  apply N.eqb_eq in Ec. subst c. exists b. auto.
Qed.
(** C7: on a line without a marker that holds an inline metadata token, the
    new marker goes in front of the token, which starts at [idx] with an
    opening bracket.  The text before the token and the text from the token
    on are kept as they are; a single space is added before the marker only
    when the text before is not empty and does not end with white space, and
    a single space is added after it because the token starts with a
    bracket, never with white space.  So the marker begins at or one after
    the token's old offset and the token follows it one space later. *)
Theorem appendTimeLogToLine_before_inline_dataview
  (line currentTime : str) (idx : nat) :
  containsTimeLogs line = false ->
  findFirstInlineDataviewIndex line = Z.of_nat idx ->
  let before := firstn idx line in
  let after := skipn idx line in
  let marker := lit "[time-logs:: " ++ currentTime ++ lit "; ]" in
  line = before ++ after /\
  (exists tail, after = N_of_ascii "[" :: tail) /\
  appendTimeLogToLine line currentTime =
    before ++ padAfter before ++ marker ++ padBefore after ++ after /\
  padBefore after = lit " " /\
  (before = [] -> padAfter before = []) /\
  firstn idx (appendTimeLogToLine line currentTime) = before /\
  skipn (idx + length (padAfter before) + length marker + 1)
        (appendTimeLogToLine line currentTime) = after.
Proof.
  intros Hno Hidx before after marker.
  destruct (inlineDataview_starts_with_bracket _ _ Hidx) as (tail & Ha & Hl).
  fold after in Ha. fold before in Hl.
  assert (appendTimeLogToLine line currentTime =
          before ++ padAfter before ++ marker ++ padBefore after ++ after)
    as Hres.
  { unfold appendTimeLogToLine. unfold containsTimeLogs in Hno.
    rewrite Hno, Hidx.
    replace (Z.of_nat idx =? -1)%Z with false by (symmetry; apply Z.eqb_neq; lia).
    cbn [negb]. unfold insertBeforeInlineDataview. rewrite Hidx.
    replace (Z.of_nat idx =? -1)%Z with false by (symmetry; apply Z.eqb_neq; lia).
    rewrite Nat2Z.id, separatorAfter_pad, separatorBefore_pad.
    reflexivity. }
  assert (padBefore after = lit " ") as Hpad by (rewrite Ha; reflexivity).
  split; [symmetry; apply firstn_skipn|].
  split; [exists tail; exact Ha|].
  split; [exact Hres|].
  split; [exact Hpad|].
  split; [intros ->; reflexivity|].
  assert (length before = idx) as Hlen.
  { pose proof (f_equal (@length char) Hl) as HL.
    rewrite length_app in HL. cbn [length] in HL.
    unfold before in *. rewrite length_firstn in *. lia. }
  rewrite Hres, Hpad. split.
  - apply firstn_app_exact, Hlen.
  - rewrite !app_assoc. apply skipn_app_exact.
    rewrite !length_app, Hlen. simpl (length (lit " ")). lia.
Qed.

Lemma appendTimeLogToLine_before_inline_dataview_witness :
  appendTimeLogToLine (lit "- [ ] Pay bills[due:: 2025-09-01] now")
                      (lit "2025-08-28 -14:32") =
  lit "- [ ] Pay bills [time-logs:: 2025-08-28 -14:32; ] [due:: 2025-09-01] now".
Proof.
  exact (proj1 (proj2 (proj2
    (appendTimeLogToLine_before_inline_dataview
       (lit "- [ ] Pay bills[due:: 2025-09-01] now")
       (lit "2025-08-28 -14:32") 15 eq_refl eq_refl)))).
Defined.
(** * The matcher reads the text in order and loses none of it *)

Lemma reads_refl (st : mstate) : reads st st.
Proof. exists []. split; reflexivity. Qed.

Lemma reads_trans (a b c : mstate) : reads a b -> reads b c -> reads a c.
Proof.
  intros (x & Hx1 & Hx2) (y & Hy1 & Hy2). exists (x ++ y). split.
  - rewrite Hx1, Hy1, app_assoc. reflexivity.
  - rewrite Hy2, Hx2, rev_app_distr, app_assoc. reflexivity.
Qed.

Lemma star_loop_reads (greedy : bool) (step : mstate -> list mstate) :
  (forall st st', In st' (step st) -> reads st st') ->
  forall n st st', In st' (star_loop greedy step n st) -> reads st st'.
Proof.
  intros Hstep. induction n as [|n IH]; intros st st' H; cbn [star_loop] in H.
  - destruct H as [<-|[]]. apply reads_refl.
  - assert (In st' (flat_map (fun s1 =>
                if Nat.ltb (length (rest s1)) (length (rest st))
                then star_loop greedy step n s1 else []) (step st))
            -> reads st st') as Hmore.
    { intros Hin. apply in_flat_map in Hin. destruct Hin as (s1 & H1 & H2).
      destruct (Nat.ltb _ _); [|contradiction].
      exact (reads_trans (Hstep _ _ H1) (IH _ _ H2)). }
    destruct greedy.
    + apply in_app_or in H. destruct H as [H|[<-|[]]];
        [apply Hmore, H|apply reads_refl].
    + destruct H as [<-|H]; [apply reads_refl|apply Hmore, H].
Qed.

Lemma run_reads (r : regex) :
  forall st st', In st' (run r st) -> reads st st'.
Proof.
  induction r as [|p|r1 IH1 r2 IH2|r1 IH1|r1 IH1|r1 IH1|r1 IH1| | |];
    intros st st' H; cbn [run] in H.
  - destruct H as [<-|[]]. apply reads_refl.
  - destruct (rest st) as [|c s'] eqn:E; [contradiction|].
    destruct (p c); [|contradiction]. destruct H as [<-|[]].
    exists [c]. cbn. rewrite E. split; reflexivity.
  - apply in_flat_map in H. destruct H as (s1 & H1 & H2).
    exact (reads_trans (IH1 _ _ H1) (IH2 _ _ H2)).
  - apply in_app_or in H. destruct H as [H|[<-|[]]];
      [apply IH1, H|apply reads_refl].
  - exact (star_loop_reads true (run r1) IH1 _ _ _ H).
  - exact (star_loop_reads false (run r1) IH1 _ _ _ H).
  - apply in_map_iff in H. destruct H as (s1 & <- & H1).
    destruct (IH1 _ _ H1) as (x & Hx1 & Hx2). exists x. cbn. auto.
  - destruct (is_empty (seen st)); [|contradiction].
    destruct H as [<-|[]]. apply reads_refl.
  - destruct (is_empty (rest st)); [|contradiction].
    destruct H as [<-|[]]. apply reads_refl.
  - destruct (xorb _ _); [|contradiction].
    destruct H as [<-|[]]. apply reads_refl.
Qed.

(** A match splits the text into what is before it, the match, and what
    is after it. *)
Lemma exec_splits (r : regex) (s : str) (m : rmatch) :
  exec r s = Some m -> s = m_pre m ++ m_text m ++ m_post m.
Proof.
  unfold exec. intros H.
  destruct (exec_from_Some _ _ _ H) as (a & b & -> & Hp & Hm).
  cbn [rev app] in Hp. rewrite Hp. f_equal.
  unfold match_here in Hm.
  destruct (run r (MState (rev a ++ []) b [])) as [|st' l] eqn:E;
    [discriminate Hm|]. injection Hm as <-. cbn [m_text m_post].
  destruct (run_reads r (MState (rev a ++ []) b []) st') as (x & Hx & _).
  { rewrite E. left. reflexivity. }
  cbn [rest] in Hx. rewrite Hx.
  rewrite length_app, Nat.add_sub, firstn_app_exact by reflexivity.
  reflexivity.
Qed.

(** The bound of a quantifier loop is never the reason it stops: a larger
    bound gives the same matches. *)
Lemma star_loop_bound (greedy : bool) (step : mstate -> list mstate) :
  forall n st, length (rest st) <= n ->
    star_loop greedy step n st
    = star_loop greedy step (length (rest st)) st.
Proof.
  induction n as [n IH] using lt_wf_ind. intros st Hn.
  destruct n as [|n].
  - replace (length (rest st)) with 0 by lia. reflexivity.
  - destruct (length (rest st)) as [|m] eqn:E.
    + cbn [star_loop]. rewrite E.
      assert (flat_map (fun st' =>
                if Nat.ltb (length (rest st')) 0
                then star_loop greedy step n st' else []) (step st) = [])
        as ->.
      { induction (step st) as [|s1 l IHl]; [reflexivity|].
        cbn [flat_map]. rewrite IHl. reflexivity. }
      destruct greedy; reflexivity.
    + cbn [star_loop]. rewrite E.
      assert (flat_map (fun st' =>
                if Nat.ltb (length (rest st')) (S m)
                then star_loop greedy step n st' else []) (step st)
              = flat_map (fun st' =>
                  if Nat.ltb (length (rest st')) (S m)
                  then star_loop greedy step m st' else []) (step st))
        as ->; [|reflexivity].
      apply flat_map_ext. intros s1.
      destruct (Nat.ltb (length (rest s1)) (S m)) eqn:El; [|reflexivity].
      apply Nat.ltb_lt in El.
      rewrite (IH n) by lia. rewrite (IH m) by lia. reflexivity.
Qed.

(** * The task label *)

Lemma startsWith_firstn (p s : str) :
  startsWith p s = true -> firstn (length p) s = p.
Proof.
  revert s; induction p as [|a p IH]; intros [|b s]; simpl;
    try discriminate; try reflexivity.
  intros H. apply andb_true_iff in H. destruct H as [Hab H].
  apply N.eqb_eq in Hab. subst b. f_equal. apply IH, H.
Qed.

Lemma unchecked_prefix_not_checked (text : str) :
  startsWith (lit "- [ ]") text = true ->
  startsWith (lit "- [x]") text = false /\
  startsWith (lit "- [X]") text = false.
Proof.
  intros H. apply startsWith_firstn in H.
  split.
  - destruct (startsWith (lit "- [x]") text) eqn:E; [|reflexivity].
    apply startsWith_firstn in E.
    change (length (lit "- [x]")) with (length (lit "- [ ]")) in E.
    rewrite H in E. discriminate E.
  - destruct (startsWith (lit "- [X]") text) eqn:E; [|reflexivity].
    apply startsWith_firstn in E.
    change (length (lit "- [X]")) with (length (lit "- [ ]")) in E.
    rewrite H in E. discriminate E.
Qed.

(** C6 against the code: [normalizeTaskText] strips a second prefix when an
    unchecked prefix is followed by a checked one, although it strips only
    one when the two come in the other order.  In every other case it
    strips one prefix, as the claim says. *)
Theorem normalizeTaskText_strips_two_prefixes :
  (forall text,
     normalizeTaskText text =
     let one := stripOneCheckbox text in
     if (startsWith (lit "- [ ]") text
         && (startsWith (lit "- [x]") one || startsWith (lit "- [X]") one))%bool
     then trim (skipn 5 one) else one) /\
  stripOneCheckbox (lit "- [ ] - [x] foo") = lit "- [x] foo" /\
  normalizeTaskText (lit "- [ ] - [x] foo") = lit "foo" /\
  normalizeTaskText (lit "- [x] - [ ] foo") = lit "- [ ] foo" /\
  rowsOfFile
    (MkFile (lit "a.md")
       (lit "- [ ] - [x] foo [time-logs:: 2025-08-28 -14:32; ]"))
  = [MkRow (lit "foo") [] (lit "2025-08-28 14:32:00") (lit "a.md") 1].
Proof.
  split; [|repeat split; vm_compute; reflexivity].
  intros text. unfold normalizeTaskText, stripOneCheckbox. cbv zeta.
  destruct (startsWith (lit "- [ ]") text) eqn:E1.
  - destruct (unchecked_prefix_not_checked _ E1) as [-> ->].
    reflexivity.
  - cbn [orb andb].
    destruct (startsWith (lit "- [x]") text || startsWith (lit "- [X]") text)%bool;
      reflexivity.
Qed.

(** * The marker pattern in closed form *)

Lemma run_Lit (p : str) (sn rs : str) (cs : list str) :
  run (Lit p) (MState sn rs cs) =
  if startsWith p rs
  then [MState (rev p ++ sn) (skipn (length p) rs) cs] else [].
Proof.
  revert sn rs; induction p as [|a p IH]; intros sn rs; [reflexivity|].
  cbn [Lit]. rewrite run_Seq. cbn [run rest seen caps].
  destruct rs as [|b rs]; [reflexivity|]. cbn [startsWith].
  destruct (N.eqb a b) eqn:E; [|reflexivity].
  apply N.eqb_eq in E. subst b.
  rewrite flat_map_one, IH. cbn [andb length skipn rev].
  rewrite <- app_assoc. reflexivity.
Qed.

Lemma closeOf_Some (s x b : str) :
  closeOf s = Some (x, b) ->
  s = x ++ N_of_ascii "]" :: b /\ forallb innerChar x = true.
Proof.
  revert x; induction s as [|c s IH]; intros x; [discriminate|].
  cbn [closeOf]. destruct (chr_is "]" c) eqn:Ec.
  - intros [= <- <-]. apply N.eqb_eq in Ec. subst c. auto.
  - destruct (isDot c) eqn:Ed; [|discriminate].
    destruct (closeOf s) as [[a b']|]; [|discriminate].
    intros [= <- <-]. destruct (IH a eq_refl) as [-> Ha].
    split; [reflexivity|]. cbn [forallb]. unfold innerChar at 1.
    rewrite Ec, Ed, Ha. reflexivity.
Qed.

Lemma closeOf_inner (x b : str) :
  forallb innerChar x = true ->
  closeOf (x ++ N_of_ascii "]" :: b) = Some (x, b).
Proof.
  induction x as [|c x IH]; [reflexivity|]. cbn [forallb app closeOf].
  intros H. apply andb_true_iff in H. destruct H as [Hc Hx].
  unfold innerChar in Hc. apply andb_true_iff in Hc. destruct Hc as [H1 H2].
  apply negb_true_iff in H1. rewrite H1, H2, (IH Hx). reflexivity.
Qed.

(** The lazy inner group followed by the closing bracket: the first way it
    matches stops at the first closing bracket.  [a] is the part of the
    group already read. *)
Lemma lazy_inner_head (rs a sn : str) (cs : list str) :
  hd_error
    (flat_map (run (Chr "]"))
       (map (fun st' =>
               MState (seen st') (rest st')
                 (caps st' ++
                  [firstn (length (a ++ rs) - length (rest st')) (a ++ rs)]))
            (run (StarLazy (Cls isDot)) (MState sn rs cs)))) =
  match closeOf rs with
  | Some (x, b) =>
      Some (MState (N_of_ascii "]" :: rev x ++ sn) b (cs ++ [a ++ x]))
  | None => None
  end.
Proof.
  revert a sn; induction rs as [|c rs IH]; intros a sn; [reflexivity|].
  rewrite run_StarLazy_Cls_cons.
  set (inner := run (StarLazy (Cls isDot))) in *.
  cbn [map flat_map closeOf]. unfold Chr at 1. cbn [run rest seen caps].
  destruct (chr_is "]" c) eqn:Ec.
  - cbn [app hd_error]. apply N.eqb_eq in Ec. subst c.
    rewrite firstn_app_exact, app_nil_r;
      [reflexivity|rewrite length_app; cbn [length]; lia].
  - cbn [app]. destruct (isDot c); [|reflexivity].
    replace (a ++ c :: rs) with ((a ++ [c]) ++ rs)
      by (rewrite <- app_assoc; reflexivity).
    fold (Chr "]"). rewrite IH.
    destruct (closeOf rs) as [[x b]|]; [|reflexivity].
    cbn [rev]. rewrite <- !app_assoc. reflexivity.
Qed.

Lemma match_here_timeLogs (sn rs : str) :
  match_here timeLogsRegex sn rs =
  match markerAt rs with
  | Some (x, b) => Some (markerMatch (rev sn, x, b))
  | None => None
  end.
Proof.
  unfold match_here, timeLogsRegex, markerAt. rewrite run_Seq, run_Lit.
  fold openToken. destruct (startsWith openToken rs) eqn:Es; [|reflexivity].
  rewrite flat_map_one, run_Seq. cbn [run].
  pose proof (startsWith_firstn _ _ Es) as Hf.
  change (length openToken) with 12 in *.
  pose proof (lazy_inner_head (skipn 12 rs) [] (rev openToken ++ sn) [])
    as H.
  cbn [app rest] in H.
  match type of H with hd_error ?l = _ =>
    match goal with |- context [match ?l' with _ => _ end] =>
      change l' with l; destruct l as [|st l0] end end.
  - destruct (closeOf (skipn 12 rs)) as [[x b]|]; [discriminate H|].
    reflexivity.
  - destruct (closeOf (skipn 12 rs)) as [[x b]|] eqn:Ec; [|discriminate H].
    injection H as ->. cbn [rest caps markerMatch app].
    apply closeOf_Some in Ec. destruct Ec as [Ec _].
    rewrite <- (firstn_skipn 12 rs) at 1 2. rewrite Hf, Ec.
    f_equal. f_equal.
    replace (openToken ++ x ++ N_of_ascii "]" :: b)
      with ((openToken ++ x ++ lit "]") ++ b)
      by (rewrite <- !app_assoc; reflexivity).
    rewrite length_app, Nat.add_sub. apply firstn_app_exact. reflexivity.
Qed.

Lemma exec_from_timeLogs (rs sn : str) :
  exec_from timeLogsRegex sn rs = option_map markerMatch (findMarker sn rs).
Proof.
  revert sn; induction rs as [|c rs IH]; intros sn;
    cbn [exec_from findMarker]; rewrite match_here_timeLogs;
    destruct (markerAt _) as [[x b]|]; try reflexivity.
  apply IH.
Qed.

Lemma exec_timeLogs (s : str) :
  exec timeLogsRegex s = option_map markerMatch (findMarker [] s).
Proof. apply exec_from_timeLogs. Qed.

Lemma containsTimeLogs_findMarker (s : str) :
  containsTimeLogs s =
  match findMarker [] s with Some _ => true | None => false end.
Proof.
  unfold containsTimeLogs, test. rewrite exec_timeLogs.
  destruct (findMarker [] s); reflexivity.
Qed.
(** * Where the marker of a line is *)

Lemma startsWith_app_long (p a b : str) :
  length p <= length a -> startsWith p (a ++ b) = startsWith p a.
Proof.
  revert a; induction p as [|x p IH]; intros [|y a] H; cbn in *;
    try reflexivity; try lia.
  rewrite IH by lia. reflexivity.
Qed.

Lemma startsWith_self_app (p b : str) : startsWith p (p ++ b) = true.
Proof.
  induction p as [|x p IH]; [reflexivity|]. cbn [app startsWith].
  rewrite N.eqb_refl. exact IH.
Qed.

(** The open token does not overlap itself: its bracket occurs once. *)
Lemma openToken_straddle (a b : str) :
  0 < length a < 12 -> startsWith openToken (a ++ openToken ++ b) = false.
Proof.
  intros [H0 H12].
  destruct (startsWith openToken (a ++ openToken ++ b)) eqn:E; [|reflexivity].
  apply startsWith_firstn in E. change (length openToken) with 12 in E.
  exfalso.
  do 12 (destruct a as [|? a]; [cbn in *; try lia; try discriminate E|]).
  cbn in H12. lia.
Qed.

Lemma closeOf_app (r t : str) :
  closeOf (r ++ t) =
  match closeOf r with
  | Some (a, b) => Some (a, b ++ t)
  | None =>
      if forallb innerChar r
      then match closeOf t with
           | Some (a, b) => Some (r ++ a, b)
           | None => None
           end
      else None
  end.
Proof.
  induction r as [|c r IH]; cbn [app closeOf forallb].
  - destruct (closeOf t) as [[a b]|]; reflexivity.
  - unfold innerChar at 1. destruct (chr_is "]" c); [reflexivity|].
    destruct (isDot c); cbn [negb andb]; [|reflexivity].
    rewrite IH. destruct (closeOf r) as [[a b]|]; [reflexivity|].
    destruct (forallb innerChar r); [|reflexivity].
    destruct (closeOf t) as [[a b]|]; reflexivity.
Qed.

Lemma openToken_inner : forallb innerChar openToken = true.
Proof. reflexivity. Qed.

Lemma markerAt_here (x q : str) :
  forallb innerChar x = true ->
  markerAt (openToken ++ x ++ N_of_ascii "]" :: q) = Some (x, q).
Proof.
  intros Hx. unfold markerAt. rewrite startsWith_self_app.
  rewrite (skipn_app_exact openToken _ (n := 12)) by reflexivity.
  apply closeOf_inner, Hx.
Qed.

(** A line that holds a well-formed marker somewhere has a marker. *)
Lemma findMarker_exists (p sn x q : str) :
  forallb innerChar x = true ->
  findMarker sn (p ++ openToken ++ x ++ N_of_ascii "]" :: q) <> None.
Proof.
  intros Hx. revert sn; induction p as [|c p IH]; intros sn.
  - cbn [app]. change (findMarker sn (openToken ++ x ++ N_of_ascii "]" :: q))
      with (match markerAt (openToken ++ x ++ N_of_ascii "]" :: q) with
            | Some (x', b') => Some (rev sn, x', b')
            | None => findMarker (N_of_ascii "[" :: sn)
                        (lit "time-logs::" ++ x ++ N_of_ascii "]" :: q)
            end).
    rewrite (markerAt_here _ _ Hx). discriminate.
  - cbn [app findMarker]. destruct (markerAt _) as [[x' b']|];
      [discriminate|apply IH].
Qed.

(** With no open token before it, a well-formed marker is the marker of
    the line. *)
Lemma markerAt_before (p x q : str) (h : char) :
  includes openToken (h :: p) = false ->
  markerAt ((h :: p) ++ openToken ++ x ++ N_of_ascii "]" :: q) = None.
Proof.
  intros Hn. unfold markerAt.
  destruct (Nat.lt_ge_cases (length (h :: p)) 12) as [Hlt|Hge].
  - rewrite openToken_straddle; [reflexivity|]. cbn [length] in *. lia.
  - rewrite startsWith_app_long by exact Hge.
    cbn [includes] in Hn. apply orb_false_iff in Hn. destruct Hn as [-> _].
    reflexivity.
Qed.

Lemma findMarker_first (p sn x q : str) :
  includes openToken p = false ->
  forallb innerChar x = true ->
  findMarker sn (p ++ openToken ++ x ++ N_of_ascii "]" :: q)
  = Some (rev sn ++ p, x, q).
Proof.
  intros Hn Hx. revert sn Hn; induction p as [|c p IH]; intros sn Hn.
  - cbn [app]. change (findMarker sn (openToken ++ x ++ N_of_ascii "]" :: q))
      with (match markerAt (openToken ++ x ++ N_of_ascii "]" :: q) with
            | Some (x', b') => Some (rev sn, x', b')
            | None => findMarker (N_of_ascii "[" :: sn)
                        (lit "time-logs::" ++ x ++ N_of_ascii "]" :: q)
            end).
    rewrite (markerAt_here _ _ Hx), app_nil_r. reflexivity.
  - change ((c :: p) ++ openToken ++ x ++ N_of_ascii "]" :: q)
      with (c :: (p ++ openToken ++ x ++ N_of_ascii "]" :: q)).
    cbn [findMarker].
    change (c :: (p ++ openToken ++ x ++ N_of_ascii "]" :: q))
      with ((c :: p) ++ openToken ++ x ++ N_of_ascii "]" :: q).
    rewrite (markerAt_before p x q c Hn).
    cbn [includes] in Hn. apply orb_false_iff in Hn. destruct Hn as [_ Hn].
    rewrite (IH _ Hn). cbn [rev]. rewrite <- app_assoc. reflexivity.
Qed.

Lemma findMarker_Some (rs sn pre x post : str) :
  findMarker sn rs = Some (pre, x, post) ->
  exists a, rs = a ++ openToken ++ x ++ N_of_ascii "]" :: post /\
            pre = rev sn ++ a /\ forallb innerChar x = true.
Proof.
  revert sn; induction rs as [|c rs IH]; intros sn; cbn [findMarker].
  - change (markerAt []) with (@None (str * str)). discriminate.
  - destruct (markerAt (c :: rs)) as [[x0 b0]|] eqn:Em.
    + intros [= <- <- <-]. exists []. unfold markerAt in Em.
      destruct (startsWith openToken (c :: rs)) eqn:Es; [|discriminate].
      apply startsWith_firstn in Es. change (length openToken) with 12 in Es.
      apply closeOf_Some in Em. destruct Em as [Em Hx].
      rewrite <- (firstn_skipn 12 (c :: rs)), Es, Em, app_nil_r. auto.
    + intros H. destruct (IH _ H) as (a & -> & -> & Hx).
      exists (c :: a). cbn [rev]. rewrite <- app_assoc. auto.
Qed.

Lemma markerAt_replace (h : char) (p x q x' q' : str) :
  forallb innerChar x = true ->
  markerAt ((h :: p) ++ openToken ++ x ++ N_of_ascii "]" :: q) = None ->
  markerAt ((h :: p) ++ openToken ++ x' ++ N_of_ascii "]" :: q') = None.
Proof.
  intros Hx. unfold markerAt.
  destruct (Nat.lt_ge_cases (length (h :: p)) 12) as [Hlt|Hge].
  - intros _. rewrite openToken_straddle; [reflexivity|].
    cbn [length] in *. lia.
  - rewrite !startsWith_app_long by exact Hge.
    destruct (startsWith openToken (h :: p)); [|reflexivity].
    rewrite !(skipn_app 12 (h :: p)).
    replace (12 - length (h :: p)) with 0 by lia. cbn [skipn].
    rewrite !(closeOf_app (skipn 12 (h :: p))).
    destruct (closeOf (skipn 12 (h :: p))) as [[a b]|];
      [intros Hc; discriminate Hc|].
    destruct (forallb innerChar (skipn 12 (h :: p))); [|reflexivity].
    replace (openToken ++ x ++ N_of_ascii "]" :: q)
      with ((openToken ++ x) ++ N_of_ascii "]" :: q)
      by (rewrite <- app_assoc; reflexivity).
    rewrite closeOf_inner; [intros Hc; discriminate Hc|].
    rewrite forallb_app, Hx. reflexivity.
Qed.

(** Writing another inner text into the marker of a line leaves the marker
    where it was. *)
Lemma findMarker_replace (p sn x x' q : str) :
  findMarker sn (p ++ openToken ++ x ++ N_of_ascii "]" :: q)
  = Some (rev sn ++ p, x, q) ->
  forallb innerChar x = true ->
  forallb innerChar x' = true ->
  findMarker sn (p ++ openToken ++ x' ++ N_of_ascii "]" :: q)
  = Some (rev sn ++ p, x', q).
Proof.
  intros H Hx Hx'. revert sn H; induction p as [|c p IH]; intros sn H.
  - cbn [app]. change (findMarker sn (openToken ++ x' ++ N_of_ascii "]" :: q))
      with (match markerAt (openToken ++ x' ++ N_of_ascii "]" :: q) with
            | Some (y, b') => Some (rev sn, y, b')
            | None => findMarker (N_of_ascii "[" :: sn)
                        (lit "time-logs::" ++ x' ++ N_of_ascii "]" :: q)
            end).
    rewrite (markerAt_here _ _ Hx'), app_nil_r. reflexivity.
  - change ((c :: p) ++ openToken ++ x ++ N_of_ascii "]" :: q)
      with (c :: (p ++ openToken ++ x ++ N_of_ascii "]" :: q)) in H.
    cbn [findMarker] in H.
    change (c :: (p ++ openToken ++ x ++ N_of_ascii "]" :: q))
      with ((c :: p) ++ openToken ++ x ++ N_of_ascii "]" :: q) in H.
    destruct (markerAt ((c :: p) ++ openToken ++ x ++ N_of_ascii "]" :: q))
      as [[x0 b0]|] eqn:Em.
    + exfalso. injection H as H _ _.
      apply (f_equal (@length char)) in H.
      rewrite length_app in H. cbn [length] in H. lia.
    + change ((c :: p) ++ openToken ++ x' ++ N_of_ascii "]" :: q)
        with (c :: (p ++ openToken ++ x' ++ N_of_ascii "]" :: q)).
      cbn [findMarker].
      change (c :: (p ++ openToken ++ x' ++ N_of_ascii "]" :: q))
        with ((c :: p) ++ openToken ++ x' ++ N_of_ascii "]" :: q).
      rewrite (markerAt_replace c p x q x' q Hx Em).
      replace (rev sn ++ c :: p) with (rev (c :: sn) ++ p) in *
        by (cbn [rev]; rewrite <- app_assoc; reflexivity).
      apply IH, H.
Qed.
(** * Trimming *)

Lemma trimStart_nonspace (c : char) (s : str) :
  isSpace c = false -> trimStart (c :: s) = c :: s.
Proof. intros H. cbn [trimStart]. rewrite H. reflexivity. Qed.

Lemma trimStart_space (c : char) (s : str) :
  isSpace c = true -> trimStart (c :: s) = trimStart s.
Proof. intros H. cbn [trimStart]. rewrite H. reflexivity. Qed.

Lemma trimStart_head (s r : str) (c : char) :
  trimStart s = c :: r -> isSpace c = false.
Proof.
  induction s as [|a s IH]; [discriminate|]. cbn [trimStart].
  destruct (isSpace a) eqn:E; [exact IH|]. intros [= <- _]. exact E.
Qed.

Lemma trimStart_snoc_nonspace (s : str) (c : char) :
  isSpace c = false -> trimStart (s ++ [c]) = trimStart s ++ [c].
Proof.
  intros H. induction s as [|a s IH]; cbn [app trimStart].
  - rewrite H. reflexivity.
  - destruct (isSpace a); [exact IH|reflexivity].
Qed.

Lemma trimEnd_snoc_nonspace (s : str) (c : char) :
  isSpace c = false -> trimEnd (s ++ [c]) = s ++ [c].
Proof.
  intros H. unfold trimEnd. rewrite rev_app_distr. cbn [rev app].
  rewrite trimStart_nonspace by exact H. cbn [rev]. rewrite rev_involutive.
  reflexivity.
Qed.

Lemma trimEnd_snoc_space (s : str) (c : char) :
  isSpace c = true -> trimEnd (s ++ [c]) = trimEnd s.
Proof.
  intros H. unfold trimEnd. rewrite rev_app_distr. cbn [rev app].
  rewrite trimStart_space by exact H. reflexivity.
Qed.

Lemma trimEnd_cons_nonspace (c : char) (s : str) :
  isSpace c = false -> trimEnd (c :: s) = c :: trimEnd s.
Proof.
  intros H. unfold trimEnd. cbn [rev].
  rewrite trimStart_snoc_nonspace by exact H. rewrite rev_app_distr. reflexivity.
Qed.

Lemma trim_nil : trim [] = [].
Proof. reflexivity. Qed.

(** A trimmed text is empty or begins with a character that is not white
    space. *)
Lemma trim_head (s r : str) (c : char) :
  trim s = c :: r -> isSpace c = false.
Proof.
  unfold trim. destruct (trimStart s) as [|a t] eqn:E; [discriminate|].
  pose proof (trimStart_head s E) as Ha.
  rewrite trimEnd_cons_nonspace by exact Ha. intros [= <- _]. exact Ha.
Qed.

Lemma trim_space_cons (c : char) (s : str) :
  isSpace c = true -> trim (c :: s) = trim s.
Proof. intros H. unfold trim. rewrite trimStart_space by exact H. reflexivity. Qed.

(** Trimming keeps a part of the text. *)
Lemma trimStart_suffix (s : str) : exists a, s = a ++ trimStart s.
Proof.
  induction s as [|c s [a IH]]; [exists []; reflexivity|].
  cbn [trimStart]. destruct (isSpace c).
  - exists (c :: a). cbn [app]. f_equal. exact IH.
  - exists []. reflexivity.
Qed.

Lemma trim_part (s : str) : exists a b, s = a ++ trim s ++ b.
Proof.
  unfold trim, trimEnd.
  destruct (trimStart_suffix s) as [a Ha].
  destruct (trimStart_suffix (rev (trimStart s))) as [b Hb].
  exists a, (rev b). rewrite <- rev_app_distr, <- Hb, rev_involutive.
  exact Ha.
Qed.

Lemma forallb_trim (p : char -> bool) (s : str) :
  forallb p s = true -> forallb p (trim s) = true.
Proof.
  destruct (trim_part s) as (a & b & E). intros H. rewrite E in H.
  rewrite !forallb_app in H.
  apply andb_true_iff in H. destruct H as [_ H].
  apply andb_true_iff in H. destruct H as [H _]. exact H.
Qed.

(** * Entries of an inner text *)

Lemma split_chr_app_sep (sep : char) (a b cur : str) :
  split_chr sep cur (a ++ sep :: b) =
  split_chr sep cur a ++ split_chr sep [] b.
Proof.
  revert cur; induction a as [|c a IH]; intros cur; cbn [app split_chr].
  - rewrite N.eqb_refl. reflexivity.
  - destruct (N.eqb c sep); [rewrite IH; reflexivity|apply IH].
Qed.

Lemma split_chr_nosep (sep : char) (a cur : str) :
  forallb (fun c => negb (N.eqb c sep)) a = true ->
  split_chr sep cur a = [rev cur ++ a].
Proof.
  revert cur; induction a as [|c a IH]; intros cur H; cbn [split_chr].
  - rewrite app_nil_r. reflexivity.
  - cbn [forallb] in H. apply andb_true_iff in H. destruct H as [Hc Ha].
    apply negb_true_iff in Hc. rewrite Hc, (IH _ Ha). cbn [rev].
    rewrite <- app_assoc. reflexivity.
Qed.

Lemma entriesOf_app_sep (a b : str) :
  entriesOf (a ++ N_of_ascii ";" :: b) = entriesOf a ++ entriesOf b.
Proof.
  unfold entriesOf. rewrite split_chr_app_sep, map_app, filter_app.
  reflexivity.
Qed.

Lemma entriesOf_nil : entriesOf [] = [].
Proof. reflexivity. Qed.

Lemma entryChar_not_sep (t : str) :
  forallb entryChar t = true ->
  forallb (fun c => negb (N.eqb c (N_of_ascii ";"))) t = true.
Proof.
  intros H. rewrite forallb_forall in *. intros c Hc.
  specialize (H c Hc). unfold entryChar, chr_is in H.
  apply andb_true_iff in H. destruct H as [_ H].
  rewrite N.eqb_sym. exact H.
Qed.

Lemma entryOk_parts (t : str) :
  entryOk t = true ->
  t <> [] /\ trim t = t /\ forallb entryChar t = true.
Proof.
  unfold entryOk. intros H.
  apply andb_true_iff in H. destruct H as [H H3].
  apply andb_true_iff in H. destruct H as [H1 H2].
  apply str_eqb_eq in H2. repeat split; auto.
  intros ->. discriminate H1.
Qed.

Lemma entryOk_head (t : str) :
  entryOk t = true -> exists c r, t = c :: r /\ isSpace c = false.
Proof.
  intros H. destruct (entryOk_parts _ H) as (Hne & Ht & _).
  destruct t as [|c r]; [contradiction|]. exists c, r.
  split; [reflexivity|]. apply (trim_head (c :: r) (r := r)). exact Ht.
Qed.

Lemma entryOk_inner (t : str) :
  entryOk t = true -> forallb innerChar t = true.
Proof.
  intros H. destruct (entryOk_parts _ H) as (_ & _ & Hc).
  rewrite forallb_forall in *. intros c Hin. specialize (Hc c Hin).
  unfold entryChar in Hc. apply andb_true_iff in Hc. tauto.
Qed.

(** One entry after a space. *)
Lemma entriesOf_space_entry (t : str) :
  entryOk t = true -> entriesOf (lit " " ++ t) = [t].
Proof.
  intros H. destruct (entryOk_parts _ H) as (Hne & Ht & Hc).
  unfold entriesOf. rewrite split_chr_nosep.
  - cbn [rev app map]. change (lit " " ++ t) with (N_of_ascii " " :: t).
    rewrite trim_space_cons by reflexivity. rewrite Ht. cbn [filter].
    destruct t; [contradiction|reflexivity].
  - change (lit " " ++ t) with (N_of_ascii " " :: t). cbn [forallb].
    rewrite (entryChar_not_sep _ Hc). reflexivity.
Qed.

Lemma semicolon_not_space : isSpace (N_of_ascii ";") = false.
Proof. reflexivity. Qed.

(** The trimmed new inner text: the old entries, a space, the new entry
    and its semicolon. *)
Lemma trim_newInner (x t : str) :
  entryOk t = true ->
  trim (newInner x t) =
  (if is_empty (trim x) then [] else trim x ++ lit " ") ++ t ++ lit ";".
Proof.
  intros H. destruct (entryOk_head _ H) as (c & r & -> & Hc).
  unfold newInner.
  assert (forall s, trimEnd (s ++ lit ";" ++ lit " ") = s ++ lit ";") as He.
  { intros s. change (s ++ lit ";" ++ lit " ")
      with (s ++ [N_of_ascii ";"] ++ [N_of_ascii " "]).
    rewrite app_assoc, trimEnd_snoc_space by reflexivity.
    apply trimEnd_snoc_nonspace. reflexivity. }
  destruct (trim x) as [|a e] eqn:Ex; cbn [is_empty].
  - unfold trim. change (lit " " ++ (c :: r) ++ lit ";" ++ lit " ")
      with (N_of_ascii " " :: ((c :: r) ++ lit ";" ++ lit " ")).
    rewrite trimStart_space by reflexivity.
    cbn [app]. rewrite trimStart_nonspace by exact Hc.
    apply (He (c :: r)).
  - pose proof (trim_head _ Ex) as Ha. unfold trim.
    cbn [app]. rewrite trimStart_nonspace by exact Ha.
    replace (a :: (e ++ lit " ") ++ c :: r ++ lit ";" ++ lit " ")
      with ((a :: (e ++ lit " ") ++ c :: r) ++ lit ";" ++ lit " ")
      by (cbn [app]; rewrite <- !app_assoc; reflexivity).
    rewrite He. cbn [app]. rewrite <- !app_assoc. reflexivity.
Qed.

(** Appending keeps the entries before it, in order, when the old inner
    text is empty or ends with a semicolon, as every inner text the mutator
    writes does. *)
Lemma entriesOf_newInner (x t : str) :
  entryOk t = true ->
  (trim x = [] \/ exists e, trim x = e ++ lit ";") ->
  entriesOf (trim (newInner x t)) = entriesOf (trim x) ++ [t].
Proof.
  intros H Hx. rewrite (trim_newInner x t H).
  change (t ++ lit ";") with (t ++ N_of_ascii ";" :: []).
  destruct Hx as [->|[e ->]].
  - cbn [is_empty app]. rewrite entriesOf_app_sep, entriesOf_nil, app_nil_r.
    destruct (entryOk_parts _ H) as (Hne & Ht & Hc).
    unfold entriesOf. rewrite split_chr_nosep by (apply entryChar_not_sep, Hc).
    cbn [rev app map filter]. rewrite Ht.
    destruct t; [contradiction|reflexivity].
  - destruct (e ++ lit ";") as [|a e'] eqn:E.
    { destruct e; discriminate E. }
    cbn [is_empty]. rewrite <- E.
    change (e ++ lit ";") with (e ++ N_of_ascii ";" :: []).
    rewrite <- !app_assoc. cbn [app].
    rewrite (entriesOf_app_sep e (lit " " ++ t ++ [N_of_ascii ";"])).
    rewrite (entriesOf_app_sep e []), entriesOf_nil, app_nil_r. f_equal.
    replace (lit " " ++ t ++ [N_of_ascii ";"])
      with ((lit " " ++ t) ++ N_of_ascii ";" :: [])
      by (rewrite <- app_assoc; reflexivity).
    rewrite entriesOf_app_sep, entriesOf_nil, app_nil_r.
    apply entriesOf_space_entry, H.
Qed.

Lemma newInner_inner (x t : str) :
  forallb innerChar x = true -> forallb innerChar t = true ->
  forallb innerChar (newInner x t) = true.
Proof.
  intros Hx Ht. unfold newInner.
  pose proof (forallb_trim innerChar x Hx) as He.
  destruct (is_empty (trim x)); rewrite !forallb_app, ?He, Ht; reflexivity.
Qed.
(** * The mutator in closed form *)

Lemma lit_marker (t : str) :
  lit "[time-logs:: " ++ t ++ lit "; ]" =
  openToken ++ (lit " " ++ t ++ lit ";" ++ lit " ") ++ [N_of_ascii "]"].
Proof.
  change (lit "[time-logs:: ") with (openToken ++ lit " ").
  change (lit "; ]") with (lit ";" ++ lit " " ++ [N_of_ascii "]"]).
  rewrite <- !app_assoc. reflexivity.
Qed.

(** A line with a marker: the new inner text takes the place of the old
    one. *)
Lemma appendTimeLogToLine_marker (line t pre x post : str) :
  findMarker [] line = Some (pre, x, post) ->
  appendTimeLogToLine line t =
  pre ++ openToken ++ newInner x t ++ N_of_ascii "]" :: post.
Proof.
  intros H. unfold appendTimeLogToLine, test, replace.
  rewrite exec_timeLogs, H. cbn [option_map markerMatch m_pre m_post].
  rewrite group_1. f_equal. unfold appendEntry, newInner. fold openToken.
  change (lit " ]") with (lit " " ++ [N_of_ascii "]"]).
  destruct (is_empty (trim x)); rewrite <- !app_assoc; reflexivity.
Qed.

(** A line without a marker: the new marker goes before the first inline
    metadata token, or else at the end. *)
Lemma appendTimeLogToLine_no_marker (line t : str) :
  findMarker [] line = None ->
  appendTimeLogToLine line t =
  let marker := lit "[time-logs:: " ++ t ++ lit "; ]" in
  let idx := findFirstInlineDataviewIndex line in
  if Z.eqb idx (-1) then line ++ padAfter line ++ marker
  else
    let before := firstn (Z.to_nat idx) line in
    let after := skipn (Z.to_nat idx) line in
    before ++ padAfter before ++ marker ++ padBefore after ++ after.
Proof.
  intros H. unfold appendTimeLogToLine, test.
  rewrite exec_timeLogs, H. cbn [option_map]. cbv zeta.
  unfold insertBeforeInlineDataview.
  destruct (Z.eqb (findFirstInlineDataviewIndex line) (-1)); cbn [negb].
  - rewrite separatorAfter_pad. reflexivity.
  - rewrite separatorAfter_pad, separatorBefore_pad. reflexivity.
Qed.

Lemma startsWith_app_weak (p a b : str) :
  startsWith p a = true -> startsWith p (a ++ b) = true.
Proof.
  revert a; induction p as [|x p IH]; intros [|y a]; cbn; try reflexivity;
    try discriminate.
  intros H. apply andb_true_iff in H. destruct H as [-> H].
  apply IH, H.
Qed.

Lemma includes_app_false_l (p a b : str) :
  includes p (a ++ b) = false -> includes p a = false.
Proof.
  induction a as [|c a IH]; cbn [app includes].
  - destruct p; [|reflexivity].
    destruct b; discriminate.
  - intros H. apply orb_false_iff in H. destruct H as [H1 H2].
    apply orb_false_iff. split; [|apply IH, H2].
    destruct (startsWith p (c :: a)) eqn:E; [|reflexivity].
    pose proof (startsWith_app_weak p (c :: a) b E) as E'.
    cbn [app] in E'. rewrite E' in H1. discriminate H1.
Qed.

Lemma includes_app_false_r (p a b : str) :
  includes p (a ++ b) = false -> includes p b = false.
Proof.
  induction a as [|c a IH]; cbn [app]; [auto|].
  cbn [includes]. intros H. apply orb_false_iff in H. apply IH, H.
Qed.

Lemma startsWith_open_snoc_space (a : str) :
  startsWith openToken a = false ->
  startsWith openToken (a ++ lit " ") = false.
Proof.
  intros H. destruct (Nat.lt_ge_cases (length a) 12) as [Hlt|Hge].
  - destruct (startsWith openToken (a ++ lit " ")) eqn:E; [|reflexivity].
    apply startsWith_firstn in E. change (length openToken) with 12 in E.
    exfalso.
    do 12 (destruct a as [|? a]; [cbn in E; discriminate E|]).
    cbn in Hlt. lia.
  - rewrite startsWith_app_long by exact Hge. exact H.
Qed.

Lemma includes_open_snoc_space (a : str) :
  includes openToken a = false ->
  includes openToken (a ++ lit " ") = false.
Proof.
  induction a as [|c a IH]; [reflexivity|].
  cbn [includes]. intros H. apply orb_false_iff in H. destruct H as [H1 H2].
  change ((c :: a) ++ lit " ") with (c :: (a ++ lit " ")).
  cbn [includes].
  change (c :: (a ++ lit " ")) with ((c :: a) ++ lit " ").
  rewrite (startsWith_open_snoc_space _ H1), (IH H2). reflexivity.
Qed.

Lemma includes_open_pad (a : str) :
  includes openToken a = false ->
  includes openToken (a ++ padAfter a) = false.
Proof.
  intros H. unfold padAfter.
  destruct (is_empty a || lastIsSpace a)%bool.
  - rewrite app_nil_r. exact H.
  - apply includes_open_snoc_space, H.
Qed.

Lemma findMarker_no_open (s sn : str) :
  includes openToken s = false -> findMarker sn s = None.
Proof.
  revert sn; induction s as [|c s IH]; intros sn H.
  - reflexivity.
  - cbn [includes] in H. apply orb_false_iff in H. destruct H as [H1 H2].
    cbn [findMarker]. unfold markerAt. rewrite H1. apply IH, H2.
Qed.

(** The first call on a line that holds no open token. *)
Lemma appendTimeLogToLine_fresh (line t : str) :
  includes openToken line = false ->
  exists p q,
    appendTimeLogToLine line t =
      p ++ openToken ++ (lit " " ++ t ++ lit ";" ++ lit " ")
        ++ N_of_ascii "]" :: q /\
    includes openToken p = false /\ includes openToken q = false.
Proof.
  intros H. rewrite appendTimeLogToLine_no_marker
    by (apply findMarker_no_open, H).
  cbv zeta. rewrite lit_marker.
  destruct (Z.eqb (findFirstInlineDataviewIndex line) (-1)).
  - exists (line ++ padAfter line), []. split; [|split].
    + rewrite <- !app_assoc. reflexivity.
    + apply includes_open_pad, H.
    + reflexivity.
  - set (idx := Z.to_nat (findFirstInlineDataviewIndex line)).
    rewrite <- (firstn_skipn idx line) in H.
    pose proof (includes_app_false_l _ _ _ H) as Hb.
    pose proof (includes_app_false_r _ _ _ H) as Ha.
    exists (firstn idx line ++ padAfter (firstn idx line)),
           (padBefore (skipn idx line) ++ skipn idx line).
    split; [|split].
    + rewrite <- !app_assoc. reflexivity.
    + apply includes_open_pad, Hb.
    + unfold padBefore.
      destruct (is_empty (skipn idx line) || firstIsSpace (skipn idx line))%bool;
        [exact Ha|].
      change (lit " " ++ skipn idx line)
        with (N_of_ascii " " :: skipn idx line).
      cbn [includes]. rewrite Ha.
      destruct (skipn idx line); reflexivity.
Qed.

(** * Sequences of mutator calls *)

Lemma newInner_ends (x t : str) :
  entryOk t = true -> exists e, trim (newInner x t) = e ++ lit ";".
Proof.
  intros H. rewrite (trim_newInner x t H).
  exists ((if is_empty (trim x) then [] else trim x ++ lit " ") ++ t).
  rewrite <- app_assoc. reflexivity.
Qed.

Lemma logged_first (line t : str) :
  includes openToken line = false -> entryOk t = true ->
  logged (appendTimeLogToLine line t) [t].
Proof.
  intros Hl Ht.
  destruct (appendTimeLogToLine_fresh line t Hl) as (p & q & E & Hp & Hq).
  exists p, (newInner [] t), q.
  split; [exact E|]. split; [exact Hp|]. split; [exact Hq|].
  split; [apply newInner_inner; [reflexivity|apply entryOk_inner, Ht]|].
  split; [apply newInner_ends, Ht|].
  rewrite entriesOf_newInner; [reflexivity|exact Ht|left; reflexivity].
Qed.

Lemma logged_marker (l : str) (es : list str) :
  logged l es ->
  exists pre inner post,
    findMarker [] l = Some (pre, inner, post) /\
    l = pre ++ openToken ++ inner ++ N_of_ascii "]" :: post /\
    includes openToken pre = false /\
    includes openToken post = false /\
    forallb innerChar inner = true /\
    (exists e, trim inner = e ++ lit ";") /\
    entriesOf (trim inner) = es.
Proof.
  intros (pre & inner & post & -> & Hp & Hq & Hi & He & Hes).
  exists pre, inner, post. split; [|auto 10].
  apply (findMarker_first pre [] inner post Hp Hi).
Qed.

Lemma logged_step (l t : str) (es : list str) :
  logged l es -> entryOk t = true ->
  logged (appendTimeLogToLine l t) (es ++ [t]).
Proof.
  intros Hl Ht.
  destruct (logged_marker Hl)
    as (pre & inner & post & Hm & _ & Hp & Hq & Hi & He & Hes).
  exists pre, (newInner inner t), post.
  split; [apply appendTimeLogToLine_marker, Hm|].
  split; [exact Hp|]. split; [exact Hq|].
  split; [apply newInner_inner; [exact Hi|apply entryOk_inner, Ht]|].
  split; [apply newInner_ends, Ht|].
  rewrite entriesOf_newInner, Hes; [reflexivity|exact Ht|right; exact He].
Qed.

Lemma logged_fold (ts : list str) (l : str) (es : list str) :
  logged l es -> Forall (fun t => entryOk t = true) ts ->
  logged (fold_left appendTimeLogToLine ts l) (es ++ ts).
Proof.
  revert l es; induction ts as [|t ts IH]; intros l es Hl Hts.
  - rewrite app_nil_r. exact Hl.
  - inversion Hts as [|? ? Ht Hts']; subst. cbn [fold_left].
    replace (es ++ t :: ts) with ((es ++ [t]) ++ ts)
      by (rewrite <- app_assoc; reflexivity).
    apply IH; [apply logged_step; assumption|assumption].
Qed.

Lemma exec_timeLogs_Some (l : str) (m : rmatch) :
  exec timeLogsRegex l = Some m ->
  findMarker [] l = Some (m_pre m, group 1 m, m_post m) /\
  m_text m = openToken ++ group 1 m ++ lit "]".
Proof.
  rewrite exec_timeLogs.
  destruct (findMarker [] l) as [[[pre x] post]|]; [|discriminate].
  cbn [option_map markerMatch]. intros [= <-].
  rewrite group_1. auto.
Qed.

(** C3, as the code has it.  On a line that holds no open token, any
    sequence of calls with well-formed entries leaves one marker whose
    entries are the appended ones in call order, with no open token around
    it.  On any line with a marker, a call writes (existing non-empty ?
    existing + space : space) + entry + semicolon + space as the new inner
    text, in place; the marker stays where it was, and the entries before
    are kept in order when the old inner text is empty or ends with a
    semicolon. *)
Theorem appendTimeLogToLine_sequence :
  (forall (line t0 : str) (ts : list str),
     includes openToken line = false ->
     Forall (fun t => entryOk t = true) (t0 :: ts) ->
     exists m,
       exec timeLogsRegex (fold_left appendTimeLogToLine (t0 :: ts) line)
         = Some m /\
       fold_left appendTimeLogToLine (t0 :: ts) line
         = m_pre m ++ m_text m ++ m_post m /\
       entriesOf (trim (group 1 m)) = t0 :: ts /\
       includes openToken (m_pre m) = false /\
       includes openToken (m_post m) = false) /\
  (forall (line t : str) (m : rmatch),
     exec timeLogsRegex line = Some m ->
     line = m_pre m ++ openToken ++ group 1 m ++ lit "]" ++ m_post m /\
     appendTimeLogToLine line t
       = m_pre m ++ openToken ++ newInner (group 1 m) t ++ lit "]"
         ++ m_post m /\
     (forallb innerChar t = true ->
      exec timeLogsRegex (appendTimeLogToLine line t)
        = Some (RMatch (m_pre m)
                  (openToken ++ newInner (group 1 m) t ++ lit "]")
                  (m_post m) [newInner (group 1 m) t])) /\
     (entryOk t = true ->
      trim (group 1 m) = [] \/ (exists e, trim (group 1 m) = e ++ lit ";") ->
      entriesOf (trim (newInner (group 1 m) t))
        = entriesOf (trim (group 1 m)) ++ [t])).
Proof.
  split.
  - intros line t0 ts Hl Hts. inversion Hts as [|? ? Ht0 Hts']; subst.
    cbn [fold_left].
    pose proof (logged_fold (logged_first line t0 Hl Ht0) Hts') as H.
    destruct (logged_marker H)
      as (pre & inner & post & Hm & E & Hp & Hq & _ & _ & Hes).
    exists (markerMatch (pre, inner, post)).
    rewrite exec_timeLogs, Hm. cbn [option_map markerMatch m_pre m_text m_post].
    rewrite group_1. split; [reflexivity|].
    split; [rewrite E at 1; rewrite <- !app_assoc; reflexivity|].
    auto.
  - intros line t m Hm.
    destruct (exec_timeLogs_Some _ Hm) as [Hf Htext].
    destruct (findMarker_Some _ _ Hf) as (a & E & Ha & Hx).
    cbn [rev app] in Ha. subst a.
    split; [exact E|].
    split; [apply appendTimeLogToLine_marker, Hf|].
    split.
    + intros Ht. rewrite (appendTimeLogToLine_marker line t Hf).
      rewrite exec_timeLogs.
      rewrite E in Hf.
      rewrite (@findMarker_replace (m_pre m) [] (group 1 m)
                 (newInner (group 1 m) t) (m_post m) Hf Hx
                 (@newInner_inner (group 1 m) t Hx Ht)).
      reflexivity.
    + intros Ht He. apply entriesOf_newInner; assumption.
Qed.

Lemma appendTimeLogToLine_sequence_witness :
  exists m,
    exec timeLogsRegex
      (fold_left appendTimeLogToLine
         [lit "2025-08-28 -14:32"; lit "2025-08-28 -15:00"]
         (lit "- [ ] Write report")) = Some m /\
    entriesOf (trim (group 1 m))
      = [lit "2025-08-28 -14:32"; lit "2025-08-28 -15:00"].
Proof.
  destruct (proj1 appendTimeLogToLine_sequence
              (lit "- [ ] Write report") (lit "2025-08-28 -14:32")
              [lit "2025-08-28 -15:00"])
    as (m & Hm & _ & He & _).
  - reflexivity.
  - repeat constructor.
  - exists m. split; [exact Hm|exact He].
Defined.

(** C3 as stated fails on a line that has no marker but holds an open
    token without its closing bracket: the appended marker closes it, and
    the one entry found is not the appended timestamp.  It also fails on a
    marker whose inner text does not end with a semicolon: the entry before
    is merged with the appended one. *)
Lemma appendTimeLogToLine_unclosed_open_token :
  containsTimeLogs (lit "x [time-logs:: y") = false /\
  appendTimeLogToLine (lit "x [time-logs:: y") (lit "2025-08-28 -14:32")
    = lit "x [time-logs:: y [time-logs:: 2025-08-28 -14:32; ]" /\
  option_map (fun m => entriesOf (trim (group 1 m)))
    (exec timeLogsRegex
       (appendTimeLogToLine (lit "x [time-logs:: y")
          (lit "2025-08-28 -14:32")))
    = Some [lit "y [time-logs:: 2025-08-28 -14:32"] /\
  option_map (fun m => entriesOf (trim (group 1 m)))
    (exec timeLogsRegex (lit "x [time-logs:: 2025-08-28 -14:32]"))
    = Some [lit "2025-08-28 -14:32"] /\
  option_map (fun m => entriesOf (trim (group 1 m)))
    (exec timeLogsRegex
       (appendTimeLogToLine (lit "x [time-logs:: 2025-08-28 -14:32]")
          (lit "2025-08-28 -15:00")))
    = Some [lit "2025-08-28 -14:32 2025-08-28 -15:00"].
Proof. repeat split; vm_compute; reflexivity. Qed.

(** * The clock *)

Lemma stringOfN_nonempty (n : N) : stringOfN n <> [].
Proof.
  unfold stringOfN, digitsOfUint, NilZero.string_of_uint.
  destruct (N.to_uint n); discriminate.
Qed.

Lemma padStart2_digits (s : str) :
  Forall (fun c => isDigit c = true) s ->
  Forall (fun c => isDigit c = true) (padStart2 s) /\ padStart2 s <> [].
Proof.
  intros H. destruct s as [|a [|b s]]; cbn [padStart2].
  - split; [repeat constructor|discriminate].
  - split; [constructor; [reflexivity|exact H]|discriminate].
  - split; [exact H|discriminate].
Qed.

Lemma timeChar_cases (c : char) :
  timeChar c = true ->
  (48 <= c <= 57)%N \/ c = 45%N \/ c = 58%N \/ c = 32%N.
Proof.
  unfold timeChar, isDigit, in_range, chr_is. intros H.
  repeat (apply orb_true_iff in H; destruct H as [H|H]).
  - apply andb_true_iff in H. destruct H as [H1 H2].
    apply N.leb_le in H1. apply N.leb_le in H2. left. lia.
  - apply N.eqb_eq in H. cbn in H. auto.
  - apply N.eqb_eq in H. cbn in H. auto.
  - apply N.eqb_eq in H. cbn in H. auto.
Qed.

Lemma timeChar_entryChar (c : char) : timeChar c = true -> entryChar c = true.
Proof.
  intros H. apply timeChar_cases in H.
  unfold entryChar, innerChar, isDot, isLineTerminator, chr_is.
  assert (c <> 93 /\ c <> 59 /\ c <> 10 /\ c <> 13 /\ c <> 8232 /\ c <> 8233)%N
    as (H1 & H2 & H3 & H4 & H5 & H6) by lia.
  change (N_of_ascii "]") with 93%N. change (N_of_ascii ";") with 59%N.
  apply N.eqb_neq in H3, H4, H5, H6.
  assert (N.eqb 93 c = false) as -> by (apply N.eqb_neq; lia).
  assert (N.eqb 59 c = false) as -> by (apply N.eqb_neq; lia).
  rewrite H3, H4, H5, H6. reflexivity.
Qed.

Lemma digits_timeChars (s : str) :
  Forall (fun c => isDigit c = true) s -> forallb timeChar s = true.
Proof.
  intros H. apply forallb_forall. rewrite Forall_forall in H.
  intros c Hc. unfold timeChar. rewrite (H c Hc). reflexivity.
Qed.

Lemma digit_not_space (c : char) : isDigit c = true -> isSpace c = false.
Proof.
  unfold isDigit, in_range. intros H. apply andb_true_iff in H.
  destruct H as [H1 H2]. apply N.leb_le in H1. apply N.leb_le in H2.
  unfold isSpace, in_range.
  repeat (apply orb_false_iff; split);
    try (apply N.eqb_neq; lia);
    apply andb_false_iff;
    (left; apply N.leb_gt; lia) || (right; apply N.leb_gt; lia).
Qed.

Lemma stringOfZ_timeChars (z : Z) :
  forallb timeChar (stringOfZ z) = true /\
  exists c r, stringOfZ z = c :: r /\ isSpace c = false.
Proof.
  assert (forall n, exists c r, stringOfN n = c :: r /\ isSpace c = false)
    as Hhead.
  { intros n. pose proof (stringOfN_digits n) as Hd.
    pose proof (stringOfN_nonempty n) as Hne.
    destruct (stringOfN n) as [|c r]; [contradiction|].
    exists c, r. split; [reflexivity|].
    inversion Hd as [|? ? Hc _]; subst. apply digit_not_space, Hc. }
  destruct z as [|p|p]; cbn [stringOfZ].
  - split; [apply digits_timeChars, stringOfN_digits|apply Hhead].
  - split; [apply digits_timeChars, stringOfN_digits|apply Hhead].
  - split.
    + cbn [forallb]. rewrite (digits_timeChars (stringOfN_digits _)).
      reflexivity.
    + exists (N_of_ascii "-"), (stringOfN (N.pos p)). auto.
Qed.

Lemma trim_id (s r r' : str) (c d : char) :
  s = c :: r -> s = r' ++ [d] -> isSpace c = false -> isSpace d = false ->
  trim s = s.
Proof.
  intros E1 E2 Hc Hd. unfold trim. rewrite E1 at 1.
  rewrite trimStart_nonspace by exact Hc. rewrite <- E1, E2.
  apply trimEnd_snoc_nonspace, Hd.
Qed.

(** Every reading of the clock is a well-formed entry. *)
Lemma getCurrentFormattedTime_entryOk (now : Date) :
  entryOk (getCurrentFormattedTime now) = true.
Proof.
  unfold getCurrentFormattedTime. cbv zeta.
  destruct (stringOfZ_timeChars (getFullYear now)) as (Hy & cy & ry & Ey & Hcy).
  destruct (padStart2_digits (stringOfN_digits (getMonth now + 1)))
    as [Hmo _].
  destruct (padStart2_digits (stringOfN_digits (getDate now))) as [Hda _].
  destruct (padStart2_digits (stringOfN_digits (getHours now))) as [Hho _].
  destruct (padStart2_digits (stringOfN_digits (getMinutes now)))
    as [Hmi Hne].
  set (month := padStart2 (stringOfN (getMonth now + 1))) in *.
  set (day := padStart2 (stringOfN (getDate now))) in *.
  set (hours := padStart2 (stringOfN (getHours now))) in *.
  set (minutes := padStart2 (stringOfN (getMinutes now))) in *.
  destruct (exists_last Hne) as (rm & dm & Em).
  assert (isDigit dm = true) as Hdm.
  { rewrite Forall_forall in Hmi. apply Hmi. rewrite Em.
    apply in_or_app. right. left. reflexivity. }
  unfold entryOk. apply andb_true_iff. split; [apply andb_true_iff; split|].
  - rewrite Ey. reflexivity.
  - apply str_eqb_eq.
    apply trim_id
      with (r := ry ++ lit "-" ++ month ++ lit "-" ++ day ++ lit " -"
                 ++ hours ++ lit ":" ++ minutes)
           (r' := stringOfZ (getFullYear now) ++ lit "-" ++ month
                  ++ lit "-" ++ day ++ lit " -" ++ hours ++ lit ":" ++ rm)
           (c := cy) (d := dm).
    + rewrite Ey. reflexivity.
    + rewrite Em. rewrite <- !app_assoc. reflexivity.
    + exact Hcy.
    + apply digit_not_space, Hdm.
  - apply forallb_forall. intros c Hc. apply timeChar_entryChar.
    revert c Hc. apply forallb_forall.
    rewrite !forallb_app, Hy,
      (digits_timeChars Hmo), (digits_timeChars Hda),
      (digits_timeChars Hho), (digits_timeChars Hmi).
    reflexivity.
Qed.

(** * Splitting into lines *)

Lemma match_here_lineBreak (sn rs : str) :
  match_here lineBreakRegex sn rs =
  match rs with
  | c :: rs' =>
      if N.eqb c LF then Some (RMatch (rev sn) [c] rs' [])
      else if N.eqb c CR then
        match rs' with
        | c' :: rs'' =>
            if N.eqb c' LF then Some (RMatch (rev sn) [c; c'] rs'' [])
            else None
        | [] => None
        end
      else None
  | [] => None
  end.
Proof.
  unfold match_here, lineBreakRegex.
  destruct rs as [|c rs]; [reflexivity|].
  cbn [run rest seen caps]. rewrite (N.eqb_sym CR c).
  destruct (N.eqb c CR) eqn:E2.
  - apply N.eqb_eq in E2. subst c. change (N.eqb CR LF) with false.
    cbn [app flat_map rest seen caps]. change (N.eqb LF CR) with false.
    rewrite app_nil_r.
    destruct rs as [|c' rs]; [reflexivity|].
    rewrite (N.eqb_sym LF c').
    destruct (N.eqb c' LF); cbn [app rest caps length]; [|reflexivity].
    replace (S (S (length rs)) - length rs) with 2 by lia. reflexivity.
  - cbn [app flat_map rest seen caps]. rewrite (N.eqb_sym LF c).
    destruct (N.eqb c LF); cbn [app rest caps length]; [|reflexivity].
    replace (S (length rs) - length rs) with 1 by lia. reflexivity.
Qed.

Lemma split_go_lineBreak (n : nat) :
  forall rs sn cur, length rs <= n ->
    split_go lineBreakRegex sn cur 0 rs = splitLines cur rs.
Proof.
  induction n as [n IH] using lt_wf_ind. intros rs sn cur Hn.
  destruct rs as [|c rs]; [reflexivity|].
  cbn [split_go splitLines]. rewrite match_here_lineBreak.
  cbn [length] in Hn.
  destruct (N.eqb c LF).
  - cbn [m_text length]. f_equal. apply (IH (n - 1)); lia.
  - destruct (N.eqb c CR).
    + destruct rs as [|c' rs].
      * reflexivity.
      * destruct (N.eqb c' LF).
        -- cbn [m_text length split_go]. f_equal.
           cbn [length] in Hn. apply (IH (n - 2)); lia.
        -- apply (IH (n - 1)); cbn [length] in *; lia.
    + apply (IH (n - 1)); lia.
Qed.

Lemma split_lineBreak (s : str) : split lineBreakRegex s = splitLines [] s.
Proof.
  destruct s as [|c s]; [reflexivity|].
  unfold split. apply (split_go_lineBreak (n := length (c :: s))).
  constructor.
Qed.

Lemma stripCR_cons (c : char) (l : str) :
  l <> [] -> stripCR (c :: l) = c :: stripCR l.
Proof. destruct l; [contradiction|reflexivity]. Qed.

Lemma stripCR_app (a b : str) : b <> [] -> stripCR (a ++ b) = a ++ stripCR b.
Proof.
  intros Hb. induction a as [|c a IH]; [reflexivity|].
  cbn [app]. rewrite stripCR_cons, IH; [reflexivity|].
  destruct a; [exact Hb|discriminate].
Qed.

(** A line, as far as its line feed. *)
Lemma splitLines_line (l rest cur : str) :
  noLF l = true ->
  splitLines cur (l ++ LF :: rest)
  = (rev cur ++ stripCR l) :: splitLines [] rest.
Proof.
  revert cur; induction l as [|c l IH]; intros cur H.
  - cbn [app splitLines stripCR]. rewrite N.eqb_refl, app_nil_r. reflexivity.
  - cbn [noLF forallb] in H. apply andb_true_iff in H. destruct H as [Hc Hl].
    apply negb_true_iff in Hc. cbn [app splitLines]. rewrite Hc.
    destruct l as [|c' l].
    + cbn [app stripCR]. rewrite N.eqb_refl.
      destruct (N.eqb c CR).
      * rewrite app_nil_r. reflexivity.
      * cbn [splitLines]. rewrite N.eqb_refl. reflexivity.
    + assert (N.eqb c' LF = false) as Hc'.
      { cbn [forallb] in Hl. apply andb_true_iff in Hl.
        destruct Hl as [Hl _]. apply negb_true_iff in Hl. exact Hl. }
      cbn [app]. rewrite Hc'.
      assert (splitLines (c :: cur) ((c' :: l) ++ LF :: rest)
              = (rev cur ++ stripCR (c :: c' :: l)) :: splitLines [] rest)
        as E.
      { rewrite (IH (c :: cur) Hl). cbn [rev].
        rewrite <- app_assoc.
        rewrite (@stripCR_cons c (c' :: l)) by discriminate. reflexivity. }
      destruct (N.eqb c CR); exact E.
Qed.

(** The last line. *)
Lemma splitLines_last (l cur : str) :
  noLF l = true -> splitLines cur l = [rev cur ++ l].
Proof.
  revert cur; induction l as [|c l IH]; intros cur H.
  - cbn [splitLines]. rewrite app_nil_r. reflexivity.
  - cbn [noLF forallb] in H. apply andb_true_iff in H. destruct H as [Hc Hl].
    apply negb_true_iff in Hc. cbn [splitLines]. rewrite Hc.
    assert (splitLines (c :: cur) l = [rev cur ++ c :: l]) as E.
    { rewrite (IH (c :: cur) Hl). cbn [rev]. rewrite <- app_assoc.
      reflexivity. }
    destruct (N.eqb c CR); [|exact E].
    destruct l as [|c' l]; [exact E|].
    cbn [forallb] in Hl. apply andb_true_iff in Hl.
    destruct Hl as [Hc' _]. apply negb_true_iff in Hc'. rewrite Hc'.
    exact E.
Qed.

(** Joining lines with a line feed and splitting again gives the lines
    back, each but the last without a final carriage return. *)
Lemma splitLines_join (ls : list str) :
  ls <> [] -> Forall (fun l => noLF l = true) ls ->
  splitLines [] (join [LF] ls)
  = map stripCR (removelast ls) ++ [last ls []].
Proof.
  induction ls as [|l ls IH]; [contradiction|]. intros _ H.
  inversion H as [|? ? Hl Hls]; subst.
  destruct ls as [|l2 ls].
  - cbn [join removelast map last app]. apply (splitLines_last l [] Hl).
  - change (join [LF] (l :: l2 :: ls))
      with (l ++ LF :: join [LF] (l2 :: ls)).
    rewrite (splitLines_line l _ [] Hl).
    rewrite IH by (discriminate || exact Hls). reflexivity.
Qed.

Lemma splitLines_noLF (s cur : str) :
  noLF cur = true -> Forall (fun l => noLF l = true) (splitLines cur s).
Proof.
  revert cur.
  induction s as [s IH] using (induction_ltof1 _ (@length N)).
  unfold ltof in IH. intros cur Hcur.
  assert (noLF (rev cur) = true) as Hrev.
  { unfold noLF in *. rewrite forallb_forall in *. intros c Hc.
    apply Hcur. apply in_rev. exact Hc. }
  destruct s as [|c s]; cbn [splitLines].
  - constructor; [exact Hrev|constructor].
  - destruct (N.eqb c LF) eqn:E1.
    + constructor; [exact Hrev|]. apply IH; [cbn; lia|reflexivity].
    + assert (noLF (c :: cur) = true) as Hc.
      { unfold noLF in *. cbn [forallb]. rewrite E1, Hcur. reflexivity. }
      destruct (N.eqb c CR).
      * destruct s as [|c' s]; [apply IH; [cbn; lia|exact Hc]|].
        destruct (N.eqb c' LF).
        -- constructor; [exact Hrev|]. apply IH; [cbn; lia|reflexivity].
        -- apply IH; [cbn; lia|exact Hc].
      * apply IH; [cbn; lia|exact Hc].
Qed.

(** * The task line patterns in closed form *)

Arguments isSpace : simpl never.

Lemma test_Bol (r : regex) (s : str) :
  test (Bol >> r) s = nonEmpty (run r (MState [] s [])).
Proof.
  unfold test. rewrite exec_Bol. unfold match_here. rewrite run_Bol_start.
  destruct (run r (MState [] s [])); reflexivity.
Qed.

(** Greedy white space before a character that is not white space: the
    only way on is after all of it. *)
Lemma run_spaces_then (q : char -> bool) (r : regex) (rs sn : str)
  (cs : list str) :
  (forall c, q c = true -> isSpace c = false) ->
  run (Star (Cls isSpace) >> Cls q >> r) (MState sn rs cs) =
  run (Cls q >> r) (MState (rev (leadingSpaces rs) ++ sn) (trimStart rs) cs).
Proof.
  intros Hq. revert sn; induction rs as [|c rs IH]; intros sn.
  - reflexivity.
  - rewrite run_Seq, run_Star_Cls_cons, flat_map_app, flat_map_one.
    cbn [leadingSpaces trimStart].
    destruct (isSpace c) eqn:Ec.
    + rewrite <- run_Seq, IH. cbn [rev]. rewrite <- app_assoc.
      assert (run (Cls q >> r) (MState sn (c :: rs) cs) = []) as ->.
      { rewrite run_Seq. cbn [run rest].
        destruct (q c) eqn:Eq; [|reflexivity].
        rewrite (Hq c Eq) in Ec. discriminate Ec. }
      apply app_nil_r.
    + reflexivity.
Qed.

Lemma run_Cls_cons (p : char -> bool) (r : regex) (c : char) (rs sn : str)
  (cs : list str) :
  run (Cls p >> r) (MState sn (c :: rs) cs) =
  if p c then run r (MState (c :: sn) rs cs) else [].
Proof.
  rewrite run_Seq. cbn [run rest seen caps].
  destruct (p c); [apply flat_map_one|reflexivity].
Qed.

Lemma run_Cls_nil (p : char -> bool) (r : regex) (sn : str) (cs : list str) :
  run (Cls p >> r) (MState sn [] cs) = [].
Proof. reflexivity. Qed.

Lemma run_Cls_last (p : char -> bool) (rs sn : str) (cs : list str) :
  nonEmpty (run (Cls p) (MState sn rs cs)) = hasPrefix [p] rs.
Proof.
  destruct rs as [|c rs]; [reflexivity|]. cbn [run rest hasPrefix].
  destruct (p c); reflexivity.
Qed.

Lemma dash_not_space (c : char) : chr_is "-" c = true -> isSpace c = false.
Proof. unfold chr_is. intros H. apply N.eqb_eq in H. subst c. reflexivity. Qed.

Lemma bracket_not_space (c : char) :
  chr_is "]" c = true -> isSpace c = false.
Proof. unfold chr_is. intros H. apply N.eqb_eq in H. subst c. reflexivity. Qed.

Lemma xX_not_space (c : char) : isXx c = true -> isSpace c = false.
Proof.
  unfold isXx, chr_is. intros H. apply orb_true_iff in H.
  destruct H as [H|H]; apply N.eqb_eq in H; subst c; reflexivity.
Qed.

Lemma isUncheckedTaskLine_closed (s : str) :
  isUncheckedTaskLine s = uncheckedLine s.
Proof.
  unfold isUncheckedTaskLine, uncheckedRegex, uncheckedLine, Chr.
  rewrite test_Bol, run_spaces_then by exact dash_not_space.
  generalize (rev (leadingSpaces s) ++ []). generalize (trimStart s).
  intros rs sn.
  do 5 (destruct rs as [|? rs];
        [reflexivity|rewrite run_Cls_cons; cbn [hasPrefix];
         match goal with |- context [if ?b then _ else _] =>
           destruct b; [|reflexivity] end]).
  apply run_Cls_last.
Qed.

Lemma isCheckedTaskLine_closed (s : str) :
  isCheckedTaskLine s = checkedLine s.
Proof.
  unfold isCheckedTaskLine, checkedRegex, checkedLine, Chr.
  rewrite test_Bol, run_spaces_then by exact dash_not_space.
  generalize (rev (leadingSpaces s) ++ []). generalize (trimStart s).
  intros rs sn.
  destruct rs as [|a rs]; [reflexivity|]. rewrite run_Cls_cons.
  destruct rs as [|b rs]; [destruct (chr_is "-" a); reflexivity|].
  destruct rs as [|c rs].
  { destruct (chr_is "-" a); [|reflexivity]. rewrite run_Cls_cons.
    destruct (isSpace b); reflexivity. }
  destruct (chr_is "-" a); [|reflexivity]. rewrite run_Cls_cons.
  destruct (isSpace b); [|reflexivity]. rewrite run_Cls_cons.
  destruct (chr_is "[" c); [|reflexivity].
  cbn [andb]. rewrite run_spaces_then by exact xX_not_space.
  generalize (rev (leadingSpaces rs) ++ c :: b :: a :: sn).
  intros sn'. destruct (trimStart rs) as [|x after]; [reflexivity|].
  rewrite run_Cls_cons. destruct (isXx x); [|reflexivity].
  rewrite run_spaces_then by exact bracket_not_space.
  generalize (rev (leadingSpaces after) ++ x :: sn').
  generalize (trimStart after). intros rs' sn''.
  destruct rs' as [|e rs']; [reflexivity|]. rewrite run_Cls_cons.
  cbn [hasPrefix]. destruct (chr_is "]" e); [|reflexivity].
  apply run_Cls_last.
Qed.
(** * Facts about single lines *)

Lemma trimStart_app (s x r : str) (c : char) :
  trimStart s = c :: r -> trimStart (s ++ x) = c :: r ++ x.
Proof.
  induction s as [|a s IH]; [discriminate|]. cbn [app trimStart].
  destruct (isSpace a); [exact IH|]. intros [= <- <-]. reflexivity.
Qed.

(** A line is not both an unchecked and a checked task line. *)
Lemma unchecked_not_checked (s : str) :
  isUncheckedTaskLine s = true -> isCheckedTaskLine s = false.
Proof.
  rewrite isUncheckedTaskLine_closed, isCheckedTaskLine_closed.
  unfold uncheckedLine, checkedLine.
  destruct (trimStart s) as [|a [|b [|c [|d [|e rs]]]]];
    cbn [hasPrefix]; intros H;
    try discriminate H;
    repeat match type of H with
    | context [if ?b then _ else _] =>
        let E := fresh "E" in destruct b eqn:E; try discriminate H
    end.
  match goal with
  | Hd : isSpace d = true, He : chr_is "]" e = true |- _ =>
      cbn [andb]; rewrite trimStart_space by exact Hd;
      rewrite trimStart_nonspace by (apply bracket_not_space, He);
      apply N.eqb_eq in He; subst e; reflexivity
  end.
Qed.

(** A checked task line stays one when text is added at its end. *)
Lemma checked_app (s x : str) :
  isCheckedTaskLine s = true -> isCheckedTaskLine (s ++ x) = true.
Proof.
  rewrite !isCheckedTaskLine_closed. unfold checkedLine.
  destruct (trimStart s) as [|a [|b [|c inside]]] eqn:E1; try discriminate.
  rewrite (trimStart_app s x E1). cbn [app].
  destruct (chr_is "-" a && isSpace b && chr_is "[" c)%bool;
    [|discriminate]. cbn [andb].
  destruct (trimStart inside) as [|x0 after] eqn:E2; [discriminate|].
  rewrite (trimStart_app inside x E2).
  destruct (isXx x0); [|discriminate]. cbn [andb].
  destruct (trimStart after) as [|e [|f rest']] eqn:E3; try discriminate.
  - cbn [hasPrefix]. destruct (chr_is "]" e); discriminate.
  - rewrite (trimStart_app after x E3). cbn [app hasPrefix]. auto.
Qed.

Lemma stripCR_prefix (l : str) : l = stripCR l \/ l = stripCR l ++ [CR].
Proof.
  induction l as [|c l IH]; [left; reflexivity|].
  destruct l as [|c' l].
  - cbn [stripCR]. destruct (N.eqb c CR) eqn:E.
    + apply N.eqb_eq in E. subst c. right. reflexivity.
    + left. reflexivity.
  - rewrite stripCR_cons by discriminate.
    destruct IH as [IH|IH]; [left|right]; cbn [app]; f_equal; exact IH.
Qed.

Lemma stripCR_bracket (post : str) :
  exists post', stripCR (N_of_ascii "]" :: post) = N_of_ascii "]" :: post'.
Proof.
  destruct post as [|c post].
  - exists []. reflexivity.
  - exists (stripCR (c :: post)). apply stripCR_cons. discriminate.
Qed.

Lemma marker_shape (a t b : str) :
  a ++ (lit "[time-logs:: " ++ t ++ lit "; ]") ++ b =
  a ++ openToken ++ (lit " " ++ t ++ lit ";" ++ lit " ")
    ++ N_of_ascii "]" :: b.
Proof. rewrite lit_marker, <- !app_assoc. reflexivity. Qed.

Lemma containsTimeLogs_marker (p x q : str) :
  forallb innerChar x = true ->
  containsTimeLogs (p ++ openToken ++ x ++ N_of_ascii "]" :: q) = true.
Proof.
  intros Hx. rewrite containsTimeLogs_findMarker.
  pose proof (findMarker_exists p [] x q Hx) as H.
  destruct (findMarker [] (p ++ openToken ++ x ++ N_of_ascii "]" :: q));
    [reflexivity|contradiction].
Qed.

(** A marker does not reach into a final carriage return. *)
Lemma containsTimeLogs_stripCR (l : str) :
  containsTimeLogs l = true -> containsTimeLogs (stripCR l) = true.
Proof.
  rewrite (containsTimeLogs_findMarker l).
  destruct (findMarker [] l) as [[[pre x] post]|] eqn:E; [|discriminate].
  intros _. destruct (findMarker_Some _ _ E) as (a & -> & _ & Hx).
  rewrite !stripCR_app by (destruct x; discriminate || (cbn; discriminate)).
  destruct (stripCR_bracket post) as [post' ->].
  apply containsTimeLogs_marker, Hx.
Qed.

(** After a call the line has a marker. *)
Lemma appendTimeLogToLine_contains (line t : str) :
  forallb innerChar t = true ->
  containsTimeLogs (appendTimeLogToLine line t) = true.
Proof.
  intros Ht.
  destruct (findMarker [] line) as [[[pre x] post]|] eqn:E.
  - rewrite (appendTimeLogToLine_marker line t E).
    destruct (findMarker_Some _ _ E) as (_ & _ & _ & Hx).
    apply containsTimeLogs_marker, newInner_inner; assumption.
  - rewrite (appendTimeLogToLine_no_marker line t E). cbv zeta.
    assert (forallb innerChar (lit " " ++ t ++ lit ";" ++ lit " ") = true)
      as Hx by (rewrite !forallb_app, Ht; reflexivity).
    destruct (Z.eqb _ _).
    + replace (line ++ padAfter line ++ lit "[time-logs:: " ++ t ++ lit "; ]")
        with ((line ++ padAfter line)
              ++ (lit "[time-logs:: " ++ t ++ lit "; ]") ++ [])
        by (rewrite app_nil_r, <- app_assoc; reflexivity).
      rewrite marker_shape. apply containsTimeLogs_marker, Hx.
    + match goal with
      | |- containsTimeLogs (?b ++ ?pa ++ ?m ++ ?pb ++ ?a) = true =>
          replace (b ++ pa ++ m ++ pb ++ a) with ((b ++ pa) ++ m ++ pb ++ a)
            by (rewrite <- !app_assoc; reflexivity)
      end.
      rewrite marker_shape. apply containsTimeLogs_marker, Hx.
Qed.

Lemma innerChar_noLF (t : str) : forallb innerChar t = true -> noLF t = true.
Proof.
  unfold noLF. intros H. rewrite forallb_forall in *. intros c Hc.
  specialize (H c Hc). unfold innerChar, isDot, isLineTerminator in H.
  apply andb_true_iff in H. destruct H as [_ H].
  apply negb_true_iff in H. apply negb_true_iff.
  apply orb_false_iff in H. destruct H as [H _].
  apply orb_false_iff in H. destruct H as [H _].
  apply orb_false_iff in H. destruct H as [H _]. exact H.
Qed.

(** The transform writes no line feed into a line without a marker. *)
Lemma appendTimeLogToLine_noLF (line t : str) :
  findMarker [] line = None ->
  noLF line = true -> forallb innerChar t = true ->
  noLF (appendTimeLogToLine line t) = true.
Proof.
  intros E Hl Ht. rewrite (appendTimeLogToLine_no_marker line t E).
  cbv zeta. pose proof (innerChar_noLF t Ht) as Hn. unfold noLF in *.
  assert (forall a, forallb (fun c => negb (N.eqb c LF)) (padAfter a) = true)
    as Hpa by (intros a; unfold padAfter; destruct (_ || _)%bool; reflexivity).
  assert (forall a, forallb (fun c => negb (N.eqb c LF)) (padBefore a) = true)
    as Hpb by (intros a; unfold padBefore; destruct (_ || _)%bool; reflexivity).
  destruct (Z.eqb _ _).
  - rewrite !forallb_app, Hl, Hpa, Hn. reflexivity.
  - rewrite <- (firstn_skipn (Z.to_nat (findFirstInlineDataviewIndex line))
                  line) in Hl.
    rewrite forallb_app in Hl. apply andb_true_iff in Hl.
    destruct Hl as [Hb Ha].
    rewrite !forallb_app, Hb, Ha, Hpa, Hpb, Hn. reflexivity.
Qed.

(** * The auto-detection transform *)

Lemma completes_differ (before after : str) :
  completes before after = true -> str_eqb before after = false.
Proof.
  unfold completes. intros H.
  apply andb_true_iff in H. destruct H as [H _].
  apply andb_true_iff in H. destruct H as [Hu Hc].
  destruct (str_eqb before after) eqn:E; [|reflexivity].
  apply str_eqb_eq in E. subst after.
  rewrite (unchecked_not_checked before Hu) in Hc. discriminate Hc.
Qed.

(** The loop of the source computes the specification's lines and tells
    whether some line completes. *)
Lemma doneTasksLoop_spec (clock : nat -> Date) (prev curr : list str)
  (i : nat) :
  doneTasksLoop clock i prev curr =
  (mutateLines clock i prev curr, anyCompletes prev curr).
Proof.
  revert curr i; induction prev as [|b ps IH]; intros [|a cs] i;
    try reflexivity.
  cbn [doneTasksLoop mutateLines anyCompletes]. rewrite IH.
  fold (completes b a).
  destruct (completes b a) eqn:Ec.
  - rewrite (completes_differ b a Ec). reflexivity.
  - destruct (str_eqb b a); reflexivity.
Qed.

Lemma anyCompletes_true (prev curr : list str) :
  anyCompletes prev curr = true <->
  exists i b a, nth_error prev i = Some b /\ nth_error curr i = Some a /\
                completes b a = true.
Proof.
  revert curr; induction prev as [|b ps IH]; intros [|a cs];
    cbn [anyCompletes].
  - split; [discriminate|]. intros ([|i] & ? & ? & H & _); discriminate H.
  - split; [discriminate|]. intros ([|i] & ? & ? & H & _); discriminate H.
  - split; [discriminate|].
    intros ([|i] & ? & ? & _ & H & _); discriminate H.
  - rewrite orb_true_iff, IH. split.
    + intros [H|(i & b' & a' & H)].
      * exists 0, b, a. auto.
      * exists (S i), b', a'. exact H.
    + intros ([|i] & b' & a' & Hb & Ha & H); cbn [nth_error] in *.
      * injection Hb as <-. injection Ha as <-. left. exact H.
      * right. exists i, b', a'. auto.
Qed.

Lemma mutateLines_length (clock : nat -> Date) (prev curr : list str)
  (i : nat) :
  length (mutateLines clock i prev curr) = length curr.
Proof.
  revert curr i; induction prev as [|b ps IH]; intros [|a cs] i;
    try reflexivity.
  cbn [mutateLines length]. rewrite IH. reflexivity.
Qed.

(** Which lines the loop changes, and into what. *)
Lemma mutateLines_nth (clock : nat -> Date) (prev curr : list str)
  (i j : nat) :
  nth_error (mutateLines clock i prev curr) j =
  match nth_error prev j, nth_error curr j with
  | Some b, Some a =>
      Some (if completes b a
            then appendTimeLogToLine a (getCurrentFormattedTime (clock (i + j)))
            else a)
  | _, other => other
  end.
Proof.
  revert curr i j; induction prev as [|b ps IH]; intros [|a cs] i j;
    cbn [mutateLines].
  - destruct j; reflexivity.
  - destruct j; reflexivity.
  - destruct j; cbn [nth_error]; [reflexivity|].
    destruct (nth_error ps j); reflexivity.
  - destruct j as [|j]; cbn [nth_error].
    + rewrite Nat.add_0_r. reflexivity.
    + rewrite IH, Nat.add_succ_r. reflexivity.
Qed.

Lemma clock_inner (now : Date) :
  forallb innerChar (getCurrentFormattedTime now) = true.
Proof. apply entryOk_inner, getCurrentFormattedTime_entryOk. Qed.

Lemma mutateLines_noLF (clock : nat -> Date) (prev curr : list str)
  (i : nat) :
  Forall (fun l => noLF l = true) curr ->
  Forall (fun l => noLF l = true) (mutateLines clock i prev curr).
Proof.
  revert curr i; induction prev as [|b ps IH]; intros [|a cs] i H;
    cbn [mutateLines]; try exact H.
  inversion H as [|? ? Ha Hcs]; subst. constructor; [|apply IH, Hcs].
  destruct (completes b a) eqn:Ec; [|exact Ha].
  apply appendTimeLogToLine_noLF; [|exact Ha|apply clock_inner].
  unfold completes in Ec. apply andb_true_iff in Ec. destruct Ec as [_ Ec].
  apply negb_true_iff in Ec. rewrite containsTimeLogs_findMarker in Ec.
  destruct (findMarker [] a); [discriminate Ec|reflexivity].
Qed.

Lemma splitLines_nonempty (s cur : str) : splitLines cur s <> [].
Proof.
  revert cur; induction s as [|c s IH]; intros cur; cbn [splitLines].
  - discriminate.
  - destruct (N.eqb c LF); [discriminate|].
    destruct (N.eqb c CR); [|apply IH].
    destruct s as [|c' s]; [apply IH|].
    destruct (N.eqb c' LF); [discriminate|apply IH].
Qed.

(** A line that does not complete does not complete either without its
    final carriage return, and a logged line never completes. *)
Lemma completes_stripCR (b a : str) :
  completes b a = false -> completes b (stripCR a) = false.
Proof.
  intros H. destruct (completes b (stripCR a)) eqn:E; [|reflexivity].
  unfold completes in *.
  apply andb_true_iff in E. destruct E as [E Em].
  apply andb_true_iff in E. destruct E as [Eu Ec].
  apply negb_true_iff in Em.
  rewrite Eu in H.
  assert (isCheckedTaskLine a = true) as Hc.
  { destruct (stripCR_prefix a) as [Ha|Ha]; rewrite Ha;
      [exact Ec|apply checked_app, Ec]. }
  assert (containsTimeLogs a = false) as Hm.
  { destruct (containsTimeLogs a) eqn:Ea; [|reflexivity].
    rewrite (containsTimeLogs_stripCR a Ea) in Em. discriminate Em. }
  rewrite Hc, Hm in H. discriminate H.
Qed.

Lemma completes_logged (b a : str) :
  containsTimeLogs a = true -> completes b a = false.
Proof.
  intros H. unfold completes. rewrite H. cbn [negb].
  apply andb_false_r.
Qed.

Lemma mutateLines_quiet (clock : nat -> Date) (prev curr out2 : list str)
  (i : nat) :
  Forall2 (fun o o2 => o2 = o \/ o2 = stripCR o)
          (mutateLines clock i prev curr) out2 ->
  anyCompletes prev out2 = false.
Proof.
  revert curr out2 i; induction prev as [|b ps IH]; intros curr out2 i H;
    [reflexivity|].
  destruct curr as [|a cs]; cbn [mutateLines] in H.
  - inversion H; subst. reflexivity.
  - inversion H as [|o o2 rest rest2 Ho Hrest]; subst.
    cbn [anyCompletes]. rewrite (IH _ _ _ Hrest), orb_false_r.
    destruct (completes b a) eqn:Ec.
    + pose proof (appendTimeLogToLine_contains a _
                    (clock_inner (clock i))) as Hm.
      destruct Ho as [->| ->]; apply completes_logged;
        [exact Hm|apply containsTimeLogs_stripCR, Hm].
    + destruct Ho as [->| ->]; [exact Ec|apply completes_stripCR, Ec].
Qed.

Lemma rejoin_related (out : list str) :
  out <> [] ->
  Forall2 (fun o o2 => o2 = o \/ o2 = stripCR o) out
          (map stripCR (removelast out) ++ [last out []]).
Proof.
  induction out as [|o out IH]; [contradiction|]. intros _.
  destruct out as [|o' out].
  - cbn. constructor; [left; reflexivity|constructor].
  - change (removelast (o :: o' :: out)) with (o :: removelast (o' :: out)).
    change (last (o :: o' :: out) []) with (last (o' :: out) []).
    cbn [map app]. constructor; [right; reflexivity|].
    apply IH. discriminate.
Qed.
Lemma completes_iff (b a : str) :
  completes b a = true <->
  isUncheckedTaskLine b = true /\ isCheckedTaskLine a = true /\
  containsTimeLogs a = false.
Proof.
  unfold completes. rewrite !andb_true_iff, negb_true_iff. tauto.
Qed.

Lemma addTimeLogForDoneTasks_closed (clock : nat -> Date)
  (previousContent newContent : str) :
  addTimeLogForDoneTasks clock previousContent newContent =
  if anyCompletes (splitLines [] previousContent) (splitLines [] newContent)
  then join [LF] (mutateLines clock 0 (splitLines [] previousContent)
                    (splitLines [] newContent))
  else newContent.
Proof.
  unfold addTimeLogForDoneTasks.
  rewrite !split_lineBreak, doneTasksLoop_spec. reflexivity.
Qed.

(** Running the transform on its own result changes nothing. *)
Lemma addTimeLogForDoneTasks_again (clock clock' : nat -> Date)
  (previousContent newContent : str) :
  addTimeLogForDoneTasks clock' previousContent
    (addTimeLogForDoneTasks clock previousContent newContent)
  = addTimeLogForDoneTasks clock previousContent newContent.
Proof.
  rewrite (addTimeLogForDoneTasks_closed clock previousContent newContent).
  set (p := splitLines [] previousContent).
  set (c := splitLines [] newContent).
  destruct (anyCompletes p c) eqn:E.
  - set (out := mutateLines clock 0 p c).
    rewrite addTimeLogForDoneTasks_closed. fold p.
    assert (out <> []) as Hne.
    { intros H. apply (f_equal (@length _)) in H. unfold out in H.
      rewrite mutateLines_length in H.
      pose proof (splitLines_nonempty newContent []) as Hc. fold c in Hc.
      destruct c; [contradiction|discriminate H]. }
    assert (Forall (fun l => noLF l = true) out) as Hlf.
    { apply mutateLines_noLF, splitLines_noLF. reflexivity. }
    rewrite (splitLines_join Hne Hlf).
    rewrite (mutateLines_quiet clock p c 0 (rejoin_related Hne)).
    reflexivity.
  - rewrite addTimeLogForDoneTasks_closed. fold p. fold c. rewrite E.
    reflexivity.
Qed.

(** C4: the loop changes line [i] only when the previous line [i] is an
    unchecked task line, the new line [i] is a checked task line and holds
    no marker, and then it logs it; a line with a marker is never changed;
    lines from the shorter of the two line counts on are not looked at; and
    running the transform again on its result changes nothing. *)
Theorem addTimeLogForDoneTasks_transition (clock : nat -> Date)
  (previousContent newContent : str) :
  let prevLines := split lineBreakRegex previousContent in
  let currLines := split lineBreakRegex newContent in
  let out := fst (doneTasksLoop clock 0 prevLines currLines) in
  (forall i, nth_error out i <> nth_error currLines i ->
     exists before after,
       nth_error prevLines i = Some before /\
       nth_error currLines i = Some after /\
       isUncheckedTaskLine before = true /\
       isCheckedTaskLine after = true /\
       containsTimeLogs after = false /\
       nth_error out i
         = Some (appendTimeLogToLine after
                   (getCurrentFormattedTime (clock i))) /\
       i < Nat.min (length prevLines) (length currLines)) /\
  (forall i before after,
     nth_error prevLines i = Some before ->
     nth_error currLines i = Some after ->
     isUncheckedTaskLine before = true ->
     isCheckedTaskLine after = true ->
     containsTimeLogs after = false ->
     nth_error out i
       = Some (appendTimeLogToLine after (getCurrentFormattedTime (clock i)))
     /\ containsTimeLogs
          (appendTimeLogToLine after (getCurrentFormattedTime (clock i)))
        = true) /\
  (forall i after,
     nth_error currLines i = Some after ->
     containsTimeLogs after = true -> nth_error out i = Some after) /\
  (forall i, Nat.min (length prevLines) (length currLines) <= i ->
     nth_error out i = nth_error currLines i) /\
  (forall clock',
     addTimeLogForDoneTasks clock' previousContent
       (addTimeLogForDoneTasks clock previousContent newContent)
     = addTimeLogForDoneTasks clock previousContent newContent).
Proof.
  intros prevLines currLines out. unfold out.
  rewrite doneTasksLoop_spec. cbn [fst].
  assert (forall i,
    nth_error (mutateLines clock 0 prevLines currLines) i =
    match nth_error prevLines i, nth_error currLines i with
    | Some b, Some a =>
        Some (if completes b a
              then appendTimeLogToLine a (getCurrentFormattedTime (clock i))
              else a)
    | _, other => other
    end) as Hnth by (intros i; apply (mutateLines_nth clock _ _ 0 i)).
  split; [|split; [|split; [|split]]].
  - intros i Hi. rewrite Hnth in Hi |- *.
    destruct (nth_error prevLines i) as [b|] eqn:Eb; [|contradiction].
    destruct (nth_error currLines i) as [a|] eqn:Ea; [|contradiction].
    destruct (completes b a) eqn:Ec; [|contradiction].
    apply completes_iff in Ec. destruct Ec as (Hu & Hc & Hm).
    exists b, a. repeat split; auto.
    apply Nat.min_glb_lt; apply nth_error_Some; congruence.
  - intros i b a Eb Ea Hu Hc Hm. rewrite Hnth, Eb, Ea.
    rewrite (proj2 (completes_iff b a) (conj Hu (conj Hc Hm))).
    split; [reflexivity|].
    apply appendTimeLogToLine_contains, clock_inner.
  - intros i a Ea Hm. rewrite Hnth, Ea.
    destruct (nth_error prevLines i) as [b|]; [|reflexivity].
    rewrite (completes_logged b a Hm). reflexivity.
  - intros i Hi. rewrite Hnth.
    destruct (nth_error prevLines i) as [b|] eqn:Eb; [|reflexivity].
    destruct (nth_error currLines i) as [a|] eqn:Ea; [|reflexivity].
    exfalso.
    assert (i < length prevLines) by (apply nth_error_Some; congruence).
    assert (i < length currLines) by (apply nth_error_Some; congruence).
    lia.
  - intros clock'. apply addTimeLogForDoneTasks_again.
Qed.

Lemma addTimeLogForDoneTasks_transition_witness :
  nth_error
    (fst (doneTasksLoop (fun _ => MkDate 2025 7 28 14 32) 0
            (split lineBreakRegex (lit "- [ ] Pay bills"))
            (split lineBreakRegex (lit "- [x] Pay bills")))) 0
  = Some (lit "- [x] Pay bills [time-logs:: 2025-08-28 -14:32; ]").
Proof.
  exact (proj1 (proj1 (proj2
    (addTimeLogForDoneTasks_transition (fun _ => MkDate 2025 7 28 14 32)
       (lit "- [ ] Pay bills") (lit "- [x] Pay bills")))
    0 (lit "- [ ] Pay bills") (lit "- [x] Pay bills")
    eq_refl eq_refl eq_refl eq_refl eq_refl)).
Defined.

(** * Lines and their separators *)

Lemma weave_splitLines (s cur : str) :
  weave (splitLines cur s) (lineSeparators s) = rev cur ++ s /\
  length (splitLines cur s) = S (length (lineSeparators s)).
Proof.
  revert cur.
  induction s as [s IH] using (induction_ltof1 _ (@length N)).
  unfold ltof in IH. intros cur.
  destruct s as [|c s]; cbn [splitLines lineSeparators].
  - cbn. rewrite app_nil_r. auto.
  - assert (weave (splitLines (c :: cur) s) (lineSeparators s)
            = rev cur ++ c :: s /\
            length (splitLines (c :: cur) s) = S (length (lineSeparators s)))
      as Hpush.
    { destruct (IH s (Nat.lt_succ_diag_r _) (c :: cur)) as [H1 H2].
      split; [|exact H2]. rewrite H1. cbn [rev].
      rewrite <- app_assoc. reflexivity. }
    destruct (N.eqb c LF) eqn:E1.
    + apply N.eqb_eq in E1. subst c.
      destruct (IH s (Nat.lt_succ_diag_r _) []) as [H1 H2].
      cbn [weave length]. rewrite H1, H2. auto.
    + destruct (N.eqb c CR) eqn:E2; [|exact Hpush].
      destruct s as [|c' s]; [exact Hpush|].
      destruct (N.eqb c' LF) eqn:E3; [|exact Hpush].
      apply N.eqb_eq in E2. apply N.eqb_eq in E3. subst c c'.
      assert (length s < length (CR :: LF :: s)) as Hlt by (cbn; lia).
      destruct (IH s Hlt []) as [H1 H2].
      cbn [weave length]. rewrite H1, H2. auto.
Qed.

Lemma lineSeparators_kinds (s : str) :
  Forall (fun sp => sp = [LF] \/ sp = [CR; LF]) (lineSeparators s).
Proof.
  induction s as [s IH] using (induction_ltof1 _ (@length N)).
  unfold ltof in IH.
  destruct s as [|c s]; cbn [lineSeparators]; [constructor|].
  destruct (N.eqb c LF).
  - constructor; [left; reflexivity|apply IH; cbn; lia].
  - destruct (N.eqb c CR); [|apply IH; cbn; lia].
    destruct s as [|c' s]; [constructor|].
    destruct (N.eqb c' LF).
    + constructor; [right; reflexivity|apply IH; cbn; lia].
    + apply IH. cbn. lia.
Qed.

Lemma join_weave (ls seps : list str) :
  length ls = S (length seps) ->
  join [LF] ls = weave ls (map (fun _ => [LF]) seps).
Proof.
  revert seps; induction ls as [|l ls IH]; intros seps H; [discriminate H|].
  destruct ls as [|l2 ls].
  - destruct seps; [reflexivity|discriminate H].
  - destruct seps as [|sp seps]; [discriminate H|].
    change (join [LF] (l :: l2 :: ls))
      with (l ++ [LF] ++ join [LF] (l2 :: ls)).
    cbn [map weave]. rewrite (IH seps) by (cbn in *; lia). reflexivity.
Qed.
(** C10: when no line completes, the transform returns the new content as
    it is.  When some line does, it returns the lines of the new content,
    the completing ones logged, joined by one line feed each: the new
    content is its lines woven with its separators, each a line feed alone
    or after a carriage return, and the result is the logged lines woven
    with a single line feed in the place of every separator. *)
Theorem addTimeLogForDoneTasks_frame (clock : nat -> Date)
  (previousContent newContent : str) :
  let prevLines := split lineBreakRegex previousContent in
  let currLines := split lineBreakRegex newContent in
  let seps := lineSeparators newContent in
  ((forall i before after,
      nth_error prevLines i = Some before ->
      nth_error currLines i = Some after ->
      ~ (isUncheckedTaskLine before = true /\
         isCheckedTaskLine after = true /\
         containsTimeLogs after = false)) ->
   addTimeLogForDoneTasks clock previousContent newContent = newContent) /\
  newContent = weave currLines seps /\
  Forall (fun sp => sp = [LF] \/ sp = [CR; LF]) seps /\
  ((exists i before after,
      nth_error prevLines i = Some before /\
      nth_error currLines i = Some after /\
      isUncheckedTaskLine before = true /\
      isCheckedTaskLine after = true /\
      containsTimeLogs after = false) ->
   addTimeLogForDoneTasks clock previousContent newContent
     = join [LF] (mutateLines clock 0 prevLines currLines) /\
   addTimeLogForDoneTasks clock previousContent newContent
     = weave (mutateLines clock 0 prevLines currLines)
         (map (fun _ => [LF]) seps) /\
   Forall (fun l => noLF l = true)
     (mutateLines clock 0 prevLines currLines)) /\
  addTimeLogForDoneTasks (fun _ => MkDate 2025 7 28 14 32)
    (lit "- [ ] a" ++ [CR; LF] ++ lit "b" ++ [CR; LF] ++ lit "c")
    (lit "- [x] a" ++ [CR; LF] ++ lit "b" ++ [CR; LF] ++ lit "c")
  = lit "- [x] a [time-logs:: 2025-08-28 -14:32; ]" ++ [LF] ++ lit "b"
    ++ [LF] ++ lit "c".
Proof.
  intros prevLines currLines seps. unfold prevLines, currLines, seps.
  rewrite addTimeLogForDoneTasks_closed, !split_lineBreak.
  set (p := splitLines [] previousContent).
  set (c := splitLines [] newContent).
  destruct (weave_splitLines newContent []) as [Hw Hlen]. fold c in Hw, Hlen.
  split; [|split; [|split; [|split]]].
  - intros Hno. destruct (anyCompletes p c) eqn:E; [|reflexivity].
    exfalso. apply anyCompletes_true in E.
    destruct E as (i & b & a & Hb & Ha & Hc).
    apply (Hno i b a Hb Ha). apply completes_iff, Hc.
  - symmetry. exact Hw.
  - apply lineSeparators_kinds.
  - intros (i & b & a & Hb & Ha & H).
    assert (anyCompletes p c = true) as ->.
    { apply anyCompletes_true. exists i, b, a.
      split; [exact Hb|]. split; [exact Ha|]. apply completes_iff, H. }
    split; [reflexivity|]. split.
    + apply join_weave. rewrite mutateLines_length. exact Hlen.
    + apply mutateLines_noLF, splitLines_noLF. reflexivity.
  - vm_compute. reflexivity.
Qed.

Lemma addTimeLogForDoneTasks_frame_witness :
  addTimeLogForDoneTasks (fun _ => MkDate 2025 7 28 14 32)
    (lit "- [ ] a" ++ [CR; LF] ++ lit "- [ ] b")
    (lit "- [ ] a" ++ [CR; LF] ++ lit "- [ ] b changed")
  = lit "- [ ] a" ++ [CR; LF] ++ lit "- [ ] b changed".
Proof.
  apply (proj1 (addTimeLogForDoneTasks_frame
                  (fun _ => MkDate 2025 7 28 14 32)
                  (lit "- [ ] a" ++ [CR; LF] ++ lit "- [ ] b")
                  (lit "- [ ] a" ++ [CR; LF] ++ lit "- [ ] b changed"))).
  intros i before after Hb Ha (_ & Hc & _).
  destruct i as [|[|i]]; vm_compute in Ha.
  - injection Ha as <-. vm_compute in Hc. discriminate Hc.
  - injection Ha as <-. vm_compute in Hc. discriminate Hc.
  - destruct i; discriminate Ha.
Defined.

(** * What the clock writes, the parser reads *)

Lemma two_digits_table :
  forallb (fun k => hasShape [isDigit; isDigit]
                      (padStart2 (stringOfN (N.of_nat k))))
          (seq 0 100) = true.
Proof. vm_compute. reflexivity. Qed.

Lemma padStart2_shape (n : N) :
  (n < 100)%N -> hasShape [isDigit; isDigit] (padStart2 (stringOfN n)) = true.
Proof.
  intros Hn. pose proof two_digits_table as H.
  rewrite forallb_forall in H.
  specialize (H (N.to_nat n)). rewrite N2Nat.id in H. apply H.
  apply in_seq. lia.
Qed.

Lemma four_digits_table :
  forallb (fun k => hasShape [isDigit; isDigit; isDigit; isDigit]
                      (stringOfN (1000 + N.of_nat k)))
          (seq 0 (Z.to_nat 9000)) = true.
Proof. vm_compute. reflexivity. Qed.

Lemma stringOfZ_year (y : Z) :
  (1000 <= y <= 9999)%Z ->
  hasShape [isDigit; isDigit; isDigit; isDigit] (stringOfZ y) = true.
Proof.
  intros Hy. pose proof four_digits_table as H.
  rewrite forallb_forall in H.
  specialize (H (Z.to_nat (y - 1000))).
  replace (1000 + N.of_nat (Z.to_nat (y - 1000)))%N with (Z.to_N y) in H by lia.
  destruct y as [|p|p]; try lia.
  apply H. apply in_seq. lia.
Qed.

Lemma isWordChar_digit (c : char) : isDigit c = true -> isWordChar c = true.
Proof.
  unfold isWordChar. intros ->. rewrite !orb_true_r. reflexivity.
Qed.

Lemma run_datePattern (sn rs : str) (cs : list str) :
  run datePattern (MState sn rs cs) =
  if isDateText (firstn 10 rs)
  then [MState (rev (firstn 10 rs) ++ sn) (skipn 10 rs) cs] else [].
Proof.
  unfold datePattern, Chr, isDateText, dateShape.
  do 10 (destruct rs as [|? rs]; [shape_known|]).
  shape_long.
Qed.

Lemma isDateText_last (d : str) :
  isDateText d = true ->
  exists c d', rev d = c :: d' /\ isDigit c = true /\
  exists c0 d0, d = c0 :: d0 /\ isDigit c0 = true.
Proof.
  unfold isDateText, dateShape. intros Hd.
  pose proof (hasShape_length _ _ Hd) as L.
  do 10 (destruct d as [|? d]; [discriminate L|]).
  destruct d; [|discriminate L]. clear L.
  simpl in Hd.
  repeat match type of Hd with
  | (if ?b then _ else _) = true =>
      let E := fresh "E" in destruct b eqn:E; [|discriminate Hd]
  end.
  simpl. eexists _, _. split; [reflexivity|]. split; [assumption|].
  eexists _, _. split; [reflexivity|assumption].
Qed.

(** A text that begins with a date which no word character follows passes
    the date filter of the extractor. *)
Lemma test_dateRegex_leading (d r : str) :
  isDateText d = true -> wordAt r = false -> test dateRegex (d ++ r) = true.
Proof.
  intros Hd Hr.
  destruct (isDateText_last d Hd) as (c & d' & Hrev & Hc & c0 & d0 & Hd0 & Hc0).
  pose proof (hasShape_length _ _ Hd) as L. simpl in L.
  assert (Hrun : run dateRegex (MState [] (d ++ r) [])
                 = [MState (rev d) r []]).
  { unfold dateRegex. rewrite run_Seq.
    assert (H1 : run WordB (MState [] (d ++ r) []) = [MState [] (d ++ r) []]).
    { subst d. simpl. rewrite (isWordChar_digit _ Hc0). reflexivity. }
    rewrite H1, flat_map_one, run_Seq, run_datePattern.
    rewrite (firstn_app_exact d r L), (skipn_app_exact d r L), Hd.
    rewrite flat_map_one, app_nil_r. simpl. rewrite Hrev. simpl.
    rewrite (isWordChar_digit _ Hc), Hr. reflexivity. }
  unfold test, exec. subst d. cbn [app] in *. cbn [exec_from].
  unfold match_here. rewrite Hrun. reflexivity.
Qed.

Lemma space_is_space : isSpace (N_of_ascii " ") = true.
Proof. reflexivity. Qed.

(** An entry of the form the clock writes: a date, a space, a dash and a
    time without seconds.  The parser reads it as a [To] with the seconds
    set to 00, and the date filter lets it through. *)
Lemma parse_clock_entry (d t : str) :
  isDateText d = true -> hasShape shortTimeShape t = true ->
  parseFromTo (d ++ lit " -" ++ t)
    = MkFromTo [] (d ++ lit " " ++ t ++ lit ":00") /\
  test dateRegex (d ++ lit " -" ++ t) = true.
Proof.
  intros Hd Ht. split.
  - rewrite parseFromTo_parseSpec. unfold parseSpec.
    destruct (isDateText_last d Hd)
      as (c & d' & Hrev & Hc & c0 & d0 & Hd0 & Hc0).
    pose proof (hasShape_length _ _ Hd) as L. simpl in L.
    pose proof (hasShape_length _ _ Ht) as Lt.
    assert (Htl : exists t' e, t = t' ++ [e] /\ isDigit e = true).
    { do 5 (destruct t as [|? t]; [discriminate Lt|]).
      destruct t; [|discriminate Lt]. simpl in Ht.
      repeat match type of Ht with
      | (if ?b then _ else _) = true =>
          let E := fresh "E" in destruct b eqn:E; [|discriminate Ht]
      end.
      eexists [_; _; _; _], _. split; [reflexivity|assumption]. }
    destruct Htl as (t' & e & Htl & He).
    assert (Htime : isTimeText t = true).
    { unfold isTimeText. rewrite Ht. apply orb_true_r. }
    assert (Htrim : trim (d ++ lit " -" ++ t) = d ++ lit " -" ++ t).
    { apply trim_id with (r := d0 ++ lit " -" ++ t)
                         (r' := d ++ lit " -" ++ t') (c := c0) (d := e).
      - rewrite Hd0. reflexivity.
      - rewrite Htl, <- !app_assoc. reflexivity.
      - apply digit_not_space, Hc0.
      - apply digit_not_space, He. }
    rewrite Htrim, (firstn_app_exact d _ L), (skipn_app_exact d _ L), Hd.
    cbn [negb].
    assert (Hrem : trim (lit " -" ++ t) = lit "-" ++ t).
    { change (lit " -" ++ t) with (N_of_ascii " " :: lit "-" ++ t).
      rewrite (@trim_space_cons (N_of_ascii " ") _ space_is_space).
      apply trim_id with (r := t) (r' := lit "-" ++ t')
                         (c := N_of_ascii "-") (d := e).
      - reflexivity.
      - rewrite Htl. reflexivity.
      - reflexivity.
      - apply digit_not_space, He. }
    rewrite Hrem.
    assert (Hto : toOnlyShape (lit "-" ++ t) = Some t).
    { apply toOnlyShape_iff. split; [reflexivity|exact Htime]. }
    rewrite Hto. unfold timestampOf, withSeconds. rewrite Ht. reflexivity.
  - apply test_dateRegex_leading; [exact Hd|reflexivity].
Qed.

Lemma dateOf_shape (now : Date) :
  fourDigitYear now = true -> isDateText (dateOf now) = true.
Proof.
  unfold fourDigitYear. rewrite !andb_true_iff.
  intros [[[[[[Hy1 Hy2] Hm] Hd1] Hd2] Hh] Hmi].
  apply Z.leb_le in Hy1, Hy2. apply N.leb_le in Hm, Hd2.
  unfold isDateText, dateOf, dateShape.
  assert (Hy : hasShape [isDigit; isDigit; isDigit; isDigit]
                 (stringOfZ (getFullYear now)) = true)
    by (apply stringOfZ_year; lia).
  assert (Hmo : hasShape [isDigit; isDigit]
                  (padStart2 (stringOfN (getMonth now + 1))) = true)
    by (apply padStart2_shape; lia).
  assert (Hda : hasShape [isDigit; isDigit]
                  (padStart2 (stringOfN (getDate now))) = true)
    by (apply padStart2_shape; lia).
  change [isDigit; isDigit; isDigit; isDigit; chr_is "-"; isDigit; isDigit;
          chr_is "-"; isDigit; isDigit]
    with ([isDigit; isDigit; isDigit; isDigit] ++ [chr_is "-"] ++
          [isDigit; isDigit] ++ [chr_is "-"] ++ [isDigit; isDigit]).
  rewrite hasShape_app by (apply (hasShape_length _ _ Hy)). rewrite Hy.
  rewrite hasShape_app by reflexivity.
  rewrite hasShape_app by (apply (hasShape_length _ _ Hmo)). rewrite Hmo.
  rewrite hasShape_app by reflexivity. rewrite Hda. reflexivity.
Qed.

Lemma minuteOf_shape (now : Date) :
  fourDigitYear now = true -> hasShape shortTimeShape (minuteOf now) = true.
Proof.
  unfold fourDigitYear. rewrite !andb_true_iff.
  intros [[[[[[Hy1 Hy2] Hm] Hd1] Hd2] Hh] Hmi].
  apply N.leb_le in Hh, Hmi.
  unfold minuteOf, shortTimeShape.
  assert (H1 : hasShape [isDigit; isDigit]
                 (padStart2 (stringOfN (getHours now))) = true)
    by (apply padStart2_shape; lia).
  assert (H2 : hasShape [isDigit; isDigit]
                 (padStart2 (stringOfN (getMinutes now))) = true)
    by (apply padStart2_shape; lia).
  change [isDigit; isDigit; chr_is ":"; isDigit; isDigit]
    with ([isDigit; isDigit] ++ [chr_is ":"] ++ [isDigit; isDigit]).
  rewrite hasShape_app by (apply (hasShape_length _ _ H1)). rewrite H1.
  rewrite hasShape_app by reflexivity. rewrite H2. reflexivity.
Qed.

Lemma getCurrentFormattedTime_parts (now : Date) :
  getCurrentFormattedTime now = dateOf now ++ lit " -" ++ minuteOf now.
Proof.
  unfold getCurrentFormattedTime, dateOf, minuteOf. cbv zeta.
  rewrite <- !app_assoc. reflexivity.
Qed.

Lemma clock_parses (now : Date) :
  fourDigitYear now = true ->
  parseFromTo (getCurrentFormattedTime now) = MkFromTo [] (stampOf now) /\
  test dateRegex (getCurrentFormattedTime now) = true.
Proof.
  intros Hv. rewrite getCurrentFormattedTime_parts.
  destruct (parse_clock_entry (dateOf now) (minuteOf now)
              (dateOf_shape now Hv) (minuteOf_shape now Hv)) as [Hp Ht].
  rewrite Hp, Ht. split; reflexivity.
Qed.

(** X1.  What the clock writes is a date, a space, a dash and the hour and
    minute, seventeen characters in all when the year has four digits; the
    date filter of the extractor lets it through, and the range parser
    reads it as a [To] without a [From], the seconds set to 00. *)
Theorem getCurrentFormattedTime_parses (now : Date) :
  fourDigitYear now = true ->
  getCurrentFormattedTime now = dateOf now ++ lit " -" ++ minuteOf now /\
  isDateText (dateOf now) = true /\
  length (getCurrentFormattedTime now) = 17 /\
  test dateRegex (getCurrentFormattedTime now) = true /\
  parseFromTo (getCurrentFormattedTime now) = MkFromTo [] (stampOf now) /\
  isTimestamp (stampOf now) = true.
Proof.
  intros Hv. destruct (clock_parses now Hv) as [Hp Ht].
  pose proof (dateOf_shape now Hv) as Hd.
  pose proof (minuteOf_shape now Hv) as Hm.
  split; [apply getCurrentFormattedTime_parts|]. split; [exact Hd|].
  split; [|split; [exact Ht|split; [exact Hp|]]].
  - rewrite getCurrentFormattedTime_parts, !length_app.
    rewrite (hasShape_length _ _ Hd), (hasShape_length _ _ Hm). reflexivity.
  - assert (Htime : isTimeText (minuteOf now) = true)
      by (unfold isTimeText; rewrite Hm; apply orb_true_r).
    pose proof (isTimestamp_timestampOf _ _ Hd Htime) as H.
    unfold timestampOf, withSeconds in H. rewrite Hm in H.
    unfold stampOf. rewrite <- ?app_assoc in H. rewrite <- ?app_assoc.
    exact H.
Qed.

Lemma getCurrentFormattedTime_parses_witness :
  parseFromTo (getCurrentFormattedTime (MkDate 2025 7 28 14 32))
  = MkFromTo [] (lit "2025-08-28 14:32:00").
Proof.
  destruct (@getCurrentFormattedTime_parses (MkDate 2025 7 28 14 32) eq_refl)
    as (_ & _ & _ & _ & H & _).
  exact H.
Defined.

(** * What the mutator logs, the extractor reads *)

(** The rows of a line whose marker is known. *)
Lemma rowsOfLine_marked (f : str) (i : nat) (pre inner post : str) :
  includes openToken pre = false ->
  forallb innerChar inner = true ->
  rowsOfLine f i (pre ++ openToken ++ inner ++ N_of_ascii "]" :: post) =
  if is_empty (trim inner) then []
  else
    flat_map (fun timeLog =>
      if negb (test dateRegex timeLog) then []
      else [MkRow (normalizeTaskText (trim (pre ++ post)))
                  (ft_from (parseFromTo timeLog)) (ft_to (parseFromTo timeLog))
                  f (i + 1)])
      (entriesOf (trim inner)).
Proof.
  intros Hp Hi. unfold rowsOfLine, replace.
  rewrite exec_timeLogs, (findMarker_first pre [] inner post Hp Hi).
  cbn [option_map markerMatch rev app]. rewrite group_1.
  cbn [m_pre m_post app]. reflexivity.
Qed.

(** Calls of the mutator on a line with a marker change the inner text of
    the marker and nothing around it. *)
Lemma fold_marked (ts : list str) :
  forall (pre inner post : str),
  includes openToken pre = false ->
  forallb innerChar inner = true ->
  (trim inner = [] \/ exists e, trim inner = e ++ lit ";") ->
  Forall (fun t => entryOk t = true) ts ->
  exists inner',
    fold_left appendTimeLogToLine ts
      (pre ++ openToken ++ inner ++ N_of_ascii "]" :: post)
    = pre ++ openToken ++ inner' ++ N_of_ascii "]" :: post /\
    forallb innerChar inner' = true /\
    entriesOf (trim inner') = entriesOf (trim inner) ++ ts.
Proof.
  induction ts as [|t ts IH]; intros pre inner post Hp Hi He Hts.
  - exists inner. rewrite app_nil_r. auto.
  - inversion Hts as [|? ? Ht Hts']; subst. cbn [fold_left].
    rewrite (appendTimeLogToLine_marker _ t
               (findMarker_first pre [] inner post Hp Hi)).
    cbn [rev app].
    assert (Hi1 : forallb innerChar (newInner inner t) = true)
      by (apply newInner_inner; [exact Hi|apply entryOk_inner, Ht]).
    assert (He1 : trim (newInner inner t) = [] \/
                  exists e, trim (newInner inner t) = e ++ lit ";")
      by (right; apply newInner_ends, Ht).
    destruct (IH pre (newInner inner t) post Hp Hi1 He1 Hts')
      as (inner' & E & Hi' & Hes).
    exists inner'. split; [exact E|]. split; [exact Hi'|].
    rewrite Hes, entriesOf_newInner by assumption.
    rewrite <- app_assoc. reflexivity.
Qed.

(** The first call on a line that holds no open token, with the text the
    marker is put into. *)
Lemma appendTimeLogToLine_fresh_around (line t : str) :
  includes openToken line = false ->
  exists p q,
    appendTimeLogToLine line t =
      p ++ openToken ++ newInner [] t ++ N_of_ascii "]" :: q /\
    includes openToken p = false /\
    p ++ q = insertBeforeInlineDataview line [].
Proof.
  intros H. rewrite appendTimeLogToLine_no_marker
    by (apply findMarker_no_open, H).
  unfold insertBeforeInlineDataview.
  cbv zeta. rewrite lit_marker, !separatorAfter_pad, separatorBefore_pad.
  change (newInner [] t) with (lit " " ++ t ++ lit ";" ++ lit " ").
  destruct (Z.eqb (findFirstInlineDataviewIndex line) (-1)).
  - exists (line ++ padAfter line), []. split; [|split].
    + rewrite <- !app_assoc. reflexivity.
    + apply includes_open_pad, H.
    + rewrite <- !app_assoc. reflexivity.
  - set (idx := Z.to_nat (findFirstInlineDataviewIndex line)).
    rewrite <- (firstn_skipn idx line) in H.
    pose proof (includes_app_false_l _ _ _ H) as Hb.
    exists (firstn idx line ++ padAfter (firstn idx line)),
           (padBefore (skipn idx line) ++ skipn idx line).
    split; [|split].
    + rewrite <- !app_assoc. reflexivity.
    + apply includes_open_pad, Hb.
    + rewrite <- !app_assoc. reflexivity.
Qed.

Lemma clock_rows (f task : str) (n : nat) (ds : list Date) :
  Forall (fun d => fourDigitYear d = true) ds ->
  flat_map (fun timeLog =>
      if negb (test dateRegex timeLog) then []
      else [MkRow task (ft_from (parseFromTo timeLog))
                  (ft_to (parseFromTo timeLog)) f n])
    (map getCurrentFormattedTime ds)
  = map (fun d => MkRow task [] (stampOf d) f n) ds.
Proof.
  induction 1 as [|d ds Hd _ IH]; [reflexivity|].
  cbn [map flat_map]. destruct (clock_parses d Hd) as [Hp Ht].
  rewrite Ht, Hp, IH. reflexivity.
Qed.

Lemma trimStart_snoc_space (s : str) (c : char) :
  isSpace c = true ->
  trimStart (s ++ [c]) =
  if is_empty (trimStart s) then [] else trimStart s ++ [c].
Proof.
  intros Hc. induction s as [|a s IH].
  - simpl. rewrite Hc. reflexivity.
  - cbn [app trimStart]. destruct (isSpace a); [exact IH|reflexivity].
Qed.

Lemma trim_snoc_space (s : str) (c : char) :
  isSpace c = true -> trim (s ++ [c]) = trim s.
Proof.
  intros Hc. unfold trim. rewrite (@trimStart_snoc_space s c Hc).
  destruct (trimStart s) as [|a r]; [reflexivity|].
  cbn [is_empty]. apply trimEnd_snoc_space, Hc.
Qed.

Lemma trim_pad (s : str) : trim (s ++ padAfter s) = trim s.
Proof.
  unfold padAfter. destruct (is_empty s || lastIsSpace s)%bool.
  - rewrite app_nil_r. reflexivity.
  - apply trim_snoc_space. reflexivity.
Qed.

(** The rows of a line logged at the readings [ds] of the clock. *)
Lemma rowsOfLine_logged (f ln : str) (i : nat) (ds : list Date) :
  includes openToken ln = false ->
  Forall (fun d => fourDigitYear d = true) ds ->
  rowsOfLine f i
    (fold_left appendTimeLogToLine (map getCurrentFormattedTime ds) ln)
  = map (fun d =>
      MkRow (normalizeTaskText (trim (insertBeforeInlineDataview ln [])))
            [] (stampOf d) f (i + 1)) ds.
Proof.
  intros Hl Hds. destruct ds as [|d0 ds].
  - cbn [map fold_left]. unfold rowsOfLine.
    rewrite exec_timeLogs, (findMarker_no_open ln [] Hl). reflexivity.
  - cbn [map fold_left].
    assert (Hts : Forall (fun t => entryOk t = true)
                    (map getCurrentFormattedTime ds)).
    { apply Forall_forall. intros t Ht. apply in_map_iff in Ht.
      destruct Ht as (d & <- & _). apply getCurrentFormattedTime_entryOk. }
    pose proof (getCurrentFormattedTime_entryOk d0) as Ht0.
    destruct (@appendTimeLogToLine_fresh_around ln
                (getCurrentFormattedTime d0) Hl) as (p & q & E & Hp & Hpq).
    rewrite E.
    assert (Hi0 : forallb innerChar
                    (newInner [] (getCurrentFormattedTime d0)) = true)
      by (apply newInner_inner; [reflexivity|apply entryOk_inner, Ht0]).
    assert (He0 : trim (newInner [] (getCurrentFormattedTime d0)) = [] \/
                  exists e, trim (newInner [] (getCurrentFormattedTime d0))
                            = e ++ lit ";")
      by (right; apply newInner_ends, Ht0).
    destruct (@fold_marked (map getCurrentFormattedTime ds) p _ q
                Hp Hi0 He0 Hts)
      as (inner' & E' & Hi' & Hes).
    rewrite E', (@rowsOfLine_marked f i p inner' q Hp Hi').
    rewrite entriesOf_newInner in Hes
      by (try exact Ht0; left; exact trim_nil).
    rewrite trim_nil, entriesOf_nil in Hes. cbn [app] in Hes.
    rewrite Hes.
    destruct (trim inner') eqn:Et; [discriminate Hes|].
    cbn [is_empty]. rewrite Hpq.
    apply (@clock_rows f _ (i + 1) (d0 :: ds)), Hds.
Qed.

(** X2.  What the mutator logs, the extractor reads back: a line without
    an open token, logged one after the other at the readings [ds] of the
    clock, all with a year of four digits, gives one row per reading, in
    the order of the calls, each with an empty From and the reading as its
    To, seconds set to 00.  The task label of the rows is
    [normalizeTaskText] of the trimmed text around the marker, which is
    the line with the padding the mutator has put in; where the line holds
    no inline field this is [normalizeTaskText] of the trimmed line. *)
Theorem logged_line_rows (f ln : str) (i : nat) (ds : list Date) :
  includes openToken ln = false ->
  Forall (fun d => fourDigitYear d = true) ds ->
  rowsOfLine f i
    (fold_left appendTimeLogToLine (map getCurrentFormattedTime ds) ln)
  = map (fun d =>
      MkRow (normalizeTaskText (trim (insertBeforeInlineDataview ln [])))
            [] (stampOf d) f (i + 1)) ds
  /\ (findFirstInlineDataviewIndex ln = (-1)%Z ->
      trim (insertBeforeInlineDataview ln []) = trim ln)
  /\ (findFirstInlineDataviewIndex ln = (-1)%Z ->
      rowsOfLine f i
        (fold_left appendTimeLogToLine (map getCurrentFormattedTime ds) ln)
      = map (fun d =>
          MkRow (normalizeTaskText (trim ln)) [] (stampOf d) f (i + 1)) ds).
Proof.
  intros Hl Hds.
  assert (Ht : findFirstInlineDataviewIndex ln = (-1)%Z ->
               trim (insertBeforeInlineDataview ln []) = trim ln).
  { intros Hidx. unfold insertBeforeInlineDataview. rewrite Hidx.
    cbn [Z.eqb Pos.eqb]. rewrite app_nil_r, separatorAfter_pad.
    apply trim_pad. }
  split; [apply rowsOfLine_logged; assumption|]. split; [exact Ht|].
  intros Hidx. rewrite <- (Ht Hidx). apply rowsOfLine_logged; assumption.
Qed.

Lemma logged_line_rows_witness :
  rowsOfLine (lit "a.md") 4
    (fold_left appendTimeLogToLine
       (map getCurrentFormattedTime
          [MkDate 2025 7 28 14 32; MkDate 2025 7 28 15 5])
       (lit "- [x] Pay bills"))
  = [MkRow (lit "Pay bills") [] (lit "2025-08-28 14:32:00") (lit "a.md") 5;
     MkRow (lit "Pay bills") [] (lit "2025-08-28 15:05:00") (lit "a.md") 5].
Proof.
  refine (proj2 (proj2
    (@logged_line_rows (lit "a.md") (lit "- [x] Pay bills") 4
       [MkDate 2025 7 28 14 32; MkDate 2025 7 28 15 5] _ _)) _).
  - reflexivity.
  - repeat constructor.
  - reflexivity.
Defined.

(** X3.  The rows of a line come from its first marker alone: one row for
    each of its entries that passes the date filter.  Whatever else is on
    the line, a further marker included, is not read for entries; it is
    part of the task label. *)
Theorem rowsOfLine_first_marker (f : str) (i : nat) (pre inner post : str) :
  includes openToken pre = false ->
  forallb innerChar inner = true ->
  rowsOfLine f i (pre ++ lit "[time-logs::" ++ inner ++ lit "]" ++ post) =
  flat_map (fun timeLog =>
      if test dateRegex timeLog
      then [MkRow (normalizeTaskText (trim (pre ++ post)))
                  (ft_from (parseFromTo timeLog)) (ft_to (parseFromTo timeLog))
                  f (i + 1)]
      else [])
    (entriesOf (trim inner)).
Proof.
  intros Hp Hi.
  change (lit "[time-logs::") with openToken.
  change (lit "]" ++ post) with (N_of_ascii "]" :: post).
  rewrite (@rowsOfLine_marked f i pre inner post Hp Hi).
  destruct (trim inner) eqn:Et; cbn [is_empty]; [reflexivity|].
  apply flat_map_ext. intros t. destruct (test dateRegex t); reflexivity.
Qed.

Lemma rowsOfLine_first_marker_witness :
  rowsOfLine (lit "a.md") 0
    (lit "- [x] Call [time-logs:: 2025-08-28 09:00-09:30; ] back [time-logs:: 2025-08-29 -10:00; ]")
  = [MkRow (lit "Call  back [time-logs:: 2025-08-29 -10:00; ]")
       (lit "2025-08-28 09:00:00") (lit "2025-08-28 09:30:00") (lit "a.md") 1].
Proof.
  apply (@rowsOfLine_first_marker (lit "a.md") 0 (lit "- [x] Call ")
           (lit " 2025-08-28 09:00-09:30; ")
           (lit " back [time-logs:: 2025-08-29 -10:00; ]")); reflexivity.
Defined.

(** * From a completed task to a row of the export *)

Lemma Forall2_nth_error (A B : Type) (R : A -> B -> Prop) (l1 : list A)
  (l2 : list B) (i : nat) (a : A) :
  Forall2 R l1 l2 -> nth_error l1 i = Some a ->
  exists b, nth_error l2 i = Some b /\ R a b.
Proof.
  intros H. revert i. induction H as [|x y l1 l2 Hxy _ IH]; intros i Hi.
  - destruct i; discriminate Hi.
  - destruct i as [|i]; cbn [nth_error] in *.
    + injection Hi as <-. exists y. auto.
    + apply IH, Hi.
Qed.

(** A carriage return at the end of a line with a marker does not change
    its rows. *)
Lemma rowsOfLine_stripCR (f : str) (i : nat) (p inner q : str) :
  includes openToken p = false ->
  forallb innerChar inner = true ->
  rowsOfLine f i (stripCR (p ++ openToken ++ inner ++ N_of_ascii "]" :: q))
  = rowsOfLine f i (p ++ openToken ++ inner ++ N_of_ascii "]" :: q).
Proof.
  intros Hp Hi.
  assert (E : stripCR (p ++ openToken ++ inner ++ N_of_ascii "]" :: q)
              = p ++ openToken ++ inner ++ N_of_ascii "]" :: stripCR q).
  { rewrite !app_assoc. rewrite stripCR_app by discriminate.
    destruct q as [|c q]; [reflexivity|].
    rewrite stripCR_cons by discriminate. reflexivity. }
  rewrite E, !rowsOfLine_marked by assumption.
  assert (Et : trim (p ++ stripCR q) = trim (p ++ q)).
  { destruct (stripCR_prefix q) as [Hq|Hq].
    - rewrite <- Hq. reflexivity.
    - rewrite Hq at 2. rewrite app_assoc. symmetry.
      apply trim_snoc_space. reflexivity. }
  rewrite Et. reflexivity.
Qed.

Section Exported.
Variable localeCompare : str -> str -> Z.

(** X4.  A completed task is in the export.  When line [i] of a file goes
    from an unchecked to a checked task line and holds no open token, the
    content the auto-detection returns gives the extractor a row for this
    line: the task label of the line, no From, the reading of the clock as
    its To, the path of the file and the line number [i + 1]. *)
Theorem completed_task_is_exported (clock : nat -> Date)
  (previousContent newContent before after : str) (i : nat)
  (files : list TFile) (f : TFile) :
  nth_error (split lineBreakRegex previousContent) i = Some before ->
  nth_error (split lineBreakRegex newContent) i = Some after ->
  isUncheckedTaskLine before = true ->
  isCheckedTaskLine after = true ->
  includes openToken after = false ->
  fourDigitYear (clock i) = true ->
  In f files ->
  content f = addTimeLogForDoneTasks clock previousContent newContent ->
  In (MkRow (normalizeTaskText (trim (insertBeforeInlineDataview after [])))
            [] (stampOf (clock i)) (path f) (i + 1))
     (collectTimeLogRows localeCompare files).
Proof.
  intros Hb Ha Hu Hc Ho Hy Hf Hcontent.
  rewrite split_lineBreak in Hb, Ha.
  assert (Hnm : containsTimeLogs after = false).
  { rewrite containsTimeLogs_findMarker, (findMarker_no_open after [] Ho).
    reflexivity. }
  assert (Hcomp : completes before after = true)
    by (apply completes_iff; auto).
  set (prevL := splitLines [] previousContent) in *.
  set (currL := splitLines [] newContent) in *.
  set (out := mutateLines clock 0 prevL currL).
  set (t := getCurrentFormattedTime (clock i)).
  assert (Hany : anyCompletes prevL currL = true).
  { apply anyCompletes_true. exists i, before, after. auto. }
  assert (Hres : content f = join [LF] out).
  { rewrite Hcontent, addTimeLogForDoneTasks_closed.
    fold prevL currL. rewrite Hany. reflexivity. }
  assert (Hout : nth_error out i = Some (appendTimeLogToLine after t)).
  { unfold out. rewrite mutateLines_nth, Hb, Ha, Hcomp. reflexivity. }
  assert (Hne : out <> []).
  { intros E. rewrite E in Hout. destruct i; discriminate Hout. }
  assert (HnoLF : Forall (fun l => noLF l = true) out).
  { apply mutateLines_noLF. apply splitLines_noLF. reflexivity. }
  destruct (Forall2_nth_error i (rejoin_related Hne) Hout) as (l2 & Hl2 & HR).
  rewrite <- (splitLines_join Hne HnoLF) in Hl2.
  assert (Hrows : rowsOfLine (path f) i l2
                  = [MkRow (normalizeTaskText
                              (trim (insertBeforeInlineDataview after [])))
                           [] (stampOf (clock i)) (path f) (i + 1)]).
  { pose proof (@rowsOfLine_logged (path f) after i [clock i] Ho
                  (Forall_cons _ Hy (Forall_nil _))) as H.
    cbn [map fold_left] in H. fold t in H.
    destruct HR as [->| ->]; [exact H|].
    destruct (@appendTimeLogToLine_fresh_around after t Ho)
      as (p & q & E & Hp & _).
    rewrite E. rewrite rowsOfLine_stripCR; [rewrite <- E; exact H|exact Hp|].
    apply newInner_inner; [reflexivity|].
    apply entryOk_inner, getCurrentFormattedTime_entryOk. }
  unfold collectTimeLogRows. apply sortBy_In.
  unfold discoveredRows. apply in_flat_map. exists f. split; [exact Hf|].
  unfold rowsOfFile. rewrite split_lineBreak, Hres.
  apply rowsOfLines_In. exists i, l2. split; [exact Hl2|].
  cbn [Nat.add]. rewrite Hrows. left. reflexivity.
Qed.
End Exported.

Lemma completed_task_is_exported_witness :
  In (MkRow (lit "Pay bills") [] (lit "2025-08-28 14:32:00") (lit "a.md") 2)
     (collectTimeLogRows codeUnitCompare
        [MkFile (lit "a.md")
           (addTimeLogForDoneTasks (fun _ => MkDate 2025 7 28 14 32)
              (lit "# Today" ++ [CR; LF] ++ lit "- [ ] Pay bills")
              (lit "# Today" ++ [CR; LF] ++ lit "- [x] Pay bills"))]).
Proof.
  apply (@completed_task_is_exported codeUnitCompare
           (fun _ => MkDate 2025 7 28 14 32)
           (lit "# Today" ++ [CR; LF] ++ lit "- [ ] Pay bills")
           (lit "# Today" ++ [CR; LF] ++ lit "- [x] Pay bills")
           (lit "- [ ] Pay bills") (lit "- [x] Pay bills") 1
           _ (MkFile (lit "a.md")
                (addTimeLogForDoneTasks (fun _ => MkDate 2025 7 28 14 32)
                   (lit "# Today" ++ [CR; LF] ++ lit "- [ ] Pay bills")
                   (lit "# Today" ++ [CR; LF] ++ lit "- [x] Pay bills"))));
    try reflexivity.
  left. reflexivity.
Defined.

(** * The CSV text can be read back *)

Lemma readCsv_plain (v rest cur : str) (fields : list str) :
  existsb csvSpecial v = false ->
  readCsv Plain cur fields (v ++ rest)
  = readCsv Plain (rev v ++ cur) fields rest.
Proof.
  revert cur; induction v as [|c v IH]; intros cur H; [reflexivity|].
  cbn [existsb] in H. apply orb_false_iff in H. destruct H as [Hc Hv].
  unfold csvSpecial in Hc. apply orb_false_iff in Hc. destruct Hc as [Hc HL].
  apply orb_false_iff in Hc. destruct Hc as [HQ HC].
  cbn [app readCsv]. rewrite HQ, HC, HL, (IH (c :: cur) Hv).
  cbn [rev]. rewrite <- app_assoc. reflexivity.
Qed.

Lemma readCsv_quoted (v rest cur : str) (fields : list str) :
  readCsv Quoted cur fields (doubleQuotes v ++ DQUOTE :: rest)
  = readCsv Closed (rev v ++ cur) fields rest.
Proof.
  revert cur; induction v as [|c v IH]; intros cur.
  - cbn [doubleQuotes flat_map app readCsv rev]. rewrite N.eqb_refl.
    reflexivity.
  - unfold doubleQuotes in *. cbn [flat_map].
    destruct (N.eqb c DQUOTE) eqn:E.
    + cbn [app readCsv]. rewrite !N.eqb_refl.
      apply N.eqb_eq in E. subst c.
      rewrite (IH (DQUOTE :: cur)). cbn [rev]. rewrite <- app_assoc.
      reflexivity.
    + cbn [app readCsv]. rewrite E, (IH (c :: cur)). cbn [rev].
      rewrite <- app_assoc. reflexivity.
Qed.

Lemma fieldEnd_cases (c : char) (r : str) :
  fieldEnd (c :: r) = true ->
  N.eqb c DQUOTE = false /\
  (chr_is "," c = true \/ (chr_is "," c = false /\ N.eqb c LF = true)).
Proof.
  cbn [fieldEnd]. unfold chr_is. intros H. apply orb_true_iff in H.
  destruct H as [H|H]; apply N.eqb_eq in H; subst c; split;
    try reflexivity; [left|right]; auto.
Qed.

Lemma readCsv_field (v rest : str) (fields : list str) :
  fieldEnd rest = true ->
  readCsv Plain [] fields (csvEscape v ++ rest) = afterField v fields rest.
Proof.
  intros Hr. rewrite csvEscape_encodeField. unfold encodeField, needsQuotes.
  destruct (existsb csvSpecial v) eqn:E.
  - rewrite <- !app_assoc. cbn [app readCsv]. rewrite N.eqb_refl.
    change ([DQUOTE] ++ rest) with (DQUOTE :: rest).
    rewrite readCsv_quoted, app_nil_r.
    destruct rest as [|c r]; cbn [readCsv afterField].
    + rewrite rev_involutive. reflexivity.
    + destruct (@fieldEnd_cases c r Hr) as [HQ [HC|[HC HL]]];
        rewrite HQ, HC, ?HL, rev_involutive; reflexivity.
  - rewrite (@readCsv_plain v rest [] fields E), app_nil_r.
    destruct rest as [|c r]; cbn [readCsv afterField].
    + rewrite rev_involutive. reflexivity.
    + destruct (@fieldEnd_cases c r Hr) as [HQ [HC|[HC HL]]];
        rewrite HQ, HC, ?HL, rev_involutive; reflexivity.
Qed.

Lemma readCsv_record (vs : list str) :
  forall (v rest : str) (fields : list str),
  recordEnd rest = true ->
  readCsv Plain [] fields (join (lit ",") (map csvEscape (v :: vs)) ++ rest)
  = afterRecord (rev fields ++ v :: vs) rest.
Proof.
  induction vs as [|w vs IH]; intros v rest fields Hr.
  - cbn [map join]. rewrite readCsv_field.
    + destruct rest as [|c r]; cbn [afterField afterRecord rev];
        [reflexivity|].
      cbn [recordEnd] in Hr. apply N.eqb_eq in Hr. subst c. reflexivity.
    + destruct rest as [|c r]; [reflexivity|].
      cbn [recordEnd] in Hr. cbn [fieldEnd]. rewrite Hr. apply orb_true_r.
  - change (join (lit ",") (map csvEscape (v :: w :: vs)))
      with (csvEscape v ++ lit "," ++ join (lit ",") (map csvEscape (w :: vs))).
    rewrite <- !app_assoc. change (lit ",") with [N_of_ascii ","].
    cbn [app]. change [N_of_ascii ","] with (lit ",").
    rewrite readCsv_field by reflexivity.
    cbn [afterField].
    change (chr_is "," (N_of_ascii ",")) with true. cbv iota.
    rewrite (IH w rest (v :: fields) Hr). cbn [rev].
    rewrite <- app_assoc. reflexivity.
Qed.

Lemma readCsv_table (rows : list (list str)) :
  forall row,
  Forall (fun r => r <> []) (row :: rows) ->
  parseCsv (join [LF] (map (fun cols => join (lit ",") (map csvEscape cols))
                         (row :: rows)))
  = row :: rows.
Proof.
  unfold parseCsv.
  induction rows as [|row' rows IH]; intros row H;
    inversion H as [|? ? Hrow H']; subst;
    destruct row as [|v vs]; try congruence.
  - change (readCsv Plain [] []
              (join (lit ",") (map csvEscape (v :: vs))) = [v :: vs]).
    rewrite <- (app_nil_r (join _ _)), readCsv_record by reflexivity.
    reflexivity.
  - change (join [LF] (map ?f ((v :: vs) :: row' :: rows)))
      with (f (v :: vs) ++ [LF] ++ join [LF] (map f (row' :: rows))).
    cbv beta. rewrite readCsv_record by (cbn; apply N.eqb_refl).
    cbn [app afterRecord rev]. rewrite (IH row' H'). reflexivity.
Qed.

Lemma lit_inj (a b : string) : lit a = lit b -> a = b.
Proof.
  unfold lit. intros H.
  rewrite <- (string_of_list_ascii_of_string a),
          <- (string_of_list_ascii_of_string b).
  f_equal. revert H. generalize (list_ascii_of_string a) as x.
  generalize (list_ascii_of_string b) as y.
  induction y as [|c y IH]; intros [|d x] H; try discriminate H;
    [reflexivity|].
  cbn [map] in H. injection H as Hc Hx. f_equal; [|apply IH, Hx].
  rewrite <- (ascii_N_embedding d), <- (ascii_N_embedding c), Hc.
  reflexivity.
Qed.

Lemma stringOfN_inj (a b : N) : stringOfN a = stringOfN b -> a = b.
Proof.
  unfold stringOfN, digitsOfUint. intros H. apply lit_inj in H.
  apply DecimalN.Unsigned.to_uint_inj.
  assert (Hn : forall n, N.to_uint n <> Decimal.Nil).
  { intros n E. pose proof (DecimalN.Unsigned.of_to n) as Hof.
    rewrite E in Hof. destruct n as [|p]; [discriminate E|].
    cbn in Hof. discriminate Hof. }
  pose proof (@NilZero.usu _ (Hn a)) as Ha.
  pose proof (@NilZero.usu _ (Hn b)) as Hb.
  rewrite H in Ha. congruence.
Qed.

Lemma csvColumns_inj (r1 r2 : Row) : csvColumns r1 = csvColumns r2 -> r1 = r2.
Proof.
  destruct r1 as [t1 f1 o1 p1 n1], r2 as [t2 f2 o2 p2 n2].
  unfold csvColumns. cbn [task from to file line].
  intros H. injection H as -> -> -> -> H.
  apply stringOfN_inj, Nat2N.inj in H. subst. reflexivity.
Qed.

Lemma map_injective (A B : Type) (f : A -> B) :
  (forall x y, f x = f y -> x = y) ->
  forall l1 l2, map f l1 = map f l2 -> l1 = l2.
Proof.
  intros Hf. induction l1 as [|a l1 IH]; intros [|b l2] E;
    try discriminate E; [reflexivity|].
  cbn [map] in E. injection E as E1 E2.
  f_equal; [apply Hf, E1|apply IH, E2].
Qed.

(** X5.  Reading back the CSV text of a table of rows gives the header
    and then the five columns of every row, in order: no comma, double
    quote or line feed inside a field is taken for a separator.  So the
    text tells the rows: two tables with the same text are the same. *)
Theorem parseCsv_createCsvContent :
  (forall rows,
     parseCsv (createCsvContent rows) = csvHeader :: map csvColumns rows) /\
  (forall rows1 rows2,
     createCsvContent rows1 = createCsvContent rows2 -> rows1 = rows2).
Proof.
  assert (H : forall rows,
            parseCsv (createCsvContent rows) = csvHeader :: map csvColumns rows).
  { intros rows. unfold createCsvContent. cbv zeta. apply readCsv_table.
    constructor; [discriminate|].
    apply Forall_forall. intros r Hr. apply in_map_iff in Hr.
    destruct Hr as (x & <- & _). discriminate. }
  split; [exact H|].
  intros rows1 rows2 E. apply (f_equal parseCsv) in E.
  rewrite !H in E. injection E as E.
  apply (map_injective csvColumns csvColumns_inj), E.
Qed.

Lemma parseCsv_createCsvContent_witness :
  [MkRow (lit "Pay, then file") [] (lit "2025-08-28 14:32:00") (lit "a.md") 3]
  = [MkRow (lit "Pay, then file") [] (lit "2025-08-28 14:32:00") (lit "a.md") 3].
Proof.
  apply (proj2 parseCsv_createCsvContent). reflexivity.
Defined.

(** * The command and the mutator *)

Lemma getSubstitution_plain (m : rmatch) (template : str) :
  noDollar template = true -> getSubstitution m template = template.
Proof.
  induction template as [|c t IH]; [reflexivity|].
  unfold noDollar. cbn [forallb getSubstitution]. intros H.
  apply andb_true_iff in H. destruct H as [Hc Ht].
  rewrite Hc. f_equal. apply IH, Ht.
Qed.

Lemma noDollar_app (a b : str) :
  noDollar (a ++ b) = (noDollar a && noDollar b)%bool.
Proof. apply forallb_app. Qed.

Lemma noDollar_trim (s : str) : noDollar s = true -> noDollar (trim s) = true.
Proof. apply forallb_trim. Qed.

Lemma timeChar_noDollar (s : str) :
  forallb timeChar s = true -> noDollar s = true.
Proof.
  unfold noDollar. intros H. rewrite forallb_forall in *. intros c Hc.
  specialize (H c Hc). apply timeChar_cases in H.
  unfold chr_is. apply negb_true_iff, N.eqb_neq. cbn. lia.
Qed.

Lemma appendEntry_newInner (inner t : str) :
  appendEntry inner t = openToken ++ newInner inner t ++ lit "]".
Proof.
  unfold appendEntry, newInner. cbv zeta.
  destruct (is_empty (trim inner)); rewrite <- ?app_assoc; reflexivity.
Qed.

(** The template the command builds is the text the replacer of the
    mutator returns. *)
Lemma addTimeLogLine_template (t line : str) :
  addTimeLogLine t line =
  match exec timeLogsRegex line with
  | Some m => m_pre m ++ getSubstitution m (appendEntry (group 1 m) t)
              ++ m_post m
  | None => appendTimeLogToLine line t
  end.
Proof.
  unfold addTimeLogLine, appendTimeLogToLine, replaceWith, test.
  destruct (exec timeLogsRegex line) as [m|]; [|reflexivity].
  unfold appendEntry. cbv zeta.
  destruct (is_empty (trim (group 1 m))); reflexivity.
Qed.

Lemma addTimeLogLine_plain (t line : str) :
  noDollar t = true ->
  (forall m, exec timeLogsRegex line = Some m ->
             noDollar (group 1 m) = true) ->
  addTimeLogLine t line = appendTimeLogToLine line t.
Proof.
  intros Ht Hm. rewrite addTimeLogLine_template.
  destruct (exec timeLogsRegex line) as [m|] eqn:E; [|reflexivity].
  unfold appendTimeLogToLine, test, replace. rewrite E.
  rewrite getSubstitution_plain; [reflexivity|].
  specialize (Hm m eq_refl). apply noDollar_trim in Hm.
  unfold appendEntry. cbv zeta.
  destruct (is_empty (trim (group 1 m)));
    rewrite !noDollar_app, ?Hm, Ht; reflexivity.
Qed.

Lemma getSubstitution_prefix (m : rmatch) (p q : str) :
  noDollar p = true -> getSubstitution m (p ++ q) = p ++ getSubstitution m q.
Proof.
  induction p as [|c p IH]; [reflexivity|].
  unfold noDollar. cbn [forallb app getSubstitution]. intros H.
  apply andb_true_iff in H. destruct H as [Hc Hp].
  rewrite Hc. cbn [negb]. f_equal. apply IH, Hp.
Qed.

(** With one group, [$1] is the text of the group whatever follows it. *)
Lemma getSubstitution_dollar1 (m : rmatch) (q : str) :
  length (m_caps m) = 1 ->
  getSubstitution m (lit "$1" ++ q) = group 1 m ++ getSubstitution m q.
Proof.
  intros Hm. change (lit "$1" ++ q) with (36%N :: 49%N :: q).
  cbn [getSubstitution].
  change (chr_is "$" 36%N) with true. change (chr_is "$" 49%N) with false.
  change (chr_is "&" 49%N) with false. change (chr_is "`" 49%N) with false.
  change (chr_is "'" 49%N) with false. change (isDigit 49%N) with true.
  cbn [negb]. cbv iota.
  change (digitValue 49%N) with 1.
  assert (Hc : capture m 1 = Some (group 1 m)).
  { unfold capture, group. rewrite Hm. reflexivity. }
  rewrite Hc. destruct q as [|e q]; [reflexivity|].
  destruct (isDigit e); [|reflexivity].
  rewrite Hm.
  assert (Hlt : Nat.ltb 1 (10 * 1 + digitValue e) = true)
    by (apply Nat.ltb_lt; lia).
  rewrite Hlt. reflexivity.
Qed.

Lemma nth_error_setLine (l : list str) (n k : nat) (text : str) :
  n < length l ->
  nth_error (firstn n l ++ text :: skipn (S n) l) k =
  if Nat.eqb k n then Some text else nth_error l k.
Proof.
  revert n k; induction l as [|x l IH]; intros n k Hn; [inversion Hn|].
  destruct n as [|n].
  - destruct k; reflexivity.
  - cbn [firstn skipn app]. destruct k as [|k]; [reflexivity|].
    cbn [nth_error Nat.eqb]. apply IH. cbn [length] in Hn. lia.
Qed.

Lemma length_setLine (l : list str) (n : nat) (text : str) :
  n < length l ->
  length (firstn n l ++ text :: skipn (S n) l) = length l.
Proof.
  intros Hn. rewrite length_app. cbn [length].
  rewrite length_firstn, length_skipn. lia.
Qed.

Lemma clock_timeChars (now : Date) :
  forallb timeChar (getCurrentFormattedTime now) = true.
Proof.
  unfold getCurrentFormattedTime. cbv zeta.
  destruct (stringOfZ_timeChars (getFullYear now)) as (Hy & _).
  destruct (padStart2_digits (stringOfN_digits (getMonth now + 1)))
    as [Hmo _].
  destruct (padStart2_digits (stringOfN_digits (getDate now))) as [Hda _].
  destruct (padStart2_digits (stringOfN_digits (getHours now))) as [Hho _].
  destruct (padStart2_digits (stringOfN_digits (getMinutes now)))
    as [Hmi _].
  rewrite !forallb_app, Hy,
    (digits_timeChars Hmo), (digits_timeChars Hda),
    (digits_timeChars Hho), (digits_timeChars Hmi).
  reflexivity.
Qed.

(** X6.  On the line of the cursor the command writes what the mutator of
    the auto-detection writes, provided the inner text of the marker of
    that line, if it has one, holds no dollar sign.  No other line of the
    document changes and the cursor stays on its line. *)
Theorem addTimeLog_as_mutator (now : Date) (editor : Editor)
  (currentLine : str) :
  getLine editor (cursorLine editor) = Some currentLine ->
  (forall m, exec timeLogsRegex currentLine = Some m ->
             noDollar (group 1 m) = true) ->
  exists editor',
    addTimeLog now editor = Some editor' /\
    cursorLine editor' = cursorLine editor /\
    length (doc editor') = length (doc editor) /\
    forall n,
      nth_error (doc editor') n =
      if Nat.eqb n (cursorLine editor)
      then Some (appendTimeLogToLine currentLine
                   (getCurrentFormattedTime now))
      else nth_error (doc editor) n.
Proof.
  intros Hl Hm. unfold addTimeLog. cbv zeta. rewrite Hl.
  eexists. split; [reflexivity|].
  assert (Hn : cursorLine editor < length (doc editor)).
  { apply nth_error_Some. unfold getLine in Hl. rewrite Hl. discriminate. }
  rewrite addTimeLogLine_plain;
    [|apply timeChar_noDollar, clock_timeChars|exact Hm].
  split; [reflexivity|]. split.
  - apply length_setLine, Hn.
  - intros n. apply nth_error_setLine, Hn.
Qed.

Lemma addTimeLog_as_mutator_witness :
  addTimeLog (MkDate 2025 7 28 14 32)
    (MkEditor [lit "# Today"; lit "- [ ] Pay bills [time-logs:: 2025-08-28 -09:00; ]"] 1)
  = Some (MkEditor
            [lit "# Today";
             lit "- [ ] Pay bills [time-logs::2025-08-28 -09:00; 2025-08-28 -14:32; ]"]
            1).
Proof.
  destruct (@addTimeLog_as_mutator (MkDate 2025 7 28 14 32)
              (MkEditor [lit "# Today";
                         lit "- [ ] Pay bills [time-logs:: 2025-08-28 -09:00; ]"] 1)
              (lit "- [ ] Pay bills [time-logs:: 2025-08-28 -09:00; ]")
              eq_refl)
    as (editor' & E & _).
  - intros m Hm. vm_compute in Hm. injection Hm as <-. reflexivity.
  - vm_compute. reflexivity.
Defined.

(** X7.  The command builds a replacement text, in which a dollar sign
    starts a replacement pattern: where the entries of the marker hold
    [$1], the command writes the whole old inner text in its place.  The
    mutator of the auto-detection, which returns its text from a replacer
    function, keeps the entries as they are. *)
Theorem addTimeLog_expands_dollar_pattern (t pre x post a b : str) :
  includes openToken pre = false ->
  forallb innerChar x = true ->
  trim x = a ++ lit "$1" ++ b ->
  noDollar a = true -> noDollar b = true -> noDollar t = true ->
  let currentLine := pre ++ openToken ++ x ++ lit "]" ++ post in
  addTimeLogLine t currentLine
    = pre ++ openToken ++ a ++ x ++ b ++ lit " " ++ t ++ lit "; ]" ++ post /\
  appendTimeLogToLine currentLine t
    = pre ++ openToken ++ a ++ lit "$1" ++ b ++ lit " " ++ t ++ lit "; ]"
      ++ post.
Proof.
  intros Hp Hx Htrim Ha Hb Ht currentLine.
  assert (Hf : findMarker [] currentLine = Some (pre, x, post))
    by (apply (@findMarker_first pre [] x post Hp Hx)).
  assert (He : is_empty (trim x) = false).
  { rewrite Htrim. destruct a; reflexivity. }
  split.
  - rewrite addTimeLogLine_template, exec_timeLogs, Hf.
    cbn [option_map markerMatch m_pre m_post]. rewrite group_1.
    unfold appendEntry. cbv zeta. rewrite He, Htrim.
    change (lit "[time-logs::") with openToken.
    rewrite <- !app_assoc.
    rewrite getSubstitution_prefix by reflexivity.
    rewrite getSubstitution_prefix by exact Ha.
    rewrite getSubstitution_dollar1 by reflexivity.
    rewrite group_1.
    rewrite getSubstitution_plain.
    + rewrite <- !app_assoc. reflexivity.
    + rewrite !noDollar_app, Hb, Ht. reflexivity.
  - rewrite (appendTimeLogToLine_marker _ t Hf).
    unfold newInner. rewrite He, Htrim. rewrite <- !app_assoc. reflexivity.
Qed.

Lemma addTimeLog_expands_dollar_pattern_witness :
  addTimeLogLine (lit "2025-08-28 -14:32")
    (lit "- [ ] Lunch [time-logs:: paid $10; ]")
  = lit "- [ ] Lunch [time-logs::paid  paid $10; 0; 2025-08-28 -14:32; ]" /\
  appendTimeLogToLine (lit "- [ ] Lunch [time-logs:: paid $10; ]")
    (lit "2025-08-28 -14:32")
  = lit "- [ ] Lunch [time-logs::paid $10; 2025-08-28 -14:32; ]".
Proof.
  apply (@addTimeLog_expands_dollar_pattern (lit "2025-08-28 -14:32")
           (lit "- [ ] Lunch ") (lit " paid $10; ") [] (lit "paid ")
           (lit "0;")); reflexivity.
Defined.

(** * The content cache and the modify listener *)

Lemma str_eqb_refl (a : str) : str_eqb a a = true.
Proof. apply str_eqb_eq. reflexivity. Qed.

Lemma str_eqb_neq (a b : str) : str_eqb a b = false <-> a <> b.
Proof.
  unfold str_eqb. destruct (list_eq_dec N.eq_dec a b); split; intros H;
    congruence.
Qed.

Lemma Map_get_set_same (k v : str) (m : list (str * str)) :
  Map_get k (Map_set k v m) = Some v.
Proof.
  induction m as [|[k' v'] m IH]; cbn [Map_set Map_get].
  - rewrite str_eqb_refl. reflexivity.
  - destruct (str_eqb k' k) eqn:E; cbn [Map_get]; rewrite E;
      [reflexivity|exact IH].
Qed.

Lemma Map_get_set_other (k k0 v : str) (m : list (str * str)) :
  k0 <> k -> Map_get k0 (Map_set k v m) = Map_get k0 m.
Proof.
  intros Hk. induction m as [|[k' v'] m IH]; cbn [Map_set Map_get].
  - assert (str_eqb k k0 = false) as ->; [|reflexivity].
    apply str_eqb_neq. congruence.
  - destruct (str_eqb k' k) eqn:E; cbn [Map_get].
    + apply str_eqb_eq in E. subst k'.
      assert (str_eqb k k0 = false) as ->; [|reflexivity].
      apply str_eqb_neq. congruence.
    + rewrite IH. reflexivity.
Qed.

Lemma Map_set_known (k v : str) (m : list (str * str)) :
  Map_get k m = Some v -> Map_set k v m = m.
Proof.
  induction m as [|[k' v'] m IH]; cbn [Map_set Map_get]; [discriminate|].
  destruct (str_eqb k' k); intros H.
  - injection H as ->. reflexivity.
  - rewrite (IH H). reflexivity.
Qed.

Lemma Set_has_add (k : str) (s : list str) : Set_has k (Set_add k s) = true.
Proof.
  unfold Set_add. destruct (Set_has k s) eqn:E; [exact E|].
  induction s as [|k' s IH]; cbn [app Set_has].
  - rewrite str_eqb_refl. reflexivity.
  - cbn [Set_has] in E. apply orb_false_iff in E. destruct E as [E1 E2].
    rewrite E1, (IH E2). reflexivity.
Qed.

Lemma Set_delete_add (k : str) (s : list str) :
  Set_has k s = false -> Set_delete k (Set_add k s) = s.
Proof.
  intros E. unfold Set_add. rewrite E.
  induction s as [|k' s IH]; cbn [app Set_delete].
  - rewrite str_eqb_refl. reflexivity.
  - cbn [Set_has] in E. apply orb_false_iff in E. destruct E as [E1 E2].
    rewrite E1, (IH E2). reflexivity.
Qed.

(** Where no line differs, nothing is logged. *)
Lemma doneTasksLoop_same (clock : nat -> Date) (ls : list str) (i : nat) :
  doneTasksLoop clock i ls ls = (ls, false).
Proof.
  revert i; induction ls as [|l ls IH]; intros i; [reflexivity|].
  cbn [doneTasksLoop]. rewrite IH, str_eqb_refl. reflexivity.
Qed.

Lemma addTimeLogForDoneTasks_same (clock : nat -> Date) (c : str) :
  addTimeLogForDoneTasks clock c c = c.
Proof.
  unfold addTimeLogForDoneTasks. cbv zeta. rewrite doneTasksLoop_same.
  reflexivity.
Qed.

Lemma onModify_begin_Some (p : Plugin) (f : TAbstractFile) (file_path : str) :
  onModify_begin p f = Some file_path ->
  f = AFile file_path (lit "md") /\
  autoLogOnTaskDone (settings p) = true /\
  Set_has file_path (programmaticUpdatePaths p) = false.
Proof.
  destruct f as [fp ext|d]; cbn [onModify_begin]; [|discriminate].
  destruct (str_eqb ext (lit "md")) eqn:Ee; cbn [negb]; [|discriminate].
  destruct (autoLogOnTaskDone (settings p)); cbn [negb]; [|discriminate].
  destruct (Set_has fp (programmaticUpdatePaths p)) eqn:Es; [discriminate|].
  intros [= <-]. apply str_eqb_eq in Ee. subst ext. auto.
Qed.

Lemma onModify_read_same (clock : nat -> Date) (p : Plugin)
  (file_path c : str) :
  Map_get file_path (previousContentByPath p) = Some c ->
  onModify_read clock p file_path c = (p, None).
Proof.
  intros H. unfold onModify_read. rewrite H. cbv zeta.
  rewrite addTimeLogForDoneTasks_same, str_eqb_refl. cbn [negb].
  rewrite (Map_set_known _ _ H). destruct p; reflexivity.
Qed.

Lemma onModify_read_Some (clock : nat -> Date) (p p1 : Plugin)
  (file_path newContent w : str) :
  onModify_read clock p file_path newContent = (p1, Some w) ->
  exists prevContent,
    Map_get file_path (previousContentByPath p) = Some prevContent /\
    w = addTimeLogForDoneTasks clock prevContent newContent /\
    w <> newContent /\
    p1 = MkPlugin (settings p) (previousContentByPath p)
           (Set_add file_path (programmaticUpdatePaths p)).
Proof.
  unfold onModify_read.
  destruct (Map_get file_path (previousContentByPath p)) as [prev|];
    [|discriminate].
  cbv zeta.
  destruct (str_eqb (addTimeLogForDoneTasks clock prev newContent) newContent)
    eqn:E; cbn [negb]; [discriminate|].
  intros [= <- <-]. exists prev. apply str_eqb_neq in E. auto.
Qed.

(** X8.  An event for a file whose content is the one the cache holds
    changes nothing: no write is asked for and the plugin is left as it
    was. *)
Theorem onModify_unchanged_content (clock : nat -> Date) (p : Plugin)
  (f : TAbstractFile) (file_path c : str) (written : bool) :
  onModify_begin p f = Some file_path ->
  Map_get file_path (previousContentByPath p) = Some c ->
  onModify clock p f c written = (p, None).
Proof.
  intros Hb Hc. unfold onModify. rewrite Hb, (onModify_read_same clock _ _ Hc).
  reflexivity.
Qed.

Lemma onModify_unchanged_content_witness :
  onModify (fun _ => MkDate 2025 7 28 14 32)
    (MkPlugin DEFAULT_SETTINGS [(lit "a.md", lit "- [x] Pay bills")] [])
    (AFile (lit "a.md") (lit "md")) (lit "- [x] Pay bills") true
  = (MkPlugin DEFAULT_SETTINGS [(lit "a.md", lit "- [x] Pay bills")] [],
     None).
Proof.
  apply (@onModify_unchanged_content _ _ _ (lit "a.md")); reflexivity.
Defined.

(** X9.  The listener does not react to its own write.  When it asks for a
    write, the written content is the auto-detection transform of the
    cached and the new content and differs from the new content; while the
    write is under way an event for the file is not even read; once the
    write is through, the set of paths under update is as before, the cache
    holds the written content, and an event that reads this content back
    asks for no further write and leaves the plugin as it is. *)
Theorem onModify_settles (clock clock' : nat -> Date) (p p1 : Plugin)
  (f : TAbstractFile) (file_path newContent w : str) :
  onModify_begin p f = Some file_path ->
  onModify_read clock p file_path newContent = (p1, Some w) ->
  (exists prevContent,
     Map_get file_path (previousContentByPath p) = Some prevContent /\
     w = addTimeLogForDoneTasks clock prevContent newContent) /\
  w <> newContent /\
  onModify_begin p1 f = None /\
  let p2 := onModify_written p1 file_path w true in
  programmaticUpdatePaths p2 = programmaticUpdatePaths p /\
  Map_get file_path (previousContentByPath p2) = Some w /\
  onModify_begin p2 f = Some file_path /\
  onModify_read clock' p2 file_path w = (p2, None).
Proof.
  intros Hb Hr.
  destruct (onModify_begin_Some _ _ Hb) as (-> & Ha & Hs).
  destruct (onModify_read_Some _ _ _ _ Hr) as (prev & Hg & Hw & Hne & ->).
  split; [exists prev; auto|]. split; [exact Hne|]. split.
  - cbn [onModify_begin settings programmaticUpdatePaths].
    rewrite str_eqb_refl, Ha, Set_has_add. reflexivity.
  - cbv zeta. unfold onModify_written.
    cbn [settings previousContentByPath programmaticUpdatePaths].
    rewrite (Set_delete_add _ _ Hs). split; [reflexivity|].
    split; [apply Map_get_set_same|]. split.
    + cbn [onModify_begin settings programmaticUpdatePaths].
      rewrite str_eqb_refl, Ha, Hs. reflexivity.
    + apply onModify_read_same. apply Map_get_set_same.
Qed.

Lemma onModify_settles_witness :
  onModify_read (fun _ => MkDate 2025 7 28 15 0)
    (onModify_written
       (MkPlugin DEFAULT_SETTINGS [(lit "a.md", lit "- [ ] Pay bills")]
          [lit "a.md"])
       (lit "a.md") (lit "- [x] Pay bills [time-logs:: 2025-08-28 -14:32; ]")
       true)
    (lit "a.md") (lit "- [x] Pay bills [time-logs:: 2025-08-28 -14:32; ]")
  = (MkPlugin DEFAULT_SETTINGS
       [(lit "a.md", lit "- [x] Pay bills [time-logs:: 2025-08-28 -14:32; ]")]
       [], None).
Proof.
  destruct (@onModify_settles (fun _ => MkDate 2025 7 28 14 32)
              (fun _ => MkDate 2025 7 28 15 0)
              (MkPlugin DEFAULT_SETTINGS
                 [(lit "a.md", lit "- [ ] Pay bills")] [])
              (MkPlugin DEFAULT_SETTINGS
                 [(lit "a.md", lit "- [ ] Pay bills")] [lit "a.md"])
              (AFile (lit "a.md") (lit "md")) (lit "a.md")
              (lit "- [x] Pay bills")
              (lit "- [x] Pay bills [time-logs:: 2025-08-28 -14:32; ]")
              eq_refl eq_refl)
    as (_ & _ & _ & _ & _ & _ & H).
  exact H.
Defined.

(** X10.  A write that fails is as if the listener had not run: the plugin
    is left exactly as the event found it, with the old content in the
    cache, so the same completion is found again at the next event. *)
Theorem onModify_failed_write (clock : nat -> Date) (p p1 : Plugin)
  (f : TAbstractFile) (file_path newContent w : str) :
  onModify_begin p f = Some file_path ->
  onModify_read clock p file_path newContent = (p1, Some w) ->
  onModify_written p1 file_path w false = p /\
  onModify clock p f newContent false = (p, None) /\
  onModify_read clock (onModify_written p1 file_path w false) file_path
    newContent = (p1, Some w).
Proof.
  intros Hb Hr.
  destruct (onModify_begin_Some _ _ Hb) as (_ & _ & Hs).
  assert (E : onModify_written p1 file_path w false = p).
  { destruct (onModify_read_Some _ _ _ _ Hr) as (_ & _ & _ & _ & ->).
    unfold onModify_written.
    cbn [settings previousContentByPath programmaticUpdatePaths].
    rewrite (Set_delete_add _ _ Hs). destruct p; reflexivity. }
  split; [exact E|]. split.
  - unfold onModify. rewrite Hb, Hr, E. reflexivity.
  - rewrite E. exact Hr.
Qed.

Lemma onModify_failed_write_witness :
  onModify (fun _ => MkDate 2025 7 28 14 32)
    (MkPlugin DEFAULT_SETTINGS [(lit "a.md", lit "- [ ] Pay bills")] [])
    (AFile (lit "a.md") (lit "md")) (lit "- [x] Pay bills") false
  = (MkPlugin DEFAULT_SETTINGS [(lit "a.md", lit "- [ ] Pay bills")] [],
     None).
Proof.
  destruct (@onModify_failed_write (fun _ => MkDate 2025 7 28 14 32)
              (MkPlugin DEFAULT_SETTINGS
                 [(lit "a.md", lit "- [ ] Pay bills")] [])
              (MkPlugin DEFAULT_SETTINGS
                 [(lit "a.md", lit "- [ ] Pay bills")] [lit "a.md"])
              (AFile (lit "a.md") (lit "md")) (lit "a.md")
              (lit "- [x] Pay bills")
              (lit "- [x] Pay bills [time-logs:: 2025-08-28 -14:32; ]")
              eq_refl eq_refl)
    as (_ & H & _).
  exact H.
Defined.

(** X11.  After the listener has handled an event whose write, if any,
    went through, the cache holds for the file what the file holds: the
    content written, or the content read when nothing was written.  The
    cache of every other file, the settings and the set of paths under
    update are as before. *)
Theorem onModify_cache_follows_file (clock : nat -> Date) (p : Plugin)
  (f : TAbstractFile) (file_path newContent : str) :
  onModify_begin p f = Some file_path ->
  let p' := fst (onModify clock p f newContent true) in
  let written := snd (onModify clock p f newContent true) in
  Map_get file_path (previousContentByPath p')
    = Some (match written with Some w => w | None => newContent end) /\
  (forall q, q <> file_path ->
     Map_get q (previousContentByPath p')
     = Map_get q (previousContentByPath p)) /\
  settings p' = settings p /\
  programmaticUpdatePaths p' = programmaticUpdatePaths p.
Proof.
  intros Hb. destruct (onModify_begin_Some _ _ Hb) as (_ & _ & Hs).
  unfold onModify. rewrite Hb. unfold onModify_read.
  destruct (Map_get file_path (previousContentByPath p)) as [prev|] eqn:Eg.
  - cbv zeta.
    destruct (str_eqb (addTimeLogForDoneTasks clock prev newContent)
                newContent) eqn:Ee; cbn [negb fst snd].
    + cbn [previousContentByPath settings programmaticUpdatePaths].
      split; [apply Map_get_set_same|]. split; [|auto].
      intros q Hq. apply Map_get_set_other, Hq.
    + unfold onModify_written.
      cbn [previousContentByPath settings programmaticUpdatePaths].
      split; [apply Map_get_set_same|]. split; [|split; [reflexivity|]].
      * intros q Hq. apply Map_get_set_other, Hq.
      * apply Set_delete_add, Hs.
  - cbn [fst snd previousContentByPath settings programmaticUpdatePaths].
    split; [apply Map_get_set_same|]. split; [|auto].
    intros q Hq. apply Map_get_set_other, Hq.
Qed.

Lemma onModify_cache_follows_file_witness :
  Map_get (lit "a.md")
    (previousContentByPath
       (fst (onModify (fun _ => MkDate 2025 7 28 14 32)
               (MkPlugin DEFAULT_SETTINGS
                  [(lit "a.md", lit "- [ ] Pay bills")] [])
               (AFile (lit "a.md") (lit "md")) (lit "- [x] Pay bills") true)))
  = Some (lit "- [x] Pay bills [time-logs:: 2025-08-28 -14:32; ]").
Proof.
  apply (@onModify_cache_follows_file (fun _ => MkDate 2025 7 28 14 32)
           (MkPlugin DEFAULT_SETTINGS [(lit "a.md", lit "- [ ] Pay bills")] [])
           (AFile (lit "a.md") (lit "md")) (lit "a.md")
           (lit "- [x] Pay bills")).
  reflexivity.
Defined.

Lemma initializeFileContentCache_absent (files : list (str * option str))
  (p : str) :
  forall cache,
  (forall c, ~ In (p, Some c) files) ->
  Map_get p (initializeFileContentCache files cache) = Map_get p cache.
Proof.
  induction files as [|[q [c|]] files IH]; intros cache H;
    cbn [initializeFileContentCache]; [reflexivity| |].
  - rewrite IH by (intros c' Hin; apply (H c'); right; exact Hin).
    apply Map_get_set_other. intros ->. apply (H c). left. reflexivity.
  - apply IH. intros c' Hin. apply (H c'). right. exact Hin.
Qed.

(** X12.  After [initializeFileContentCache] the cache holds, for every
    markdown file that could be read, the content read, and nothing for a
    file that could not be read or is not in the vault. *)
Theorem initializeFileContentCache_lookup (files : list (str * option str))
  (p : str) :
  NoDup (map fst files) ->
  (forall c, In (p, Some c) files ->
     Map_get p (initializeFileContentCache files []) = Some c) /\
  ((forall c, ~ In (p, Some c) files) ->
     Map_get p (initializeFileContentCache files []) = None).
Proof.
  intros Hnd. split.
  - generalize (@nil (str * str)) as cache.
    induction files as [|[q r] files IH]; intros cache c Hin; [destruct Hin|].
    cbn [map fst] in Hnd. inversion Hnd as [|? ? Hq Hnd']; subst.
    destruct Hin as [[= -> ->]|Hin].
    + cbn [initializeFileContentCache].
      rewrite initializeFileContentCache_absent.
      * apply Map_get_set_same.
      * intros c' Hin. apply Hq.
        change p with (fst (p, Some c')). apply in_map, Hin.
    + destruct r as [c'|]; cbn [initializeFileContentCache];
        apply (IH Hnd' _ _ Hin).
  - intros H. apply (@initializeFileContentCache_absent files p [] H).
Qed.

Lemma initializeFileContentCache_lookup_witness :
  Map_get (lit "b.md")
    (initializeFileContentCache
       [(lit "a.md", Some (lit "one")); (lit "b.md", Some (lit "two"));
        (lit "c.md", None)] [])
  = Some (lit "two").
Proof.
  apply (@initializeFileContentCache_lookup
           [(lit "a.md", Some (lit "one")); (lit "b.md", Some (lit "two"));
            (lit "c.md", None)] (lit "b.md")).
  - repeat constructor; cbn; intuition discriminate.
  - right. left. reflexivity.
Defined.

(** X13.  The first event for a file the cache does not know only records
    the content: no write is asked for, whatever the content.  This is so
    for every file when auto-logging was off as the plugin loaded and is
    switched on in the settings: the cache is empty then, and a task
    completed in the first change of a file gets no time log. *)
Theorem onModify_first_event (clock : nat -> Date) (p : Plugin)
  (f : TAbstractFile) (file_path newContent : str) (written : bool) :
  onModify_begin p f = Some file_path ->
  Map_get file_path (previousContentByPath p) = None ->
  onModify clock p f newContent written
  = (MkPlugin (settings p)
       (Map_set file_path newContent (previousContentByPath p))
       (programmaticUpdatePaths p), None)
  /\ forall data files,
       autoLogOnTaskDone (loadSettings data) = false ->
       onModify clock (setAutoLogOnTaskDone true (onload data files))
         (AFile file_path (lit "md")) newContent written
       = (MkPlugin (MkSettings (csvExportPath (loadSettings data)) true)
            [(file_path, newContent)] [], None).
Proof.
  intros Hb Hg. split.
  - unfold onModify, onModify_read. rewrite Hb, Hg. reflexivity.
  - intros data files Hoff. unfold onload. cbv zeta. rewrite Hoff.
    unfold onModify, onModify_begin, setAutoLogOnTaskDone.
    cbn [settings autoLogOnTaskDone programmaticUpdatePaths Set_has negb
         previousContentByPath csvExportPath].
    rewrite str_eqb_refl. reflexivity.
Qed.

Lemma onModify_first_event_witness :
  onModify (fun _ => MkDate 2025 7 28 14 32)
    (setAutoLogOnTaskDone true
       (onload (Some (MkStored None (Some false)))
          [(lit "a.md", Some (lit "- [ ] Pay bills"))]))
    (AFile (lit "a.md") (lit "md")) (lit "- [x] Pay bills") true
  = (MkPlugin (MkSettings [] true) [(lit "a.md", lit "- [x] Pay bills")] [],
     None).
Proof.
  apply (@onModify_first_event (fun _ => MkDate 2025 7 28 14 32)
           (setAutoLogOnTaskDone true
              (onload (Some (MkStored None (Some false)))
                 [(lit "a.md", Some (lit "- [ ] Pay bills"))]))
           (AFile (lit "a.md") (lit "md")) (lit "a.md")
           (lit "- [x] Pay bills") true); reflexivity.
Defined.

(** * The export *)

Lemma runs_allRuns (A : Type) (p : prog A) (tr : list event)
  (out : option A) :
  runs p tr out -> forall P, allRuns p P -> P tr out.
Proof.
  induction 1 as [a| |X c k r tr out _ IH|o k tr out _ IH]; intros P HP;
    cbn [allRuns] in HP.
  - exact HP.
  - exact HP.
  - apply (IH (fun tr out => P (Called c r :: tr) out)), HP.
  - apply (IH (fun tr out => P (Shown o :: tr) out)), HP.
Qed.

(** The run on a host is one of the runs. *)
Lemma interp_runs (A : Type) (host : Host) (p : prog A) :
  forall before,
  runs p (fst (interp host before p)) (snd (interp host before p)).
Proof.
  induction p as [a| |X c k IH|o k IH]; intros before; cbn [interp].
  - apply runs_Ret.
  - apply runs_Throw.
  - specialize (IH (host before X c) (before ++ [Called c (host before X c)])).
    destruct (interp host (before ++ [Called c (host before X c)])
                (k (host before X c))) as [tr out].
    apply runs_Vis, IH.
  - specialize (IH (before ++ [Shown o])).
    destruct (interp host (before ++ [Shown o]) k) as [tr out].
    apply runs_Tell, IH.
Qed.

Lemma allRuns_weaken (A : Type) (p : prog A) :
  forall (P Q : list event -> option A -> Prop),
  (forall tr out, P tr out -> Q tr out) -> allRuns p P -> allRuns p Q.
Proof.
  induction p as [a| |X c k IH|o k IH]; intros P Q HPQ HP; cbn [allRuns] in *.
  - apply HPQ, HP.
  - apply HPQ, HP.
  - intros r. apply (IH r _ _ (fun tr out => HPQ (Called c r :: tr) out)), HP.
  - apply (IH _ _ (fun tr out => HPQ (Shown o :: tr) out)), HP.
Qed.

Lemma allRuns_bind (A B : Type) (p : prog A) (f : A -> prog B) :
  forall (P : list event -> option B -> Prop),
  allRuns p (fun tr out =>
    match out with
    | Some a => allRuns (f a) (fun tr' out' => P (tr ++ tr') out')
    | None => P tr None
    end) ->
  allRuns (bind p f) P.
Proof.
  induction p as [a| |X c k IH|o k IH]; intros P HP;
    cbn [allRuns bind] in *.
  - exact HP.
  - exact HP.
  - intros r. apply IH. eapply allRuns_weaken; [|apply HP].
    intros tr [a|] H; exact H.
  - apply IH. eapply allRuns_weaken; [|apply HP].
    intros tr [a|] H; exact H.
Qed.

Lemma allRuns_tryCatch (A : Type) (p h : prog A) :
  forall (P : list event -> option A -> Prop),
  allRuns p (fun tr out =>
    match out with
    | Some a => P tr (Some a)
    | None => allRuns h (fun tr' out' => P (tr ++ tr') out')
    end) ->
  allRuns (tryCatch p h) P.
Proof.
  induction p as [a| |X c k IH|o k IH]; intros P HP;
    cbn [allRuns tryCatch] in *.
  - exact HP.
  - exact HP.
  - intros r. apply IH. eapply allRuns_weaken; [|apply HP].
    intros tr [a|] H; exact H.
  - apply IH. eapply allRuns_weaken; [|apply HP].
    intros tr [a|] H; exact H.
Qed.

Lemma lastIndexOf_Some (c : char) (s : str) (i : nat) :
  lastIndexOf c s = Some i ->
  s = firstn i s ++ c :: skipn (S i) s /\
  existsb (N.eqb c) (skipn (S i) s) = false.
Proof.
  revert i; induction s as [|d s IH]; intros i; cbn [lastIndexOf];
    [discriminate|].
  destruct (lastIndexOf c s) as [j|] eqn:E.
  - intros [= <-]. destruct (IH j eq_refl) as [H1 H2].
    cbn [firstn skipn app]. split; [f_equal; exact H1|exact H2].
  - destruct (N.eqb d c) eqn:Ed; [|discriminate]. intros [= <-].
    apply N.eqb_eq in Ed. subst d. cbn [firstn skipn app].
    split; [reflexivity|].
    clear IH. induction s as [|e s IH]; [reflexivity|].
    cbn [lastIndexOf] in E.
    destruct (lastIndexOf c s); [discriminate|].
    destruct (N.eqb e c) eqn:Ee; [discriminate|].
    cbn [existsb]. rewrite N.eqb_sym, Ee. apply IH. reflexivity.
Qed.

Lemma lastIndexOf_None (c : char) (s : str) :
  lastIndexOf c s = None -> existsb (N.eqb c) s = false.
Proof.
  induction s as [|e s IH]; [reflexivity|]. cbn [lastIndexOf].
  destruct (lastIndexOf c s); [discriminate|].
  destruct (N.eqb e c) eqn:Ee; [discriminate|]. intros _.
  cbn [existsb]. rewrite N.eqb_sym, Ee. apply IH. reflexivity.
Qed.

(** X14.  [ensureParentFolderExists] looks at one folder only, the path up
    to its last slash, and asks the vault to create it when it is not
    there.  A path without a slash, or with nothing before its last slash,
    makes no call at all.  A failure of the creation is swallowed; the
    function throws only when the lookup of the folder throws. *)
Theorem ensureParentFolderExists_runs (filePath : str) (tr : list event)
  (out : option unit) :
  runs (ensureParentFolderExists filePath) tr out ->
  match lastIndexOf (N_of_ascii "/") filePath with
  | None => tr = [] /\ out = Some tt
  | Some lastSlash =>
      let folder := firstn lastSlash filePath in
      let name := skipn (S lastSlash) filePath in
      filePath = folder ++ lit "/" ++ name /\
      existsb (chr_is "/") name = false /\
      if is_empty folder then tr = [] /\ out = Some tt
      else
        exists found tr',
          tr = Called (GetAbstractFileByPath folder) found :: tr' /\
          match found with
          | None => tr' = [] /\ out = None
          | Some (Some _) => tr' = [] /\ out = Some tt
          | Some None =>
              out = Some tt /\
              exists r, tr' = [Called (CreateFolder folder) r]
          end
  end.
Proof.
  intros Hr. apply (runs_allRuns Hr). clear Hr tr out.
  unfold ensureParentFolderExists.
  destruct (lastIndexOf (N_of_ascii "/") filePath) as [i|] eqn:E;
    [|cbn [allRuns]; auto].
  destruct (lastIndexOf_Some _ _ E) as [H1 H2]. cbv zeta.
  destruct (is_empty (firstn i filePath)); [cbn [allRuns]; auto|].
  cbn [allRuns bind await]. intros [[k|]|]; cbn [allRuns bind tryCatch await].
  - split; [exact H1|]. split; [exact H2|].
    eexists _, _. split; [reflexivity|]. cbv iota. auto.
  - intros r. destruct r; cbn [allRuns bind tryCatch];
      (split; [exact H1|]); (split; [exact H2|]);
      eexists _, _; (split; [reflexivity|]); cbv iota; eauto.
  - split; [exact H1|]. split; [exact H2|].
    eexists _, _. split; [reflexivity|]. cbv iota. auto.
Qed.

Lemma ensureParentFolderExists_runs_witness :
  exists found tr',
    [Called (GetAbstractFileByPath (lit "exports/2025")) (Some None);
     Called (CreateFolder (lit "exports/2025")) None]
    = Called (GetAbstractFileByPath (lit "exports/2025")) found :: tr' /\
    match found with
    | None => tr' = [] /\ Some tt = None
    | Some (Some _) => tr' = [] /\ Some tt = Some tt
    | Some None =>
        Some tt = Some tt /\
        exists r, tr' = [Called (CreateFolder (lit "exports/2025")) r]
    end.
Proof.
  refine (proj2 (proj2 (@ensureParentFolderExists_runs
            (lit "exports/2025/time-logs.csv") _ _ _))).
  unfold ensureParentFolderExists. cbn.
  apply runs_Vis with (r := Some None). cbn.
  apply runs_Vis with (r := None). cbn. apply runs_Ret.
Defined.

Lemma trimStart_idem (s : str) : trimStart (trimStart s) = trimStart s.
Proof.
  induction s as [|c s IH]; [reflexivity|]. cbn [trimStart].
  destruct (isSpace c) eqn:E; [exact IH|]. cbn [trimStart]. rewrite E.
  reflexivity.
Qed.

Lemma trim_idem (s : str) : trim (trim s) = trim s.
Proof.
  unfold trim at 1 2.
  assert (H : trimStart (trimEnd (trimStart s)) = trimEnd (trimStart s)).
  { destruct (trimStart s) as [|c r] eqn:E; [reflexivity|].
    pose proof (@trimStart_head _ _ _ E) as Hc.
    rewrite trimEnd_cons_nonspace by exact Hc.
    apply trimStart_nonspace, Hc. }
  rewrite H. unfold trimEnd. rewrite rev_involutive, trimStart_idem.
  reflexivity.
Qed.

Lemma wrote_isWrite (p d : str) (e : event) :
  wrote p d e = true -> isWrite e = true.
Proof.
  destruct e as [X c [r|]|o]; cbn [wrote isWrite]; try discriminate.
  destruct c; try discriminate; reflexivity.
Qed.

Lemma noWrite_wrote (tr : list event) (p d : str) :
  existsb isWrite tr = false -> existsb (wrote p d) tr = false.
Proof.
  induction tr as [|e tr IH]; [reflexivity|]. cbn [existsb].
  intros H. apply orb_false_iff in H. destruct H as [He Htr].
  rewrite (IH Htr), orb_false_r.
  destruct (wrote p d e) eqn:E; [|reflexivity].
  apply wrote_isWrite in E. congruence.
Qed.

Lemma noWrite_filter (tr : list event) :
  existsb isWrite tr = false -> filter isWrite tr = [].
Proof.
  induction tr as [|e tr IH]; [reflexivity|]. cbn [existsb filter].
  intros H. apply orb_false_iff in H. destruct H as [He Htr].
  rewrite He. apply IH, Htr.
Qed.

Lemma ensureParentFolderExists_noWrite (filePath : str) :
  allRuns (ensureParentFolderExists filePath)
    (fun tr _ => existsb isWrite tr = false).
Proof.
  unfold ensureParentFolderExists.
  destruct (lastIndexOf (N_of_ascii "/") filePath) as [i|];
    [|reflexivity].
  cbv zeta. destruct (is_empty (firstn i filePath)); [reflexivity|].
  cbn [allRuns bind await]. intros [[k|]|]; cbn [allRuns bind tryCatch await];
    try reflexivity.
  intros [r|]; reflexivity.
Qed.

Lemma writeCsvPost_app (filePath csv : str) (tr tr' : list event)
  (out : option str) :
  existsb isWrite tr = false ->
  writeCsvPost filePath csv tr' out ->
  writeCsvPost filePath csv (tr ++ tr') out.
Proof.
  intros Hn [H1 H2]. split.
  - rewrite filter_app, noWrite_filter by exact Hn. exact H1.
  - destruct out as [p|].
    + destruct H2 as (-> & tr0 & e & -> & He). split; [reflexivity|].
      exists (tr ++ tr0), e. rewrite app_assoc. auto.
    + intros p d. rewrite existsb_app, noWrite_wrote by exact Hn. apply H2.
Qed.

Lemma writeCsvToVault_all (s : option TimeLogsSettings) (csv : str) :
  allRuns (writeCsvToVault s csv) (writeCsvPost (csvFilePath s) csv).
Proof.
  unfold writeCsvToVault. cbv zeta.
  set (filePath := csvFilePath s).
  unfold isAbsoluteOsPath. cbn [bind tryCatch await allRuns].
  intros [[|]|]; cbn [bind tryCatch await allRuns].
  - (* an absolute path *)
    intros [dir|]; cbn [bind await allRuns];
      [|split; [cbn; lia|intros p d; reflexivity]].
    intros [[]|]; cbn [bind await allRuns];
      [|split; [cbn; lia|intros p d; reflexivity]].
    intros [[]|]; cbn [bind await allRuns];
      [|split; [cbn; lia|intros p d; reflexivity]].
    split; [cbn; lia|]. split; [reflexivity|].
    eexists [_; _; _], _. split; [reflexivity|].
    cbn [wrote]. rewrite !str_eqb_refl. reflexivity.
  - (* a path of the vault *)
    apply allRuns_bind.
    eapply allRuns_weaken; [|apply ensureParentFolderExists_noWrite].
    intros tr0 [[]|] Hn; cbn beta iota.
    + cbn [bind await allRuns]. intros [existing|]; cbn [bind await allRuns].
      * destruct existing as [[|]|]; cbn [bind await allRuns];
          intros [[]|]; cbn [bind await allRuns].
        all: try (change (Called (IsAbsolute filePath) (Some false) :: tr0 ++ ?l)
                    with ((Called (IsAbsolute filePath) (Some false) :: tr0) ++ l)).
        all: apply writeCsvPost_app;
          [cbn [existsb isWrite]; exact Hn|].
        all: split; [cbn; lia|].
        all: try (intros p d; reflexivity).
        all: split; [reflexivity|].
        all: eexists [_], _; (split; [reflexivity|]);
          cbn [wrote]; rewrite !str_eqb_refl; reflexivity.
      * change (Called (IsAbsolute filePath) (Some false)
                :: tr0 ++ [Called (GetAbstractFileByPath filePath) None])
          with ((Called (IsAbsolute filePath) (Some false) :: tr0)
                ++ [Called (GetAbstractFileByPath filePath) None]).
        apply writeCsvPost_app; [cbn [existsb isWrite]; exact Hn|].
        split; [cbn; lia|intros p d; reflexivity].
    + split.
      * cbn [filter isWrite].
        rewrite noWrite_filter by exact Hn. cbn. lia.
      * intros p d. cbn [existsb wrote].
        apply noWrite_wrote, Hn.
  - (* isAbsolute throws: taken for a path of the vault *)
    apply allRuns_bind.
    eapply allRuns_weaken; [|apply ensureParentFolderExists_noWrite].
    intros tr0 [[]|] Hn; cbn beta iota.
    + cbn [bind await allRuns]. intros [existing|]; cbn [bind await allRuns].
      * destruct existing as [[|]|]; cbn [bind await allRuns];
          intros [[]|]; cbn [bind await allRuns].
        all: try (change (Called (IsAbsolute filePath) None :: tr0 ++ ?l)
                    with ((Called (IsAbsolute filePath) None :: tr0) ++ l)).
        all: apply writeCsvPost_app;
          [cbn [existsb isWrite]; exact Hn|].
        all: split; [cbn; lia|].
        all: try (intros p d; reflexivity).
        all: split; [reflexivity|].
        all: eexists [_], _; (split; [reflexivity|]);
          cbn [wrote]; rewrite !str_eqb_refl; reflexivity.
      * change (Called (IsAbsolute filePath) None
                :: tr0 ++ [Called (GetAbstractFileByPath filePath) None])
          with ((Called (IsAbsolute filePath) None :: tr0)
                ++ [Called (GetAbstractFileByPath filePath) None]).
        apply writeCsvPost_app; [cbn [existsb isWrite]; exact Hn|].
        split; [cbn; lia|intros p d; reflexivity].
    + split.
      * cbn [filter isWrite].
        rewrite noWrite_filter by exact Hn. cbn. lia.
      * intros p d. cbn [existsb wrote].
        apply noWrite_wrote, Hn.
Qed.

Lemma allRuns_and (A : Type) (p : prog A) :
  forall (P Q : list event -> option A -> Prop),
  allRuns p P -> allRuns p Q -> allRuns p (fun tr out => P tr out /\ Q tr out).
Proof.
  induction p as [a| |X c k IH|o k IH]; intros P Q HP HQ; cbn [allRuns] in *.
  - auto.
  - auto.
  - intros r. apply (IH r (fun tr out => P (Called c r :: tr) out)
                          (fun tr out => Q (Called c r :: tr) out));
      [apply HP|apply HQ].
  - apply (IH (fun tr out => P (Shown o :: tr) out)
              (fun tr out => Q (Shown o :: tr) out)); assumption.
Qed.

Lemma notices_app (a b : list event) :
  notices (a ++ b) = notices a ++ notices b.
Proof.
  induction a as [|e a IH]; [reflexivity|].
  destruct e as [X c r|[text|]]; cbn [app notices]; rewrite IH; reflexivity.
Qed.

Lemma ensureParentFolderExists_silent (filePath : str) :
  allRuns (ensureParentFolderExists filePath) (fun tr _ => notices tr = []).
Proof.
  unfold ensureParentFolderExists.
  destruct (lastIndexOf (N_of_ascii "/") filePath) as [i|];
    [|reflexivity].
  cbv zeta. destruct (is_empty (firstn i filePath)); [reflexivity|].
  cbn [allRuns bind await]. intros [[k|]|]; cbn [allRuns bind tryCatch await];
    try reflexivity.
  intros [r|]; reflexivity.
Qed.

Lemma writeCsvToVault_silent (s : option TimeLogsSettings) (csv : str) :
  allRuns (writeCsvToVault s csv) (fun tr _ => notices tr = []).
Proof.
  unfold writeCsvToVault. cbv zeta.
  set (filePath := csvFilePath s).
  unfold isAbsoluteOsPath. cbn [bind tryCatch await allRuns].
  intros [[|]|]; cbn [bind tryCatch await allRuns].
  - intros [dir|]; cbn [bind await allRuns]; [|reflexivity].
    intros [[]|]; cbn [bind await allRuns]; [|reflexivity].
    intros [[]|]; reflexivity.
  - apply allRuns_bind.
    eapply allRuns_weaken; [|apply ensureParentFolderExists_silent].
    intros tr0 [[]|] Hn; cbn beta iota; [|exact Hn].
    cbn [bind await allRuns]. intros [existing|]; cbn [bind await allRuns].
    + destruct existing as [[|]|]; cbn [bind await allRuns];
        intros [[]|]; cbn [bind await allRuns notices];
        rewrite notices_app, Hn; reflexivity.
    + cbn [notices]. rewrite notices_app, Hn. reflexivity.
  - apply allRuns_bind.
    eapply allRuns_weaken; [|apply ensureParentFolderExists_silent].
    intros tr0 [[]|] Hn; cbn beta iota; [|exact Hn].
    cbn [bind await allRuns]. intros [existing|]; cbn [bind await allRuns].
    + destruct existing as [[|]|]; cbn [bind await allRuns];
        intros [[]|]; cbn [bind await allRuns notices];
        rewrite notices_app, Hn; reflexivity.
    + cbn [notices]. rewrite notices_app, Hn. reflexivity.
Qed.

Lemma readFiles_all (paths : list str) :
  allRuns (readFiles paths) (fun tr out =>
    existsb isWrite tr = false /\ notices tr = [] /\
    match out with
    | Some files => map path files = paths /\ tr = readEvents files
    | None => True
    end).
Proof.
  induction paths as [|p paths IH]; [cbn; auto|].
  cbn [readFiles bind await allRuns]. intros [c|]; cbn [bind allRuns];
    [|cbn; auto].
  apply allRuns_bind. eapply allRuns_weaken; [|apply IH].
  intros tr [files|] (Hw & Hn & H); cbn beta iota.
  - destruct H as [<- ->]. cbn [allRuns]. rewrite app_nil_r.
    cbn [existsb isWrite notices]. repeat split; assumption.
  - cbn [existsb isWrite notices]. auto.
Qed.

Section ExportFacts.
Variable localeCompare : str -> str -> Z.

Lemma collectTimeLogRowsOfVault_all :
  allRuns (collectTimeLogRowsOfVault localeCompare) (fun tr out =>
    existsb isWrite tr = false /\ notices tr = [] /\
    match out with
    | Some rows =>
        exists files,
          rows = collectTimeLogRows localeCompare files /\
          tr = Called GetMarkdownFiles (Some (map path files))
               :: readEvents files
    | None => True
    end).
Proof.
  unfold collectTimeLogRowsOfVault. cbn [bind await allRuns].
  intros [paths|]; cbn [bind allRuns]; [|cbn; auto].
  apply allRuns_bind. eapply allRuns_weaken; [|apply readFiles_all].
  intros tr [files|] (Hw & Hn & H); cbn beta iota.
  - destruct H as [<- ->]. cbn [allRuns]. rewrite app_nil_r.
    cbn [existsb isWrite notices]. repeat split; try assumption.
    exists files. auto.
  - cbn [existsb isWrite notices]. auto.
Qed.

(** What holds of every run of the export command. *)
Lemma exportTimeLogsCsv_all (s : option TimeLogsSettings) :
  allRuns (exportTimeLogsCsv localeCompare s)
    (exportPost localeCompare (csvFilePath s)).
Proof.
  unfold exportTimeLogsCsv. apply allRuns_tryCatch, allRuns_bind.
  eapply allRuns_weaken; [|apply collectTimeLogRowsOfVault_all].
  intros tr1 [rows|] (Hw1 & Hn1 & H1); cbn beta iota.
  - destruct H1 as (files & -> & ->). cbv zeta. apply allRuns_bind.
    eapply allRuns_weaken;
      [|apply allRuns_and;
        [apply writeCsvToVault_all|apply writeCsvToVault_silent]].
    intros tr2 [p|] [[_ H2] Hn2]; cbn beta iota.
    + destruct H2 as (-> & tr0 & e & -> & He). cbn [allRuns].
      split; [reflexivity|]. left. exists files.
      eexists. split; [|split].
      * cbn [app]. rewrite <- !app_assoc. reflexivity.
      * clear He. set (tr2 := tr0 ++ [e]) in *.
        rewrite !notices_app, Hn2, Hn1. reflexivity.
      * rewrite !existsb_app. cbn [existsb]. rewrite He.
        rewrite !orb_true_r. reflexivity.
    + cbn [allRuns]. split; [reflexivity|]. right. split.
      * rewrite !notices_app, Hn2, Hn1. reflexivity.
      * intros p d. rewrite !existsb_app, H2.
        rewrite noWrite_wrote by exact Hw1. reflexivity.
  - cbn [allRuns]. split; [reflexivity|]. right. split.
    + rewrite notices_app, Hn1. reflexivity.
    + intros p d. rewrite existsb_app.
      rewrite noWrite_wrote by exact Hw1. reflexivity.
Qed.
End ExportFacts.

Lemma csvFilePath_trimmed (s : option TimeLogsSettings) :
  csvFilePath s <> [] /\ trim (csvFilePath s) = csvFilePath s.
Proof.
  unfold csvFilePath. cbv zeta.
  destruct (trim match s with Some s' => csvExportPath s' | None => [] end)
    as [|c r] eqn:E.
  - split; [discriminate|reflexivity].
  - cbn [length Nat.ltb Nat.leb]. split; [discriminate|].
    rewrite <- E. apply trim_idem.
Qed.

(** X15.  Every run of [writeCsvToVault] asks for at most one write.  When
    it returns, it returns the path of the settings without the white
    space around it, or [time-logs.csv] when that is empty, and the last
    thing it did was to write the CSV text to this path, with success.
    When it throws, nothing has been written. *)
Theorem writeCsvToVault_runs (s : option TimeLogsSettings) (csvContent : str)
  (tr : list event) (out : option str) :
  runs (writeCsvToVault s csvContent) tr out ->
  length (filter isWrite tr) <= 1 /\
  match out with
  | Some filePath =>
      filePath = csvFilePath s /\ filePath <> [] /\
      trim filePath = filePath /\
      exists tr0 e, tr = tr0 ++ [e] /\ wrote filePath csvContent e = true
  | None => forall p d, existsb (wrote p d) tr = false
  end.
Proof.
  intros Hr.
  destruct (runs_allRuns Hr _ (writeCsvToVault_all s csvContent)) as [H1 H2].
  split; [exact H1|]. destruct out as [p|]; [|exact H2].
  destruct H2 as (-> & H2). destruct (csvFilePath_trimmed s) as [Hne Htr].
  auto.
Qed.

Lemma writeCsvToVault_runs_witness :
  exists tr0 e,
    [Called (IsAbsolute (lit "exports/logs.csv")) (Some false);
     Called (GetAbstractFileByPath (lit "exports")) (Some None);
     Called (CreateFolder (lit "exports")) (Some tt);
     Called (GetAbstractFileByPath (lit "exports/logs.csv")) (Some None);
     Called (VaultCreate (lit "exports/logs.csv") (lit "Task,From,To,File,Line"))
            (Some tt)]
    = tr0 ++ [e] /\
    wrote (lit "exports/logs.csv") (lit "Task,From,To,File,Line") e = true.
Proof.
  refine (proj2 (proj2 (proj2 (proj2
    (@writeCsvToVault_runs (Some (MkSettings (lit " exports/logs.csv ") true))
       (lit "Task,From,To,File,Line") _ (Some (lit "exports/logs.csv")) _))))).
  unfold writeCsvToVault, isAbsoluteOsPath, ensureParentFolderExists. cbn.
  apply runs_Vis with (r := Some false). cbn.
  apply runs_Vis with (r := Some None). cbn.
  apply runs_Vis with (r := Some tt). cbn.
  apply runs_Vis with (r := Some None). cbn.
  apply runs_Vis with (r := Some tt). cbn.
  apply runs_Ret.
Defined.

(** X16.  The export command never throws and shows exactly one notice.
    Either the markdown files of the vault were all read, the CSV text of
    their rows was written to the path of the export, and the notice tells
    the number of rows and the path; or nothing was written, and the
    notice tells that the export failed.  Any call of the vault or of the
    file system may throw; showing a notice and writing to the console
    are taken not to. *)
Theorem exportTimeLogsCsv_runs (localeCompare : str -> str -> Z)
  (s : option TimeLogsSettings) (tr : list event) (out : option unit) :
  runs (exportTimeLogsCsv localeCompare s) tr out ->
  out = Some tt /\
  ((exists files tr',
      let rows := collectTimeLogRows localeCompare files in
      tr = (Called GetMarkdownFiles (Some (map path files))
            :: readEvents files) ++ tr' /\
      notices tr = [exportedNotice rows (csvFilePath s)] /\
      existsb (wrote (csvFilePath s) (createCsvContent rows)) tr' = true)
   \/
   (notices tr = [lit "Failed to export time logs"] /\
    forall p d, existsb (wrote p d) tr = false)).
Proof.
  intros Hr. exact (runs_allRuns Hr _ (exportTimeLogsCsv_all localeCompare s)).
Qed.

Lemma exportTimeLogsCsv_runs_witness :
  exportPost codeUnitCompare (lit "time-logs.csv") emptyVaultRun (Some tt).
Proof.
  apply (@exportTimeLogsCsv_runs codeUnitCompare None).
  unfold exportTimeLogsCsv, collectTimeLogRowsOfVault, writeCsvToVault,
    isAbsoluteOsPath, ensureParentFolderExists. cbn.
  apply runs_Vis with (r := Some []). cbn.
  apply runs_Vis with (r := Some false). cbn.
  apply runs_Vis with (r := Some (Some IsTFile)). cbn.
  apply runs_Vis with (r := Some tt). cbn.
  apply runs_Tell. apply runs_Ret.
Defined.

(** * Task lines and markers *)

(** X17.  A line is an unchecked task line exactly when, after its leading
    white space, it reads a dash, a white space character, an opening
    bracket, one white space character, a closing bracket and a white space
    character; it is a checked task line when the brackets hold an x or X
    with any white space around it.  No line is both. *)
Theorem task_line_classes (s : str) :
  isUncheckedTaskLine s = uncheckedLine s /\
  isCheckedTaskLine s = checkedLine s /\
  (isUncheckedTaskLine s = true -> isCheckedTaskLine s = false).
Proof.
  split; [apply isUncheckedTaskLine_closed|].
  split; [apply isCheckedTaskLine_closed|apply unchecked_not_checked].
Qed.

Lemma task_line_classes_witness :
  isCheckedTaskLine (lit "- [ ] Pay bills") = false.
Proof.
  apply (proj2 (proj2 (task_line_classes (lit "- [ ] Pay bills")))).
  reflexivity.
Defined.

(** X18.  A line contains time logs exactly when it holds the open token of
    a marker and, after it, a closing bracket with no other closing bracket
    and no line terminator in between. *)
Theorem containsTimeLogs_iff (ln : str) :
  containsTimeLogs ln = true <->
  exists pre inner post,
    ln = pre ++ lit "[time-logs::" ++ inner ++ lit "]" ++ post /\
    forallb innerChar inner = true.
Proof.
  rewrite containsTimeLogs_findMarker. split.
  - destruct (findMarker [] ln) as [[[pre x] post]|] eqn:E; [|discriminate].
    intros _. destruct (findMarker_Some _ _ E) as (a & -> & _ & Hx).
    exists a, x, post. split; [reflexivity|exact Hx].
  - intros (pre & inner & post & -> & Hi).
    pose proof (@findMarker_exists pre [] inner post Hi) as H.
    change (lit "[time-logs::") with openToken.
    change (lit "]" ++ post) with (N_of_ascii "]" :: post).
    destruct (findMarker [] _); [reflexivity|congruence].
Qed.

Lemma containsTimeLogs_iff_witness :
  containsTimeLogs (lit "Pay bills [time-logs:: 2025-08-28 -14:32; ] now")
  = true.
Proof.
  apply (proj2 (containsTimeLogs_iff
                  (lit "Pay bills [time-logs:: 2025-08-28 -14:32; ] now"))).
  exists (lit "Pay bills "), (lit " 2025-08-28 -14:32; "), (lit " now").
  split; reflexivity.
Defined.

(** * The mutator leaves the checkbox alone *)

Lemma leadingSpaces_trimStart (s : str) :
  s = leadingSpaces s ++ trimStart s /\
  forallb isSpace (leadingSpaces s) = true.
Proof.
  induction s as [|c s [IH1 IH2]]; [split; reflexivity|].
  cbn [leadingSpaces trimStart]. destruct (isSpace c) eqn:E.
  - cbn [app forallb]. rewrite E, IH2. split; [f_equal; exact IH1|reflexivity].
  - split; reflexivity.
Qed.

Lemma trimStart_spaces_app (ws l : str) :
  forallb isSpace ws = true -> trimStart (ws ++ l) = trimStart l.
Proof.
  induction ws as [|c ws IH]; [reflexivity|]. cbn [forallb app trimStart].
  intros H. apply andb_true_iff in H. destruct H as [Hc Hws].
  rewrite Hc. apply IH, Hws.
Qed.

Lemma boxChar_spaces (ws : str) :
  forallb isSpace ws = true -> forallb boxChar ws = true.
Proof.
  intros H. rewrite forallb_forall in *. intros c Hc. unfold boxChar.
  rewrite (H c Hc). reflexivity.
Qed.

(** A checked task line begins with a checkbox prefix, and the prefix
    alone is a checked task line. *)
Lemma checked_shape (s : str) :
  isCheckedTaskLine s = true ->
  exists lead b inside f r,
    s = boxPrefix lead b inside f ++ r /\
    forallb isSpace lead = true /\ isSpace b = true /\
    forallb boxChar inside = true /\ isSpace f = true /\
    isCheckedTaskLine (boxPrefix lead b inside f) = true.
Proof.
  rewrite isCheckedTaskLine_closed. unfold checkedLine.
  destruct (leadingSpaces_trimStart s) as [Hs Hlead].
  destruct (trimStart s) as [|a [|b [|c inside]]] eqn:E1; try discriminate.
  destruct (chr_is "-" a) eqn:Ea; [|discriminate].
  destruct (isSpace b) eqn:Eb; [|discriminate].
  destruct (chr_is "[" c) eqn:Ec; [|discriminate]. cbn [andb].
  destruct (leadingSpaces_trimStart inside) as [Hi Hws1].
  destruct (trimStart inside) as [|x after] eqn:E2; [discriminate|].
  destruct (isXx x) eqn:Ex; [|discriminate]. cbn [andb].
  destruct (leadingSpaces_trimStart after) as [Haf Hws2].
  destruct (trimStart after) as [|e [|f r]] eqn:E3; try discriminate.
  { cbn [hasPrefix]. destruct (chr_is "]" e); discriminate. }
  cbn [hasPrefix]. destruct (chr_is "]" e) eqn:Ee; [|discriminate].
  destruct (isSpace f) eqn:Ef; [|discriminate]. intros _.
  apply N.eqb_eq in Ea, Ec, Ee. subst a c e.
  exists (leadingSpaces s), b,
         (leadingSpaces inside ++ x :: leadingSpaces after), f, r.
  split; [|split; [exact Hlead|split; [exact Eb|split; [|split; [exact Ef|]]]]].
  - rewrite Hs at 1. rewrite Hi at 1. rewrite Haf at 1.
    unfold boxPrefix.
    repeat (progress (rewrite <- ?app_assoc; cbn [app])). reflexivity.
  - rewrite forallb_app. cbn [forallb].
    rewrite (boxChar_spaces _ Hws1), (boxChar_spaces _ Hws2).
    unfold boxChar at 1. rewrite Ex, orb_true_r. reflexivity.
  - rewrite isCheckedTaskLine_closed. unfold checkedLine, boxPrefix.
    rewrite (trimStart_spaces_app _ _ Hlead).
    rewrite trimStart_nonspace by reflexivity.
    change (chr_is "-" (N_of_ascii "-")) with true.
    change (chr_is "[" (N_of_ascii "[")) with true. rewrite Eb. cbn [andb].
    rewrite <- app_assoc, (trimStart_spaces_app _ _ Hws1). cbn [app].
    rewrite trimStart_nonspace by (apply xX_not_space, Ex).
    rewrite Ex. cbn [andb].
    rewrite (trimStart_spaces_app _ _ Hws2).
    rewrite trimStart_nonspace by reflexivity.
    cbn [hasPrefix]. change (chr_is "]" (N_of_ascii "]")) with true.
    rewrite Ef. reflexivity.
Qed.

(** The same for an unchecked task line. *)
Lemma unchecked_shape (s : str) :
  isUncheckedTaskLine s = true ->
  exists lead b inside f r,
    s = boxPrefix lead b inside f ++ r /\
    forallb isSpace lead = true /\ isSpace b = true /\
    forallb boxChar inside = true /\ isSpace f = true /\
    forall r', isUncheckedTaskLine (boxPrefix lead b inside f ++ r') = true.
Proof.
  rewrite isUncheckedTaskLine_closed. unfold uncheckedLine.
  destruct (leadingSpaces_trimStart s) as [Hs Hlead].
  destruct (trimStart s) as [|a [|b [|c [|w [|e [|f r]]]]]] eqn:E1;
    cbn [hasPrefix];
    repeat match goal with
    | |- (if ?x then _ else _) = true -> _ =>
        let E := fresh "E" in destruct x eqn:E; [|discriminate]
    end; try discriminate.
  intros _. apply N.eqb_eq in E, E2, E4. subst a c e.
  exists (leadingSpaces s), b, [w], f, r.
  split; [|split; [exact Hlead|split; [assumption|split; [|split;
    [assumption|]]]]].
  - rewrite Hs at 1. unfold boxPrefix.
    repeat (progress (rewrite <- ?app_assoc; cbn [app])). reflexivity.
  - cbn [forallb]. unfold boxChar. rewrite E3. reflexivity.
  - intros r'. rewrite isUncheckedTaskLine_closed. unfold uncheckedLine.
    unfold boxPrefix. rewrite <- !app_assoc.
    rewrite (trimStart_spaces_app _ _ Hlead). cbn [app].
    rewrite trimStart_nonspace by reflexivity.
    cbn [hasPrefix].
    change (chr_is "-" (N_of_ascii "-")) with true.
    change (chr_is "[" (N_of_ascii "[")) with true.
    change (chr_is "]" (N_of_ascii "]")) with true.
    rewrite E0, E3, E5. reflexivity.
Qed.

Lemma boxChar_not_colon (c : char) :
  (boxChar c = true \/ chr_is "]" c = true) -> N.eqb (N_of_ascii ":") c = false.
Proof.
  intros [H|H]; destruct (N.eqb (N_of_ascii ":") c) eqn:E; try reflexivity;
    apply N.eqb_eq in E; subst c; discriminate H.
Qed.

Lemma run_colons_fail (r : regex) (c : char) (rs sn : str) (cs : list str) :
  N.eqb (N_of_ascii ":") c = false ->
  run (Lit (lit "::") >> r) (MState sn (c :: rs) cs) = [].
Proof.
  intros H. change (lit "::") with [N_of_ascii ":"; N_of_ascii ":"].
  cbn [Lit]. rewrite !run_Seq. cbn [run rest]. rewrite H. reflexivity.
Qed.

(** Inside a checkbox no inline field begins: between the brackets there
    is no colon, and the closing bracket stops both loops. *)
Lemma run_spaces_colons_fail (r : regex) (inside tail : str) :
  forallb boxChar inside = true ->
  forall sn cs,
  run (Star (Cls isSpace) >> Lit (lit "::") >> r)
      (MState sn (inside ++ N_of_ascii "]" :: tail) cs) = [].
Proof.
  intros Hin. induction inside as [|c w IH]; intros sn cs.
  - cbn [app]. rewrite run_Seq, run_Star_Cls_cons.
    change (isSpace (N_of_ascii "]")) with false. cbn [app flat_map].
    rewrite run_colons_fail; [reflexivity|].
    apply boxChar_not_colon. right. reflexivity.
  - cbn [forallb] in Hin. apply andb_true_iff in Hin.
    destruct Hin as [Hc Hw]. cbn [app].
    rewrite run_Seq, run_Star_Cls_cons, flat_map_app. cbn [flat_map].
    rewrite run_colons_fail by (apply boxChar_not_colon; left; exact Hc).
    rewrite !app_nil_r. destruct (isSpace c); [|reflexivity].
    rewrite <- run_Seq. apply (IH Hw).
Qed.

Lemma inlineFieldTail_fail (inside tail : str) :
  forallb boxChar inside = true ->
  forall sn cs,
  run inlineFieldTail (MState sn (inside ++ N_of_ascii "]" :: tail) cs) = [].
Proof.
  intros Hin. unfold inlineFieldTail.
  induction inside as [|c w IH]; intros sn cs.
  - cbn [app]. rewrite run_Seq, run_Star_Cls_cons.
    change (notBracketNorLF (N_of_ascii "]")) with false.
    cbn [app flat_map]. rewrite app_nil_r.
    apply (@run_spaces_colons_fail _ [] tail eq_refl).
  - pose proof Hin as Hin'. cbn [forallb] in Hin.
    apply andb_true_iff in Hin. destruct Hin as [Hc Hw]. cbn [app].
    rewrite run_Seq, run_Star_Cls_cons, flat_map_app. cbn [flat_map].
    rewrite app_nil_r.
    rewrite (@run_spaces_colons_fail _ (c :: w) tail Hin').
    rewrite app_nil_r. destruct (notBracketNorLF c); [|reflexivity].
    rewrite <- run_Seq. apply (IH Hw).
Qed.

Lemma inlineDataview_tail :
  inlineDataviewRegex = Chr "[" >> inlineFieldTail.
Proof. reflexivity. Qed.

Lemma match_here_inline_other (c : char) (rs sn : str) :
  chr_is "[" c = false ->
  match_here inlineDataviewRegex sn (c :: rs) = None.
Proof.
  intros H. unfold match_here. rewrite inlineDataview_tail, run_Seq.
  unfold Chr. cbn [run rest]. rewrite H. reflexivity.
Qed.

Lemma exec_from_inline_skip (w rs sn : str) :
  forallb (fun c => negb (chr_is "[" c)) w = true ->
  exec_from inlineDataviewRegex sn (w ++ rs)
  = exec_from inlineDataviewRegex (rev w ++ sn) rs.
Proof.
  revert sn; induction w as [|c w IH]; intros sn H; [reflexivity|].
  cbn [forallb] in H. apply andb_true_iff in H. destruct H as [Hc Hw].
  apply negb_true_iff in Hc. cbn [app exec_from].
  rewrite match_here_inline_other by exact Hc. rewrite (IH (c :: sn) Hw).
  cbn [rev]. rewrite <- app_assoc. reflexivity.
Qed.

Lemma markerAt_other (c : char) (rs : str) :
  chr_is "[" c = false -> markerAt (c :: rs) = None.
Proof.
  intros H. unfold markerAt, openToken.
  change (lit "[time-logs::") with (N_of_ascii "[" :: lit "time-logs::").
  cbn [startsWith]. unfold chr_is in H. rewrite H. reflexivity.
Qed.

Lemma findMarker_skip (w rs sn : str) :
  forallb (fun c => negb (chr_is "[" c)) w = true ->
  findMarker sn (w ++ rs) = findMarker (rev w ++ sn) rs.
Proof.
  revert sn; induction w as [|c w IH]; intros sn H; [reflexivity|].
  cbn [forallb] in H. apply andb_true_iff in H. destruct H as [Hc Hw].
  apply negb_true_iff in Hc. cbn [app findMarker].
  rewrite markerAt_other by exact Hc. rewrite (IH (c :: sn) Hw).
  cbn [rev]. rewrite <- app_assoc. reflexivity.
Qed.

Lemma boxChar_not_bracket (w : str) :
  forallb boxChar w = true ->
  forallb (fun c => negb (chr_is "[" c)) w = true.
Proof.
  intros H. rewrite forallb_forall in *. intros c Hc.
  specialize (H c Hc). apply negb_true_iff.
  destruct (chr_is "[" c) eqn:E; [|reflexivity].
  unfold chr_is in E. apply N.eqb_eq in E. subst c. discriminate H.
Qed.

(** Neither an inline field nor a marker begins inside a checkbox prefix:
    both are looked for after it. *)
Lemma boxPrefix_skipped (lead : str) (b : char) (inside : str) (f : char)
  (r : str) :
  forallb isSpace lead = true -> isSpace b = true ->
  forallb boxChar inside = true -> isSpace f = true ->
  exec inlineDataviewRegex (boxPrefix lead b inside f ++ r)
    = exec_from inlineDataviewRegex (rev (boxPrefix lead b inside f)) r /\
  findMarker [] (boxPrefix lead b inside f ++ r)
    = findMarker (rev (boxPrefix lead b inside f)) r.
Proof.
  intros Hlead Hb Hin Hf.
  assert (H1 : forallb (fun c => negb (chr_is "[" c))
                 (lead ++ [N_of_ascii "-"; b]) = true).
  { rewrite forallb_app. cbn [forallb].
    rewrite boxChar_not_bracket by (apply boxChar_spaces, Hlead).
    assert (chr_is "[" b = false) as ->; [|reflexivity].
    destruct (chr_is "[" b) eqn:E; [|reflexivity].
    unfold chr_is in E. apply N.eqb_eq in E. subst b. discriminate Hb. }
  assert (H2 : forallb (fun c => negb (chr_is "[" c))
                 (inside ++ [N_of_ascii "]"; f]) = true).
  { rewrite forallb_app, boxChar_not_bracket by exact Hin. cbn [forallb].
    assert (chr_is "[" f = false) as ->; [|reflexivity].
    destruct (chr_is "[" f) eqn:E; [|reflexivity].
    unfold chr_is in E. apply N.eqb_eq in E. subst f. discriminate Hf. }
  assert (E : boxPrefix lead b inside f ++ r
              = (lead ++ [N_of_ascii "-"; b]) ++
                N_of_ascii "[" :: (inside ++ [N_of_ascii "]"; f]) ++ r).
  { unfold boxPrefix.
    repeat (progress (rewrite <- ?app_assoc; cbn [app])). reflexivity. }
  assert (Er : rev (boxPrefix lead b inside f)
               = rev (inside ++ [N_of_ascii "]"; f]) ++
                 N_of_ascii "[" :: rev (lead ++ [N_of_ascii "-"; b]) ++ []).
  { unfold boxPrefix. rewrite app_nil_r.
    replace (lead ++ N_of_ascii "-" :: b :: N_of_ascii "[" :: inside
             ++ [N_of_ascii "]"; f])
      with ((lead ++ [N_of_ascii "-"; b]) ++
            N_of_ascii "[" :: (inside ++ [N_of_ascii "]"; f]))
      by (repeat (progress (rewrite <- ?app_assoc; cbn [app])); reflexivity).
    rewrite rev_app_distr. cbn [rev]. rewrite <- app_assoc. reflexivity. }
  rewrite E, Er. unfold exec. split.
  - rewrite exec_from_inline_skip by exact H1. cbn [exec_from].
    assert (Hm : match_here inlineDataviewRegex
                   (rev (lead ++ [N_of_ascii "-"; b]) ++ [])
                   (N_of_ascii "[" :: (inside ++ [N_of_ascii "]"; f]) ++ r)
                 = None).
    { unfold match_here. rewrite inlineDataview_tail, run_Seq.
      unfold Chr. cbn [run rest seen caps].
      change (chr_is "[" (N_of_ascii "[")) with true. cbv iota.
      rewrite flat_map_one.
      replace ((inside ++ [N_of_ascii "]"; f]) ++ r)
        with (inside ++ N_of_ascii "]" :: f :: r)
        by (rewrite <- app_assoc; reflexivity).
      rewrite inlineFieldTail_fail by exact Hin. reflexivity. }
    rewrite Hm. apply exec_from_inline_skip, H2.
  - rewrite findMarker_skip by exact H1. cbn [findMarker].
    assert (Hm : markerAt (N_of_ascii "[" ::
                           (inside ++ [N_of_ascii "]"; f]) ++ r) = None).
    { unfold markerAt, openToken.
      change (lit "[time-logs::") with (N_of_ascii "[" :: lit "time-logs::").
      cbn [startsWith]. rewrite N.eqb_refl. cbn [andb].
      destruct inside as [|c w]; [reflexivity|].
      cbn [forallb] in Hin. apply andb_true_iff in Hin.
      destruct Hin as [Hc _]. cbn [app].
      change (lit "time-logs::") with (N_of_ascii "t" :: lit "ime-logs::").
      cbn [startsWith].
      assert (N.eqb (N_of_ascii "t") c = false) as ->; [|reflexivity].
      destruct (N.eqb (N_of_ascii "t") c) eqn:Et; [|reflexivity].
      apply N.eqb_eq in Et. subst c. discriminate Hc. }
    rewrite Hm. apply findMarker_skip, H2.
Qed.

(** What the two writers return for a line that begins with a checkbox
    prefix begins with the same prefix. *)
Lemma writers_after_prefix (p r t : str) :
  exec inlineDataviewRegex (p ++ r)
    = exec_from inlineDataviewRegex (rev p) r ->
  findMarker [] (p ++ r) = findMarker (rev p) r ->
  (exists r', appendTimeLogToLine (p ++ r) t = p ++ r') /\
  (exists r', addTimeLogLine t (p ++ r) = p ++ r').
Proof.
  intros Hex Hfm.
  assert (Happ : exists r', appendTimeLogToLine (p ++ r) t = p ++ r').
  { destruct (findMarker (rev p) r) as [[[pre x] post]|] eqn:E.
    - destruct (findMarker_Some _ _ E) as (a & _ & -> & _).
      rewrite (appendTimeLogToLine_marker _ t Hfm), rev_involutive.
      rewrite <- app_assoc. eexists. reflexivity.
    - rewrite (appendTimeLogToLine_no_marker _ t Hfm). cbv zeta.
      unfold findFirstInlineDataviewIndex, search. rewrite Hex.
      destruct (exec_from inlineDataviewRegex (rev p) r) as [m|] eqn:Em.
      + destruct (exec_from_Some _ _ _ Em) as (a & b & -> & Hpre & _).
        rewrite rev_involutive in Hpre.
        assert (Hz : Z.eqb (Z.of_nat (m_index m)) (-1) = false)
          by (apply Z.eqb_neq; lia).
        rewrite Hz, Nat2Z.id. unfold m_index. rewrite Hpre.
        replace (p ++ a ++ b) with ((p ++ a) ++ b) by (symmetry; apply app_assoc).
        rewrite (@firstn_app_exact _ (p ++ a) b _ eq_refl).
        rewrite <- !app_assoc. eexists. reflexivity.
      + change (Z.eqb (-1) (-1)) with true. cbv iota.
        rewrite <- app_assoc. eexists. reflexivity. }
  split; [exact Happ|].
  rewrite addTimeLogLine_template, exec_timeLogs, Hfm.
  destruct (findMarker (rev p) r) as [[[pre x] post]|] eqn:E;
    cbn [option_map]; [|exact Happ].
  destruct (findMarker_Some _ _ E) as (a & _ & -> & _).
  cbn [markerMatch m_pre]. rewrite rev_involutive, <- app_assoc.
  eexists. reflexivity.
Qed.

(** X19.  Logging a time never breaks the checkbox of a task line: what the
    mutator of the auto-detection and the command write for a checked task
    line is a checked task line, and what they write for an unchecked task
    line is an unchecked one.  Marker and inline fields are looked for
    after the checkbox only. *)
Theorem writers_keep_checkbox (ln t : str) :
  (isCheckedTaskLine ln = true ->
     isCheckedTaskLine (appendTimeLogToLine ln t) = true /\
     isCheckedTaskLine (addTimeLogLine t ln) = true) /\
  (isUncheckedTaskLine ln = true ->
     isUncheckedTaskLine (appendTimeLogToLine ln t) = true /\
     isUncheckedTaskLine (addTimeLogLine t ln) = true).
Proof.
  split; intros H.
  - destruct (checked_shape _ H)
      as (lead & b & inside & f & r & -> & Hl & Hb & Hi & Hf & Hc).
    destruct (@boxPrefix_skipped lead b inside f r Hl Hb Hi Hf) as [Hex Hfm].
    destruct (@writers_after_prefix _ r t Hex Hfm) as [[r1 ->] [r2 ->]].
    split; apply checked_app, Hc.
  - destruct (unchecked_shape _ H)
      as (lead & b & inside & f & r & -> & Hl & Hb & Hi & Hf & Hu).
    destruct (@boxPrefix_skipped lead b inside f r Hl Hb Hi Hf) as [Hex Hfm].
    destruct (@writers_after_prefix _ r t Hex Hfm) as [[r1 ->] [r2 ->]].
    split; apply Hu.
Qed.

Lemma writers_keep_checkbox_witness :
  isCheckedTaskLine
    (appendTimeLogToLine (lit "- [x] Pay bills [due:: 2025-09-01]")
       (lit "2025-08-28 -14:32")) = true /\
  isCheckedTaskLine
    (addTimeLogLine (lit "2025-08-28 -14:32")
       (lit "- [x] Pay bills [due:: 2025-09-01]")) = true.
Proof.
  apply (proj1 (writers_keep_checkbox
                  (lit "- [x] Pay bills [due:: 2025-09-01]")
                  (lit "2025-08-28 -14:32"))).
  reflexivity.
Defined.

(** * What counts as an inline field *)

(** The greedy loop over a class offers every prefix of the text that
    lies in the class, and nothing else. *)
Lemma run_Star_Cls_In (p : char -> bool) (rs : str) :
  forall sn cs st',
  In st' (run (Star (Cls p)) (MState sn rs cs)) <->
  exists w rs', rs = w ++ rs' /\ forallb p w = true /\
                st' = MState (rev w ++ sn) rs' cs.
Proof.
  induction rs as [|c rs IH]; intros sn cs st'.
  - cbn. split.
    + intros [<-|[]]. exists [], []. auto.
    + intros (w & rs' & E & _ & ->). symmetry in E.
      apply app_eq_nil in E. destruct E as [-> ->]. left. reflexivity.
  - rewrite run_Star_Cls_cons, in_app_iff. split.
    + intros [H|[<-|[]]].
      * destruct (p c) eqn:Ep; [|destruct H].
        apply IH in H. destruct H as (w & rs' & -> & Hw & ->).
        exists (c :: w), rs'. cbn [app forallb rev]. rewrite Ep, Hw.
        rewrite <- app_assoc. auto.
      * exists [], (c :: rs). auto.
    + intros (w & rs' & E & Hw & ->). destruct w as [|d w].
      * cbn [app] in E. subst rs'. right. left. reflexivity.
      * cbn [app] in E. injection E as <- ->. cbn [forallb] in Hw.
        apply andb_true_iff in Hw. destruct Hw as [Hd Hw]. rewrite Hd.
        left. apply IH. exists w, rs'. cbn [rev]. rewrite <- app_assoc. auto.
Qed.

Lemma run_Chr_In (a : ascii) (r : regex) (rs sn : str) (cs : list str)
  (st' : mstate) :
  In st' (run (Chr a >> r) (MState sn rs cs)) <->
  exists rs', rs = N_of_ascii a :: rs' /\
              In st' (run r (MState (N_of_ascii a :: sn) rs' cs)).
Proof.
  unfold Chr. destruct rs as [|c rs].
  - rewrite run_Cls_nil. split; [intros []|]. intros (rs' & E & _).
    discriminate E.
  - rewrite run_Cls_cons. unfold chr_is.
    destruct (N.eqb (N_of_ascii a) c) eqn:E.
    + apply N.eqb_eq in E. subst c. split.
      * intros H. exists rs. auto.
      * intros (rs' & [= <-] & H). exact H.
    + split; [intros []|]. intros (rs' & [= -> _] & _).
      rewrite N.eqb_refl in E. discriminate E.
Qed.

(** The tail of the inline field pattern matches exactly the texts that
    continue an inline field. *)
Lemma inlineFieldTail_In (rs sn : str) (cs : list str) :
  run inlineFieldTail (MState sn rs cs) <> [] <->
  exists k s1 s2 v post,
    rs = k ++ s1 ++ lit "::" ++ s2 ++ v ++ lit "]" ++ post /\
    forallb notBracketNorLF k = true /\ forallb isSpace s1 = true /\
    forallb isSpace s2 = true /\ forallb notBracketNorLF v = true.
Proof.
  assert (Hne : forall l : list mstate, l <> [] <-> exists x, In x l).
  { intros [|x l]; split; try congruence.
    - intros (x & []).
    - intros _. exists x. left. reflexivity. }
  rewrite Hne. unfold inlineFieldTail. split.
  - intros (st & H). rewrite run_Seq in H. apply in_flat_map in H.
    destruct H as (st1 & H1 & H). apply run_Star_Cls_In in H1.
    destruct H1 as (k & r1 & -> & Hk & ->).
    rewrite run_Seq in H. apply in_flat_map in H.
    destruct H as (st2 & H2 & H). apply run_Star_Cls_In in H2.
    destruct H2 as (s1 & r2 & -> & Hs1 & ->).
    rewrite run_Seq, run_Lit in H.
    destruct (startsWith (lit "::") r2) eqn:Ec; [|destruct H].
    pose proof (startsWith_firstn _ _ Ec) as Hf.
    rewrite <- (firstn_skipn (length (lit "::")) r2), Hf.
    cbn [flat_map] in H. rewrite app_nil_r in H.
    rewrite run_Seq in H. apply in_flat_map in H.
    destruct H as (st3 & H3 & H). apply run_Star_Cls_In in H3.
    destruct H3 as (s2 & r3 & E3 & Hs2 & ->). rewrite E3.
    rewrite run_Seq in H. apply in_flat_map in H.
    destruct H as (st4 & H4 & H). apply run_Star_Cls_In in H4.
    destruct H4 as (v & r4 & -> & Hv & ->).
    unfold Chr in H. cbn [run rest] in H.
    destruct r4 as [|c post]; [destruct H|].
    destruct (chr_is "]" c) eqn:Eb; [|destruct H].
    unfold chr_is in Eb. apply N.eqb_eq in Eb. subst c.
    exists k, s1, s2, v, post. auto.
  - intros (k & s1 & s2 & v & post & -> & Hk & Hs1 & Hs2 & Hv).
    eexists. rewrite run_Seq. apply in_flat_map. eexists. split.
    { apply run_Star_Cls_In. exists k. eexists. split; [reflexivity|]. auto. }
    rewrite run_Seq. apply in_flat_map. eexists. split.
    { apply run_Star_Cls_In. exists s1. eexists. split; [reflexivity|]. auto. }
    rewrite run_Seq, run_Lit, startsWith_self_app.
    cbn [flat_map]. rewrite app_nil_r.
    rewrite skipn_app_exact by reflexivity.
    rewrite run_Seq. apply in_flat_map. eexists. split.
    { apply run_Star_Cls_In. exists s2. eexists. split; [reflexivity|]. auto. }
    rewrite run_Seq. apply in_flat_map. eexists. split.
    { apply run_Star_Cls_In. exists v. eexists. split; [reflexivity|]. auto. }
    unfold Chr. cbn [run rest app lit map list_ascii_of_string].
    change (chr_is "]" (N_of_ascii "]")) with true. left. reflexivity.
Qed.

Lemma match_here_inline_iff (sn rs : str) :
  match_here inlineDataviewRegex sn rs <> None <-> inlineFieldAt rs.
Proof.
  unfold match_here, inlineFieldAt. rewrite inlineDataview_tail.
  assert (Hrun : run (Chr "[" >> inlineFieldTail) (MState sn rs []) <> [] <->
                 exists rs', rs = N_of_ascii "[" :: rs' /\
                   run inlineFieldTail (MState (N_of_ascii "[" :: sn) rs' [])
                   <> []).
  { destruct rs as [|c rs].
    - unfold Chr. rewrite run_Cls_nil. split; [congruence|].
      intros (rs' & E & _). discriminate E.
    - unfold Chr. rewrite run_Cls_cons. unfold chr_is.
      destruct (N.eqb (N_of_ascii "[") c) eqn:E.
      + apply N.eqb_eq in E. subst c. split.
        * intros H. exists rs. auto.
        * intros (rs' & [= <-] & H). exact H.
      + split; [congruence|]. intros (rs' & [= -> _] & _).
        rewrite N.eqb_refl in E. discriminate E. }
  split.
  - intros H.
    assert (Hr : run (Chr "[" >> inlineFieldTail) (MState sn rs []) <> []).
    { intros E. rewrite E in H. apply H. reflexivity. }
    apply Hrun in Hr. destruct Hr as (rs' & -> & Hr).
    apply inlineFieldTail_In in Hr.
    destruct Hr as (k & s1 & s2 & v & post & -> & Hc).
    exists k, s1, s2, v, post. split; [reflexivity|exact Hc].
  - intros (k & s1 & s2 & v & post & -> & Hc).
    assert (Hr : run (Chr "[" >> inlineFieldTail)
                   (MState sn (lit "[" ++ k ++ s1 ++ lit "::" ++ s2 ++ v
                               ++ lit "]" ++ post) []) <> []).
    { apply Hrun. eexists. split; [reflexivity|].
      apply inlineFieldTail_In. exists k, s1, s2, v, post. auto. }
    destruct (run _ _); [congruence|discriminate].
Qed.

(** The leftmost match: it starts where the pattern matches and nowhere
    before. *)
Lemma exec_from_leftmost (r : regex) (rs sn : str) :
  match exec_from r sn rs with
  | Some m =>
      exists a b, rs = a ++ b /\ m_pre m = rev sn ++ a /\
        match_here r (rev a ++ sn) b <> None /\
        forall a' b', rs = a' ++ b' -> length a' < length a ->
                      match_here r (rev a' ++ sn) b' = None
  | None =>
      forall a b, rs = a ++ b -> match_here r (rev a ++ sn) b = None
  end.
Proof.
  revert sn; induction rs as [|c rs IH]; intros sn; cbn [exec_from].
  - destruct (match_here r sn []) as [m|] eqn:E.
    + exists [], []. split; [reflexivity|]. split.
      * unfold match_here in E.
        destruct (run r (MState sn [] [])); [discriminate|].
        injection E as <-. symmetry. apply app_nil_r.
      * split; [cbn; congruence|]. intros a' b' _ Hlt. inversion Hlt.
    + intros a b Hab. symmetry in Hab. apply app_eq_nil in Hab.
      destruct Hab as [-> ->]. exact E.
  - destruct (match_here r sn (c :: rs)) as [m|] eqn:E.
    + exists [], (c :: rs). split; [reflexivity|]. split.
      * unfold match_here in E.
        destruct (run r (MState sn (c :: rs) [])); [discriminate|].
        injection E as <-. symmetry. apply app_nil_r.
      * split; [cbn; congruence|]. intros a' b' _ Hlt. inversion Hlt.
    + specialize (IH (c :: sn)).
      destruct (exec_from r (c :: sn) rs) as [m|].
      * destruct IH as (a & b & -> & Hp & Hm & Hbefore).
        exists (c :: a), b. split; [reflexivity|]. split.
        { rewrite Hp. cbn [rev]. rewrite <- app_assoc. reflexivity. }
        split.
        { cbn [rev]. rewrite <- app_assoc. exact Hm. }
        intros a' b' Hab Hlt. destruct a' as [|d a'].
        { cbn [app] in Hab. subst b'. exact E. }
        cbn [app] in Hab. injection Hab as <- Hab.
        cbn [rev]. rewrite <- app_assoc.
        apply Hbefore; [exact Hab|]. cbn [length] in Hlt. lia.
      * intros a b Hab. destruct a as [|d a].
        { cbn [app] in Hab. subst b. exact E. }
        cbn [app] in Hab. injection Hab as <- Hab.
        cbn [rev]. rewrite <- app_assoc. apply IH, Hab.
Qed.

(** X20.  [findFirstInlineDataviewIndex] returns the index of the leftmost
    inline field of the line, and -1 when the line has none.  An inline
    field is an opening bracket, a key, two colons, a value and a closing
    bracket, with no bracket and no line feed in key or value; white space
    may stand on either side of the colons. *)
Theorem findFirstInlineDataviewIndex_leftmost (ln : str) :
  (findFirstInlineDataviewIndex ln = (-1)%Z <->
   forall pre s, ln = pre ++ s -> ~ inlineFieldAt s) /\
  (forall idx, findFirstInlineDataviewIndex ln = Z.of_nat idx ->
     idx <= length ln /\ inlineFieldAt (skipn idx ln) /\
     forall pre s, ln = pre ++ s -> length pre < idx -> ~ inlineFieldAt s).
Proof.
  unfold findFirstInlineDataviewIndex, search, exec.
  pose proof (exec_from_leftmost inlineDataviewRegex ln []) as H.
  destruct (exec_from inlineDataviewRegex [] ln) as [m|].
  - destruct H as (a & b & -> & Hp & Hm & Hbefore). cbn [rev app] in Hp.
    unfold m_index. rewrite Hp. split.
    + split; [lia|]. intros Hno. exfalso.
      apply (Hno a b eq_refl). apply (match_here_inline_iff (rev a ++ [])).
      exact Hm.
    + intros idx Hidx. apply Nat2Z.inj in Hidx. subst idx.
      split; [rewrite length_app; lia|]. split.
      * rewrite skipn_app_exact by reflexivity.
        apply (match_here_inline_iff (rev a ++ [])). exact Hm.
      * intros pre s Hs Hlt Hf.
        apply (match_here_inline_iff (rev pre ++ [])) in Hf.
        apply Hf, Hbefore; assumption.
  - split.
    + split; [|reflexivity]. intros _ pre s Hs Hf.
      apply (match_here_inline_iff (rev pre ++ [])) in Hf.
      apply Hf, H, Hs.
    + intros idx Hidx. lia.
Qed.

Lemma findFirstInlineDataviewIndex_leftmost_witness :
  inlineFieldAt (skipn 16 (lit "- [ ] Pay bills [due :: 2025-09-01] now")).
Proof.
  apply (proj2 (findFirstInlineDataviewIndex_leftmost
                  (lit "- [ ] Pay bills [due :: 2025-09-01] now")) 16).
  reflexivity.
Defined.
